(** * useFaceDetection: a shallow embedding of [src/hooks/useFaceDetection.ts]

    The hook estimates a face rectangle in a still image, either through the
    platform's [FaceDetector] or through a skin-tone heuristic on a
    down-scaled canvas, and derives an eye line and a chin line from it.

    JavaScript numbers are IEEE 754 binary64 values: they are embedded as
    Rocq's primitive [float]s, whose operations are the processor's binary64
    operations.  Loop counters, pixel coordinates and canvas dimensions are
    small non-negative integers in the source; they are embedded as [Z] and
    converted with [Z2F] where the source mixes them with fractional
    arithmetic. *)

From Stdlib Require Import ZArith List Bool Lia String Floats.
Import ListNotations.

Local Open Scope Z_scope.

(* Decimal literals such as 0.299 denote the nearest binary64 value, as in
   JavaScript. *)
Set Warnings "-inexact-float".

(** ** JavaScript numbers *)

Module JS.

(** An integer seen as a JavaScript number (exact below 2^53 in absolute
    value; the DOM only hands out unsigned 32-bit dimensions and 8-bit
    channel values). *)
Definition Z2F (z : Z) : float :=
  if z <? 0 then PrimFloat.opp (of_uint63 (Uint63.of_Z (- z)))
  else of_uint63 (Uint63.of_Z z).

(** [Math.min] on two numbers: NaN is contagious, and -0 is below +0. *)
Definition Math_min (a b : float) : float :=
  if is_nan a || is_nan b then nan
  else if (a <? b)%float then a
  else if (b <? a)%float then b
  else if get_sign a then a else b.

(** WebIDL conversion of a number to [unsigned long], as performed when a
    number is stored in [canvas.width] or [canvas.height]: NaN and the
    infinities become 0, the fraction is dropped, and the integer is
    reduced modulo 2^32. *)
Definition IntegerPart (f : float) : Z :=
  match Prim2SF f with
  | S754_finite s m e =>
      let a := Z.shiftl (Zpos m) e in if s then - a else a
  | _ => 0
  end.

Definition ToUint32 (f : float) : Z := (IntegerPart f) mod 2 ^ 32.

(** Thrown values. *)
Definition Error := string.

(** Outcome of an evaluation that may throw (for an [async] function or a
    promise: the settled state, fulfilled or rejected). *)
Inductive Completion (A : Type) : Type :=
| Normal (a : A)
| Throw (e : Error).
Arguments Normal {A} a.
Arguments Throw {A} e.

Definition bind {A B} (c : Completion A) (k : A -> Completion B) : Completion B :=
  match c with
  | Normal a => k a
  | Throw e => Throw e
  end.

End JS.

Import JS.

Notation "x <- c ;; k" := (JS.bind c (fun x => k))
  (at level 61, c at next level, right associativity).

(** ** Data model *)

Record FaceBox := mkFaceBox {
  x : float;
  y : float;
  width : float;
  height : float
}.

Record FaceDetectionResult := mkResult {
  face : option FaceBox;
  eyeLineY : option float;   (* percentage from top *)
  chinY : option float       (* percentage from top *)
}.

Record HTMLImageElement := mkImage {
  naturalWidth : Z;
  naturalHeight : Z
}.

(** A coordinate of the working raster, as pushed on [skinPixels]. *)
Record Pixel := mkPixel { px : Z; py : Z }.

(** What the browser provides to the hook. *)
Record Platform := mkPlatform {
  (** ['FaceDetector' in window], probed once. *)
  isFaceDetectorSupported : bool;
  (** [new window.FaceDetector({...}).detect(img)]: the bounding boxes of
      the detected faces, or a rejection. *)
  nativeDetect : HTMLImageElement -> Completion (list FaceBox);
  (** Whether [canvas.getContext('2d')] returns a context. *)
  hasContext2d : bool;
  (** [ctx.drawImage(img, 0, 0, w, h)] followed by
      [ctx.getImageData(0, 0, w, h).data]: the RGBA bytes of the [w] by [h]
      raster, or a thrown DOM exception. *)
  readRaster : HTMLImageElement -> Z -> Z -> Completion (list Z)
}.

(** ** Pixel classifier *)

Definition isSkinTone (r g b : float) : bool :=
  (* YCbCr color space skin detection *)
  let y := (0.299 * r + 0.587 * g + 0.114 * b)%float in
  let cb := (128 - 0.169 * r - 0.331 * g + 0.5 * b)%float in
  let cr := (128 + 0.5 * r - 0.419 * g - 0.081 * b)%float in
  (* Skin tone ranges in YCbCr *)
  (80 <? y)%float &&
  (77 <? cb)%float && (cb <? 127)%float &&
  (133 <? cr)%float && (cr <? 173)%float.

(** The quantities the specification names, each as the source computes it. *)
Definition luma (r g b : float) : float :=
  (0.299 * r + 0.587 * g + 0.114 * b)%float.
Definition chromaBlue (r g b : float) : float :=
  (128 - 0.169 * r - 0.331 * g + 0.5 * b)%float.
Definition chromaRed (r g b : float) : float :=
  (128 + 0.5 * r - 0.419 * g - 0.081 * b)%float.

(** ** Canvas fallback *)

(** [data[i]]: a byte of the buffer, or [undefined] (NaN in arithmetic)
    outside of it. *)
Definition dataAt (data : list Z) (i : Z) : float :=
  if i <? 0 then nan
  else match nth_error data (Z.to_nat i) with
       | Some v => Z2F v
       | None => nan
       end.

(** The values [0, 1, ..., n-1] taken by a loop counter. *)
Definition upto (n : Z) : list Z := map Z.of_nat (seq 0 (Z.to_nat n)).

(** The two nested loops that fill [skinPixels]. *)
Definition scanRow (data : list Z) (cw y : Z) : list Pixel :=
  flat_map (fun x =>
    let i := (y * cw + x) * 4 in
    let r := dataAt data i in
    let g := dataAt data (i + 1) in
    let b := dataAt data (i + 2) in
    if isSkinTone r g b then [mkPixel x y] else []) (upto cw).

Definition findSkinPixels (data : list Z) (cw ch : Z) : list Pixel :=
  flat_map (scanRow data cw) (upto ch).

(** The loop that finds the bounding box of the skin pixels;
    the state is [(minX, maxX, minY, maxY)]. *)
Definition boundsStep (acc : Z * Z * Z * Z) (pixel : Pixel) : Z * Z * Z * Z :=
  let '(minX, maxX, minY, maxY) := acc in
  (Z.min minX (px pixel), Z.max maxX (px pixel),
   Z.min minY (py pixel), Z.max maxY (py pixel)).

Definition findBounds (cw ch : Z) (skinPixels : list Pixel) : Z * Z * Z * Z :=
  fold_left boundsStep skinPixels (cw, 0, ch, 0).

(** The candidate box: the upper 60% of the region, scaled back to the
    coordinates of the original image. *)
Definition candidateBox (scale : float) (bounds : Z * Z * Z * Z) : FaceBox :=
  let '(minX, maxX, minY, maxY) := bounds in
  let fullHeight := maxY - minY in
  let headHeight := (Z2F fullHeight * 0.6)%float in
  {| x := (Z2F minX / scale)%float;
     y := (Z2F minY / scale)%float;
     width := (Z2F (maxX - minX) / scale)%float;
     height := (headHeight / scale)%float |}.

(** Validation of the face proportions. *)
Definition validateBox (faceBox : FaceBox) : option FaceBox :=
  let aspectRatio := (width faceBox / height faceBox)%float in
  if (aspectRatio <? 0.5)%float || (1.5 <? aspectRatio)%float
  then None
  else Some faceBox.

Definition maxSize : float := 300%float.

Definition scaleOf (img : HTMLImageElement) : float :=
  Math_min (maxSize / Z2F (naturalWidth img))%float
           (maxSize / Z2F (naturalHeight img))%float.

Definition canvasWidth (img : HTMLImageElement) : Z :=
  ToUint32 (Z2F (naturalWidth img) * scaleOf img)%float.

Definition canvasHeight (img : HTMLImageElement) : Z :=
  ToUint32 (Z2F (naturalHeight img) * scaleOf img)%float.

(** What follows the scan: the pixel-count test, the bounding box, the head
    restriction, the rescaling and the validation. *)
Definition boxFromSkinPixels (scale : float) (cw ch : Z)
    (skinPixels : list Pixel) : option FaceBox :=
  if Z.of_nat (List.length skinPixels) <? 100 then None
  else validateBox (candidateBox scale (findBounds cw ch skinPixels)).

Definition detectFaceWithCanvas (P : Platform) (img : HTMLImageElement)
    : Completion (option FaceBox) :=
  if negb (hasContext2d P) then Normal None
  else
    let scale := scaleOf img in
    let cw := canvasWidth img in
    let ch := canvasHeight img in
    data <- readRaster P img cw ch ;;
    Normal (boxFromSkinPixels scale cw ch (findSkinPixels data cw ch)).

(** ** The hook *)

Record HookState := mkState {
  isDetecting : bool;
  detectionResult : option FaceDetectionResult;
  (** what [console.error] has received, most recent first *)
  console : list (string * Error)
}.

Definition setIsDetecting (b : bool) (st : HookState) : HookState :=
  {| isDetecting := b;
     detectionResult := detectionResult st;
     console := console st |}.

Definition setDetectionResult (r : option FaceDetectionResult)
    (st : HookState) : HookState :=
  {| isDetecting := isDetecting st;
     detectionResult := r;
     console := console st |}.

Definition console_error (msg : string) (e : Error) (st : HookState) : HookState :=
  {| isDetecting := isDetecting st;
     detectionResult := detectionResult st;
     console := (msg, e) :: console st |}.

(** The first part of the [try] block: a face box from the platform's
    detector when there is one, from the canvas heuristic otherwise. *)
Definition obtainFaceBox (P : Platform) (imageElement : HTMLImageElement)
    : Completion (option FaceBox) :=
  if isFaceDetectorSupported P then
    faces <- nativeDetect P imageElement ;;
    match faces with
    | face :: _ =>
        Normal (Some {| x := x face; y := y face;
                        width := width face; height := height face |})
    | [] => Normal None
    end
  else detectFaceWithCanvas P imageElement.

(** The eye line at 35% from the top of the box and the chin at its bottom,
    both as percentages of the image height. *)
Definition landmarks (faceBox : FaceBox) (imgHeight : float) : float * float :=
  let eyeLineY := ((y faceBox + height faceBox * 0.35) / imgHeight * 100)%float in
  let chinY := ((y faceBox + height faceBox) / imgHeight * 100)%float in
  (eyeLineY, chinY).

Definition detectFace (P : Platform) (imageElement : HTMLImageElement)
    (st : HookState) : HookState * Completion (option FaceDetectionResult) :=
  let st := setIsDetecting true st in
  match obtainFaceBox P imageElement with
  | Normal (Some faceBox) =>
      let imgHeight := Z2F (naturalHeight imageElement) in
      let '(eyeLineY, chinY) := landmarks faceBox imgHeight in
      let result := {| face := Some faceBox;
                       eyeLineY := Some eyeLineY;
                       chinY := Some chinY |} in
      let st := setDetectionResult (Some result) st in
      let st := setIsDetecting false st in
      (st, Normal (Some result))
  | Normal None =>
      let st := setDetectionResult None st in
      let st := setIsDetecting false st in
      (st, Normal None)
  | Throw error =>
      let st := console_error "Face detection error:" error st in
      let st := setIsDetecting false st in
      let st := setDetectionResult None st in
      (st, Normal None)
  end.

(** ** Sample inputs *)

(** The RGBA buffer of a [w] by [h] raster whose pixel at [(x, y)] has the
    colour [color x y] and is opaque. *)
Definition rasterOf (color : Z -> Z -> Z * Z * Z) (w h : Z) : list Z :=
  flat_map (fun y =>
    flat_map (fun x => let '(r, g, b) := color x y in [r; g; b; 255]) (upto w))
    (upto h).

(** A browser without [FaceDetector] whose canvas shows [color]. *)
Definition canvasPlatform (color : Z -> Z -> Z * Z * Z) : Platform :=
  {| isFaceDetectorSupported := false;
     nativeDetect := fun _ => Normal [];
     hasContext2d := true;
     readRaster := fun _ w h => Normal (rasterOf color w h) |}.

(** A browser whose detector reports the boxes [faces]. *)
Definition nativePlatform (faces : list FaceBox) : Platform :=
  {| isFaceDetectorSupported := true;
     nativeDetect := fun _ => Normal faces;
     hasContext2d := true;
     readRaster := fun _ _ _ => Normal [] |}.



Definition skinColour : Z * Z * Z := (200, 150, 120).
Definition blueColour : Z * Z * Z := (0, 0, 255).

(** An 8 by 300 portrait strip: skin in the 13 upper rows, blue below. *)
Definition stripImage : HTMLImageElement :=
  {| naturalWidth := 8; naturalHeight := 300 |}.
Definition headOnBlue (x y : Z) : Z * Z * Z :=
  if y <? 13 then skinColour else blueColour.

(** A 300 by 1 banner, all skin or all blue. *)
Definition bannerImage : HTMLImageElement :=
  {| naturalWidth := 300; naturalHeight := 1 |}.
Definition allSkin (x y : Z) : Z * Z * Z := skinColour.
Definition allBlue (x y : Z) : Z * Z * Z := blueColour.

(** A 2 by 1000 ribbon, more than 300 times higher than wide. *)
Definition ribbonImage : HTMLImageElement :=
  {| naturalWidth := 2; naturalHeight := 1000 |}.

(** What the fallback finds in the strip, and the result built from it. *)
Definition stripBox : FaceBox := candidateBox (scaleOf stripImage) (0, 7, 0, 12).
Definition stripResult : FaceDetectionResult :=
  {| face := Some stripBox;
     eyeLineY := Some (fst (landmarks stripBox (Z2F 300)));
     chinY := Some (snd (landmarks stripBox (Z2F 300))) |}.

Definition idleState : HookState :=
  {| isDetecting := false; detectionResult := None; console := [] |}.

(** ** Vocabulary of the statements *)

(** Classes of binary64 values, in terms of their decoding [Prim2SF]. *)
Module Binary64.

(** Positive normal numbers whose exponent lies in [[lo, hi]]. *)
Definition pnormal (lo hi : Z) (f : float) : Prop :=
  exists m e, Prim2SF f = S754_finite false m e
              /\ digits2_pos m = 53%positive /\ lo <= e <= hi.

Definition pzero (f : float) : Prop := Prim2SF f = S754_zero false.
Definition pinfinity (f : float) : Prop := Prim2SF f = S754_infinity false.

(** *** Rounding to nearest *)

(** The position of a non-negative rational [P / Q] among the half-integers:
    twice the number of half units below it, plus one when it is not itself
    a half-integer. *)
Definition halfcode (P Q : Z) : Z :=
  2 * (2 * P / Q) + (if (2 * P) mod Q =? 0 then 0 else 1).

(** The same for a mantissa with its round and sticky bits. *)
Definition code (r : shr_record) : Z :=
  4 * shr_m r + (if shr_r r then 2 else 0) + (if shr_s r then 1 else 0).

(** The location of [P / Q] above its integer part. *)
Definition locate (P Q : Z) : location :=
  let r := P mod Q in
  if r =? 0 then loc_Exact else loc_Inexact (2 * r ?= Q).

(** Rounding to nearest, ties to even, from a code. *)
Definition rne (t : Z) : Z :=
  let m := t / 4 in
  let c := t mod 4 in
  if c <=? 1 then m
  else if c =? 2 then (if Z.even m then m else m + 1)
  else m + 1.

(** A rounded mantissa in [[2^52, 2^53]] with its exponent, as a float. *)
Definition normalized (m E : Z) : spec_float :=
  if m <? 2 ^ 53 then S754_finite false (Z.to_pos m) E
  else S754_finite false 4503599627370496 (E + 1).

(** One shift to the right halves the rational that a record locates. *)
Definition halve (t : Z) : Z := 2 * (t / 4) + (if t mod 4 =? 0 then 0 else 1).

(** Powers of two with an offset that keeps every exponent of interest
    non-negative: [pw e] stands for 2^e scaled by 2^1200. *)
Definition pw (e : Z) : Z := 2 ^ (e + 1200).

(** [rounds_to r N D s]: the float [r] is the rounding to nearest (ties to
    even) of the positive rational (N / D) * 2^s, which lies in the normal
    range.  The rational is normalised as (P / Q) * 2^E with
    2^52 <= P / Q < 2^53. *)
Definition rounds_to (r : spec_float) (N D s : Z) : Prop :=
  exists P Q E,
    0 < Q /\ 2 ^ 52 * Q <= P < 2 ^ 53 * Q /\ -1200 <= E <= 970 /\
    0 < N /\ 0 < D /\ -1200 <= s /\
    r = normalized (rne (halfcode P Q)) E /\
    P * D * pw E = N * Q * pw s.

(** The value of a positive finite number, scaled by 2^1200 like [pw]; 0 for
    every other float. *)
Definition value (f : float) : Z :=
  match Prim2SF f with
  | S754_finite false m e => Zpos m * pw e
  | _ => 0
  end.

End Binary64.

(** The decoding of a positive normal constant. *)
Ltac pnormal_constant :=
  lazymatch goal with
  | |- Binary64.pnormal _ _ ?c =>
      let v := eval vm_compute in (Prim2SF c) in
      lazymatch v with
      | S754_finite false ?m ?e =>
          exists m, e; split; [ vm_compute; reflexivity | split; [ reflexivity | lia ] ]
      end
  end.

(** An image as the DOM can hand it out: [naturalWidth] and [naturalHeight]
    are [unsigned long] attributes, and the image has at least one pixel in
    each direction. *)
Definition wellFormedImage (img : HTMLImageElement) : Prop :=
  1 <= naturalWidth img < 2 ^ 32 /\ 1 <= naturalHeight img < 2 ^ 32.

(** [m] is the least (greatest) element of a list of integers. *)
Definition IsMin (m : Z) (l : list Z) : Prop := In m l /\ Forall (fun v => m <= v) l.
Definition IsMax (m : Z) (l : list Z) : Prop := In m l /\ Forall (fun v => v <= m) l.

(** * Properties *)

(** ** Binary64 arithmetic on positive normal numbers *)

Module Binary64Facts.
Import Binary64.

Lemma digits2_bounds (m : positive) :
  2 ^ (Zpos (digits2_pos m) - 1) <= Zpos m < 2 ^ Zpos (digits2_pos m).
Proof.
  induction m as [m IH | m IH | ]; cbn [digits2_pos].
  - rewrite Pos2Z.inj_succ.
    replace (Z.succ (Zpos (digits2_pos m)) - 1) with (Z.succ (Zpos (digits2_pos m) - 1)) by lia.
    rewrite !Z.pow_succ_r by lia. lia.
  - rewrite Pos2Z.inj_succ.
    replace (Z.succ (Zpos (digits2_pos m)) - 1) with (Z.succ (Zpos (digits2_pos m) - 1)) by lia.
    rewrite !Z.pow_succ_r by lia. lia.
  - simpl. lia.
Qed.

Lemma digits2_unique (m : positive) (k : Z) :
  2 ^ (k - 1) <= Zpos m < 2 ^ k -> Zpos (digits2_pos m) = k.
Proof.
  intros [Hlo Hhi].
  pose proof (digits2_bounds m) as [Dlo Dhi].
  assert (0 < k).
  { destruct (Z_lt_le_dec 0 k); auto.
    assert (2 ^ k <= 2 ^ 0) by (apply Z.pow_le_mono_r; lia). simpl in *. lia. }
  set (d := Zpos (digits2_pos m)) in *.
  destruct (Z_lt_le_dec d k).
  - assert (2 ^ d <= 2 ^ (k - 1)) by (apply Z.pow_le_mono_r; lia). lia.
  - destruct (Z_lt_le_dec k d); [|lia].
    assert (2 ^ k <= 2 ^ (d - 1)) by (apply Z.pow_le_mono_r; lia). lia.
Qed.

Lemma iter_pos_iter {A} (f : A -> A) (p : positive) (a : A) :
  iter_pos f p a = Pos.iter f a p.
Proof.
  revert a. induction p as [p IH | p IH | ]; intros a; simpl.
  - rewrite !IH. rewrite !Pos.iter_swap. reflexivity.
  - rewrite !IH. reflexivity.
  - reflexivity.
Qed.

Lemma shr_1_m (r : shr_record) :
  0 <= shr_m r -> shr_m (shr_1 r) = shr_m r / 2.
Proof.
  destruct r as [m r s]; simpl. intros Hm.
  destruct m as [ | [p | p | ] | p ]; cbn [shr_m]; try lia.
  - reflexivity.
  - apply Z.div_unique with (r := 1); lia.
  - apply Z.div_unique with (r := 0); lia.
  - reflexivity.
Qed.

Lemma shr_iter_m (p : positive) (r : shr_record) :
  0 <= shr_m r -> shr_m (iter_pos shr_1 p r) = shr_m r / 2 ^ Zpos p.
Proof.
  intros Hm. rewrite iter_pos_iter.
  induction p as [ | p IH ] using Pos.peano_ind.
  - simpl. rewrite shr_1_m by assumption. reflexivity.
  - rewrite Pos.iter_succ, shr_1_m.
    + rewrite IH, Pos2Z.inj_succ, Z.pow_succ_r by lia.
      rewrite Z.div_div by lia. f_equal. lia.
    + rewrite IH. apply Z.div_pos; lia.
Qed.


Lemma fexp_normal (d : Z) : -1074 <= d - 53 -> fexp prec emax d = d - 53.
Proof. unfold fexp, SpecFloat.emin, prec, emax. lia. Qed.

Lemma pow2_split (a b : Z) : 0 <= a -> 0 <= b -> 2 ^ (a + b) = 2 ^ a * 2 ^ b.
Proof. intros. apply Z.pow_add_r; assumption. Qed.

(** Dropping the low bits of a mantissa of [d >= 53] digits leaves 53 digits. *)
Lemma drop_bits_digits (mz : positive) :
  let d := Zpos (digits2_pos mz) in
  53 <= d ->
  exists m', Zpos mz / 2 ^ (d - 53) = Zpos m' /\ digits2_pos m' = 53%positive.
Proof.
  intros d Hd.
  pose proof (digits2_bounds mz) as [Hlo Hhi]. fold d in Hlo, Hhi.
  assert (Hp : 0 < 2 ^ (d - 53)) by (apply Z.pow_pos_nonneg; lia).
  assert (Hlow : 2 ^ 52 <= Zpos mz / 2 ^ (d - 53)).
  { apply Z.div_le_lower_bound; [assumption|].
    rewrite <- pow2_split by lia. replace (d - 53 + 52) with (d - 1) by lia. assumption. }
  assert (Hup : Zpos mz / 2 ^ (d - 53) < 2 ^ 53).
  { apply Z.div_lt_upper_bound; [assumption|].
    rewrite <- pow2_split by lia. replace (d - 53 + 53) with d by lia. assumption. }
  destruct (Zpos mz / 2 ^ (d - 53)) as [ | m' | m' ] eqn:E; [ lia | | lia ].
  exists m'. split; [reflexivity|].
  assert (Zpos (digits2_pos m') = 53) by (apply digits2_unique; lia).
  congruence.
Qed.

Lemma shr_fexp_normal (mz : positive) (ez : Z) (lz : location) :
  let d := Zpos (digits2_pos mz) in
  53 <= d -> -1074 <= d + ez - 53 ->
  exists m' r s,
    shr_fexp prec emax (Zpos mz) ez lz = (Build_shr_record (Zpos m') r s, d + ez - 53)
    /\ digits2_pos m' = 53%positive
    /\ Zpos m' = Zpos mz / 2 ^ (d - 53).
Proof.
  intros d Hd He.
  destruct (drop_bits_digits mz Hd) as (m' & Hm' & Hdig). fold d in Hm'.
  unfold shr_fexp, Zdigits2. fold d.
  rewrite fexp_normal by lia.
  replace (d + ez - 53 - ez) with (d - 53) by lia.
  unfold shr.
  destruct (d - 53) as [ | p | p ] eqn:Ep; [ | | lia ].
  - replace (d + ez - 53) with ez by lia.
    rewrite Z.pow_0_r, Z.div_1_r in Hm'. inversion Hm'; subst m'.
    destruct lz as [ | [ | | ] ]; simpl; rewrite Z.div_1_r; eauto 10.
  - replace (d + ez - 53) with (ez + Zpos p) by lia.
    destruct (iter_pos shr_1 p (shr_record_of_loc (Zpos mz) lz)) as [m1 r1 s1] eqn:Ei.
    assert (Hm1 : m1 = Zpos mz / 2 ^ Zpos p).
    { change m1 with (shr_m (Build_shr_record m1 r1 s1)). rewrite <- Ei.
      rewrite shr_iter_m; destruct lz as [ | [ | | ] ]; simpl; try reflexivity; lia. }
    rewrite Hm' in Hm1. subst m1. eauto 10.
Qed.

Lemma round_nearest_even_pos (m : positive) (l : location) :
  digits2_pos m = 53%positive ->
  exists m2, round_nearest_even (Zpos m) l = Zpos m2
             /\ 53 <= Zpos (digits2_pos m2) <= 54.
Proof.
  intros Hd.
  pose proof (digits2_bounds m) as [Hlo Hhi]. rewrite Hd in Hlo, Hhi.
  assert (Hcase : round_nearest_even (Zpos m) l = Zpos m
                  \/ round_nearest_even (Zpos m) l = Zpos m + 1).
  { destruct l as [ | [ | | ] ]; cbn [round_nearest_even]; auto.
    destruct (Z.even (Zpos m)); auto. }
  destruct Hcase as [-> | ->].
  - exists m. rewrite Hd. split; [reflexivity | lia].
  - exists (m + 1)%positive. split; [lia|].
    destruct (Z.eq_dec (Zpos m + 1) (2 ^ 53)) as [E | E].
    + assert (Zpos (digits2_pos (m + 1)) = 54) by (apply digits2_unique; simpl Z.sub; lia).
      lia.
    + assert (Zpos (digits2_pos (m + 1)) = 53) by (apply digits2_unique; simpl Z.sub; lia).
      lia.
Qed.

(** Rounding a mantissa of at least 53 digits whose value lies in the normal
    range: the result is a normal number of the same sign. *)
Lemma binary_round_aux_normal (sx : bool) (mz : positive) (ez : Z) (lz : location) :
  let d := Zpos (digits2_pos mz) in
  53 <= d -> -1074 <= d + ez - 53 -> d + ez - 52 <= 971 ->
  exists m e,
    binary_round_aux prec emax sx (Zpos mz) ez lz = S754_finite sx m e
    /\ digits2_pos m = 53%positive
    /\ d + ez - 53 <= e <= d + ez - 52.
Proof.
  intros d Hd Hlo Hhi.
  unfold binary_round_aux.
  destruct (shr_fexp_normal mz ez lz Hd Hlo) as (m1 & r1 & s1 & -> & Hd1 & _).
  fold d. cbn [shr_m].
  destruct (round_nearest_even_pos m1 (loc_of_shr_record (Build_shr_record (Zpos m1) r1 s1)) Hd1)
    as (m2 & -> & Hd2).
  destruct (shr_fexp_normal m2 (d + ez - 53) loc_Exact) as (m3 & r3 & s3 & -> & Hd3 & _);
    [ lia | lia | ].
  cbn [shr_m].
  replace (Zpos (digits2_pos m2) + (d + ez - 53) - 53 <=? emax - prec) with true
    by (symmetry; apply Z.leb_le; unfold emax, prec; lia).
  exists m3, (Zpos (digits2_pos m2) + (d + ez - 53) - 53).
  repeat split; [assumption | lia | lia].
Qed.


Lemma pnormal_weaken (lo hi lo' hi' : Z) (f : float) :
  pnormal lo hi f -> lo' <= lo -> hi <= hi' -> pnormal lo' hi' f.
Proof.
  intros (m & e & H & Hd & He) ? ?. exists m, e. repeat split; auto; lia.
Qed.

Lemma div_pnormal (lo1 hi1 lo2 hi2 : Z) (a b : float) :
  pnormal lo1 hi1 a -> pnormal lo2 hi2 b ->
  -1074 <= lo1 - hi2 - 53 -> hi1 - lo2 - 51 <= 971 ->
  pnormal (lo1 - hi2 - 53) (hi1 - lo2 - 51) (a / b).
Proof.
  intros (m1 & e1 & Ha & Hd1 & He1) (m2 & e2 & Hb & Hd2 & He2) Hlo Hhi.
  unfold pnormal. rewrite div_spec, Ha, Hb.
  unfold SF64div, SFdiv, SFdiv_core_binary, Zdigits2. rewrite Hd1, Hd2.
  rewrite fexp_normal by lia.
  replace (Z.min (53 + e1 - (53 + e2) - 53) (e1 - e2)) with (e1 - e2 - 53) by lia.
  replace (e1 - e2 - (e1 - e2 - 53)) with 53 by lia.
  rewrite Z.shiftl_mul_pow2 by lia.
  pose proof (digits2_bounds m1) as B1. rewrite Hd1 in B1.
  pose proof (digits2_bounds m2) as B2. rewrite Hd2 in B2.
  change (2 ^ (53 - 1)) with 4503599627370496 in B1, B2.
  change (2 ^ 53) with 9007199254740992 in *.
  pose proof (Z_div_mod (Zpos m1 * 9007199254740992) (Zpos m2) eq_refl) as Hdm.
  destruct (Z.div_eucl (Zpos m1 * 9007199254740992) (Zpos m2)) as [q r].
  destruct Hdm as [Hq Hr].
  assert (Hq1 : 2 ^ 52 <= q) by (change (2 ^ 52) with 4503599627370496; nia).
  assert (Hq2 : q < 2 ^ 54) by (change (2 ^ 54) with 18014398509481984; nia).
  destruct q as [ | q | q ]; [ simpl in Hq1; lia | | lia ].
  assert (Hdq : 53 <= Zpos (digits2_pos q) <= 54).
  { destruct (Z_lt_le_dec (Zpos q) (2 ^ 53)).
    - assert (Zpos (digits2_pos q) = 53) by (apply digits2_unique; simpl Z.sub; lia). lia.
    - assert (Zpos (digits2_pos q) = 54) by (apply digits2_unique; simpl Z.sub; lia). lia. }
  destruct (binary_round_aux_normal (xorb false false) q (e1 - e2 - 53)
              (new_location (Zpos m2) r)) as (m & e & -> & Hd & He); try lia.
  exists m, e. simpl xorb. repeat split; auto; lia.
Qed.

Lemma mul_pnormal (lo1 hi1 lo2 hi2 : Z) (a b : float) :
  pnormal lo1 hi1 a -> pnormal lo2 hi2 b ->
  -1074 <= lo1 + lo2 + 52 -> hi1 + hi2 + 54 <= 971 ->
  pnormal (lo1 + lo2 + 52) (hi1 + hi2 + 54) (a * b).
Proof.
  intros (m1 & e1 & Ha & Hd1 & He1) (m2 & e2 & Hb & Hd2 & He2) Hlo Hhi.
  unfold pnormal. rewrite mul_spec, Ha, Hb.
  unfold SF64mul, SFmul.
  pose proof (digits2_bounds m1) as B1. rewrite Hd1 in B1.
  pose proof (digits2_bounds m2) as B2. rewrite Hd2 in B2.
  change (2 ^ (53 - 1)) with 4503599627370496 in B1, B2.
  change (2 ^ 53) with 9007199254740992 in *.
  assert (Hq1 : 2 ^ 104 <= Zpos (m1 * m2))
    by (rewrite Pos2Z.inj_mul; change (2 ^ 104) with (4503599627370496 * 4503599627370496); nia).
  assert (Hq2 : Zpos (m1 * m2) < 2 ^ 106)
    by (rewrite Pos2Z.inj_mul; change (2 ^ 106) with (9007199254740992 * 9007199254740992); nia).
  assert (Hdq : 105 <= Zpos (digits2_pos (m1 * m2)) <= 106).
  { destruct (Z_lt_le_dec (Zpos (m1 * m2)) (2 ^ 105)).
    - assert (Zpos (digits2_pos (m1 * m2)) = 105) by (apply digits2_unique; simpl Z.sub; lia). lia.
    - assert (Zpos (digits2_pos (m1 * m2)) = 106) by (apply digits2_unique; simpl Z.sub; lia). lia. }
  destruct (binary_round_aux_normal (xorb false false) (m1 * m2) (e1 + e2) loc_Exact)
    as (m & e & -> & Hd & He); try lia.
  exists m, e. simpl xorb. repeat split; auto; lia.
Qed.


Lemma iter_xO_pow2 (p k : positive) : Zpos (Pos.iter xO p k) = Zpos p * 2 ^ Zpos k.
Proof.
  induction k as [ | k IH ] using Pos.peano_ind.
  - simpl. lia.
  - rewrite Pos.iter_succ, Pos2Z.inj_xO, IH, Pos2Z.inj_succ, Z.pow_succ_r by lia. lia.
Qed.

Lemma of_uint63_pnormal (n : Z) :
  1 <= n < 2 ^ 63 -> pnormal (-52) 11 (of_uint63 (Uint63.of_Z n)).
Proof.
  intros Hn. unfold pnormal.
  rewrite of_uint63_spec, Uint63.of_Z_spec.
  rewrite Z.mod_small by (change Uint63.wB with (2 ^ 63); lia).
  destruct n as [ | p | p ]; [ lia | | lia ].
  unfold binary_normalize, binary_round.
  pose proof (digits2_bounds p) as [Blo Bhi].
  set (d := Zpos (digits2_pos p)) in *.
  assert (Hd : 1 <= d <= 63).
  { split; [ unfold d; lia | ].
    destruct (Z_lt_le_dec 63 d); [ | lia ].
    assert (2 ^ 63 <= 2 ^ (d - 1)) by (apply Z.pow_le_mono_r; lia). lia. }
  rewrite Z.add_0_r, fexp_normal by lia.
  unfold shl_align. rewrite Z.sub_0_r.
  destruct (d - 53) as [ | k | k ] eqn:Ek.
  - destruct (binary_round_aux_normal false p 0 loc_Exact) as (m & e & -> & Hm & He);
      fold d; try lia.
    fold d in He. exists m, e. repeat split; auto; lia.
  - destruct (binary_round_aux_normal false p 0 loc_Exact) as (m & e & -> & Hm & He);
      fold d; try lia.
    fold d in He. exists m, e. repeat split; auto; lia.
  - assert (Hdk : Zpos (digits2_pos (Pos.iter xO p k)) = 53).
    { apply digits2_unique. rewrite iter_xO_pow2.
      assert (Hk : Zpos k = 53 - d) by lia.
      assert (E1 : 2 ^ (53 - 1) = 2 ^ (d - 1) * 2 ^ Zpos k)
        by (rewrite <- pow2_split by lia; f_equal; lia).
      assert (E2 : 2 ^ 53 = 2 ^ d * 2 ^ Zpos k)
        by (rewrite <- pow2_split by lia; f_equal; lia).
      rewrite E1, E2.
      assert (0 < 2 ^ Zpos k) by (apply Z.pow_pos_nonneg; lia).
      nia. }
    destruct (binary_round_aux_normal false (Pos.iter xO p k) (Z.neg k) loc_Exact)
      as (m & e & -> & Hm & He); rewrite ?Hdk; try lia.
    rewrite Hdk in He. exists m, e. repeat split; auto; lia.
Qed.

(** *** Comparisons *)

Lemma Prim2SF_zero : Prim2SF 0%float = S754_zero false.
Proof. reflexivity. Qed.

Lemma pnormal_gt_zero (lo hi : Z) (f : float) :
  pnormal lo hi f -> (0 <? f)%float = true.
Proof.
  intros (m & e & H & _). rewrite ltb_spec, Prim2SF_zero, H. reflexivity.
Qed.

Lemma pnormal_ge_zero (lo hi : Z) (f : float) :
  pnormal lo hi f -> (0 <=? f)%float = true.
Proof.
  intros (m & e & H & _). rewrite leb_spec, Prim2SF_zero, H. reflexivity.
Qed.

Lemma pzero_ge_zero (f : float) : pzero f -> (0 <=? f)%float = true.
Proof. intros H. rewrite leb_spec, Prim2SF_zero, H. reflexivity. Qed.

Lemma pzero_div_pnormal (lo hi : Z) (a b : float) :
  pzero a -> pnormal lo hi b -> pzero (a / b).
Proof.
  intros Ha (m & e & Hb & _). unfold pzero. rewrite div_spec, Ha, Hb. reflexivity.
Qed.

Lemma pnormal_div_pzero (lo hi : Z) (a b : float) :
  pnormal lo hi a -> pzero b -> pinfinity (a / b).
Proof.
  intros (m & e & Ha & _) Hb. unfold pinfinity. rewrite div_spec, Ha, Hb. reflexivity.
Qed.

Lemma pnormal_not_nan (lo hi : Z) (f : float) : pnormal lo hi f -> is_nan f = false.
Proof.
  intros (m & e & H & _). unfold is_nan. rewrite eqb_spec, H.
  unfold SFeqb, SFcompare. rewrite Z.compare_refl, Pos.compare_cont_refl. reflexivity.
Qed.

End Binary64Facts.

(** ** Rounding to nearest is monotone *)

Module Rounding.
Import Binary64 Binary64Facts.

Lemma code_locate (P Q : Z) :
  0 <= P -> 0 < Q -> code (shr_record_of_loc (P / Q) (locate P Q)) = halfcode P Q.
Proof.
  intros HP HQ. unfold locate, halfcode.
  pose proof (Z.div_mod P Q ltac:(lia)) as Hdm.
  pose proof (Z.mod_pos_bound P Q HQ) as Hr.
  set (q := P / Q) in *. set (r := P mod Q) in *.
  destruct (Z.eqb_spec r 0) as [E0 | E0].
  - assert (D : 2 * P / Q = 2 * q) by (symmetry; apply Z.div_unique with (r := 0); lia).
    assert (M : (2 * P) mod Q = 0) by (symmetry; apply Z.mod_unique with (q := 2 * q); lia).
    rewrite D, M. change (0 =? 0) with true.
    unfold code. cbn [shr_record_of_loc shr_m shr_r shr_s]. lia.
  - destruct (Z.compare_spec (2 * r) Q) as [E | E | E].
    + assert (D : 2 * P / Q = 2 * q + 1)
        by (symmetry; apply Z.div_unique with (r := 0); lia).
      assert (M : (2 * P) mod Q = 0)
        by (symmetry; apply Z.mod_unique with (q := 2 * q + 1); lia).
      rewrite D, M. change (0 =? 0) with true.
    unfold code. cbn [shr_record_of_loc shr_m shr_r shr_s]. lia.
    + assert (D : 2 * P / Q = 2 * q)
        by (symmetry; apply Z.div_unique with (r := 2 * r); lia).
      assert (M : (2 * P) mod Q = 2 * r)
        by (symmetry; apply Z.mod_unique with (q := 2 * q); lia).
      rewrite D, M. destruct (Z.eqb_spec (2 * r) 0); [ lia | ].
      unfold code. cbn [shr_record_of_loc shr_m shr_r shr_s]. lia.
    + assert (D : 2 * P / Q = 2 * q + 1)
        by (symmetry; apply Z.div_unique with (r := 2 * r - Q); lia).
      assert (M : (2 * P) mod Q = 2 * r - Q)
        by (symmetry; apply Z.mod_unique with (q := 2 * q + 1); lia).
      rewrite D, M. destruct (Z.eqb_spec (2 * r - Q) 0); [ lia | ].
      unfold code. cbn [shr_record_of_loc shr_m shr_r shr_s]. lia.
Qed.

Lemma code_div_mod (r : shr_record) :
  0 <= shr_m r ->
  code r / 4 = shr_m r /\
  code r mod 4 = (if shr_r r then 2 else 0) + (if shr_s r then 1 else 0).
Proof.
  intros Hm. unfold code.
  set (c := (if shr_r r then 2 else 0) + (if shr_s r then 1 else 0)).
  assert (0 <= c < 4) by (unfold c; destruct (shr_r r), (shr_s r); lia).
  split.
  - symmetry. apply Z.div_unique with (r := c); lia.
  - symmetry. apply Z.mod_unique with (q := shr_m r); lia.
Qed.

Lemma code_shr_1 (r : shr_record) : 0 <= shr_m r -> code (shr_1 r) = halve (code r).
Proof.
  intros Hm. unfold halve.
  destruct (code_div_mod r Hm) as [-> ->].
  destruct r as [m rb sb]. cbn [shr_m shr_r shr_s] in *.
  destruct m as [ | [ p | p | ] | p ]; try lia;
    destruct rb, sb; unfold code; cbn [shr_1 shr_m shr_r shr_s orb];
    simpl Z.eqb; cbv iota; lia.
Qed.

Lemma halve_halfcode (P Q : Z) :
  0 <= P -> 0 < Q -> halve (halfcode P Q) = halfcode P (2 * Q).
Proof.
  intros HP HQ. unfold halve, halfcode.
  pose proof (Z.div_mod (2 * P) Q ltac:(lia)) as Hdm.
  pose proof (Z.mod_pos_bound (2 * P) Q HQ) as Hr.
  set (a := 2 * P / Q) in *. set (r := (2 * P) mod Q) in *.
  pose proof (Z.div_mod a 2 ltac:(lia)) as Hdm2.
  pose proof (Z.mod_pos_bound a 2 ltac:(lia)) as Hr2.
  set (q := a / 2) in *. set (b := a mod 2) in *.
  assert (D : 2 * P / (2 * Q) = q)
    by (symmetry; apply Z.div_unique with (r := b * Q + r); nia).
  assert (M : (2 * P) mod (2 * Q) = b * Q + r)
    by (symmetry; apply Z.mod_unique with (q := q); nia).
  rewrite D, M.
  set (s := if r =? 0 then 0 else 1).
  assert (Hs : 0 <= s <= 1) by (unfold s; destruct (r =? 0); lia).
  assert (D4 : (2 * a + s) / 4 = q)
    by (symmetry; apply Z.div_unique with (r := 2 * b + s); lia).
  assert (M4 : (2 * a + s) mod 4 = 2 * b + s)
    by (symmetry; apply Z.mod_unique with (q := q); lia).
  rewrite D4, M4.
  unfold s. destruct (Z.eqb_spec r 0) as [E | E].
  - destruct (Z.eqb_spec (2 * b + 0) 0), (Z.eqb_spec (b * Q + r) 0); nia.
  - destruct (Z.eqb_spec (2 * b + 1) 0), (Z.eqb_spec (b * Q + r) 0); nia.
Qed.

Lemma shr_1_nonneg (r : shr_record) : 0 <= shr_m r -> 0 <= shr_m (shr_1 r).
Proof.
  intros H. rewrite shr_1_m by assumption. apply Z.div_pos; lia.
Qed.

Lemma code_shr_iter (n : positive) (r : shr_record) (P Q : Z) :
  0 <= P -> 0 < Q -> 0 <= shr_m r -> code r = halfcode P Q ->
  0 <= shr_m (iter_pos shr_1 n r) /\
  code (iter_pos shr_1 n r) = halfcode P (Q * 2 ^ Zpos n).
Proof.
  intros HP HQ Hm Hc. rewrite iter_pos_iter.
  induction n as [ | n [IH1 IH2] ] using Pos.peano_ind.
  - simpl Pos.iter. split; [ apply shr_1_nonneg; assumption | ].
    rewrite code_shr_1, Hc, halve_halfcode by assumption. f_equal. lia.
  - rewrite Pos.iter_succ. split; [ apply shr_1_nonneg; assumption | ].
    rewrite code_shr_1, IH2, halve_halfcode by (try assumption; nia).
    f_equal. rewrite Pos2Z.inj_succ, Z.pow_succ_r by lia. lia.
Qed.

Lemma rne_code (r : shr_record) :
  0 <= shr_m r ->
  round_nearest_even (shr_m r) (loc_of_shr_record r) = rne (code r).
Proof.
  intros Hm. unfold rne. destruct (code_div_mod r Hm) as [-> ->].
  destruct r as [m [ | ] [ | ]]; reflexivity.
Qed.

Lemma rne_bounds (t : Z) : t / 4 <= rne t <= t / 4 + 1.
Proof.
  unfold rne. destruct (t mod 4 <=? 1); [ lia | ].
  destruct (t mod 4 =? 2); [ destruct (Z.even (t / 4)) | ]; lia.
Qed.

Lemma rne_mono (t t' : Z) : t <= t' -> rne t <= rne t'.
Proof.
  intros Ht.
  pose proof (Z.div_mod t 4 ltac:(lia)) as D. pose proof (Z.mod_pos_bound t 4 ltac:(lia)) as B.
  pose proof (Z.div_mod t' 4 ltac:(lia)) as D'. pose proof (Z.mod_pos_bound t' 4 ltac:(lia)) as B'.
  assert (Hq : t / 4 <= t' / 4) by (apply Z.div_le_mono; lia).
  destruct (Z.eq_dec (t / 4) (t' / 4)) as [E | E].
  - unfold rne. rewrite <- E.
    assert (t mod 4 <= t' mod 4) by lia.
    destruct (Z.leb_spec (t mod 4) 1), (Z.leb_spec (t' mod 4) 1); try lia;
      destruct (Z.eqb_spec (t mod 4) 2), (Z.eqb_spec (t' mod 4) 2); try lia;
      destruct (Z.even (t / 4)); lia.
  - pose proof (rne_bounds t). pose proof (rne_bounds t'). lia.
Qed.

Lemma halfcode_mono (P Q P' Q' : Z) :
  0 <= P -> 0 < Q -> 0 <= P' -> 0 < Q' ->
  P * Q' <= P' * Q -> halfcode P Q <= halfcode P' Q'.
Proof.
  intros HP HQ HP' HQ' Hle. unfold halfcode.
  pose proof (Z.div_mod (2 * P) Q ltac:(lia)) as D.
  pose proof (Z.mod_pos_bound (2 * P) Q HQ) as B.
  pose proof (Z.div_mod (2 * P') Q' ltac:(lia)) as D'.
  pose proof (Z.mod_pos_bound (2 * P') Q' HQ') as B'.
  set (a := 2 * P / Q) in *. set (r := (2 * P) mod Q) in *.
  set (a' := 2 * P' / Q') in *. set (r' := (2 * P') mod Q') in *.
  assert (Ha : a <= a').
  { destruct (Z_lt_le_dec a' a) as [Hlt | ]; [ exfalso | assumption ].
    assert (a' + 1 <= a) by lia.
    assert (2 * P' * Q < (a' + 1) * Q' * Q) by nia.
    assert ((a' + 1) * Q' * Q <= a * Q * Q') by nia.
    nia. }
  destruct (Z.eq_dec a a') as [E | E].
  - destruct (Z.eqb_spec r 0), (Z.eqb_spec r' 0); try lia.
    exfalso. nia.
  - destruct (r =? 0), (r' =? 0); lia.
Qed.

Lemma halfcode_bounds (P Q : Z) :
  0 <= P -> 0 < Q -> halfcode P Q / 4 = P / Q.
Proof.
  intros HP HQ. rewrite <- code_locate by assumption.
  assert (Hm : 0 <= shr_m (shr_record_of_loc (P / Q) (locate P Q))).
  { destruct (locate P Q) as [ | [ | | ] ]; cbn [shr_record_of_loc shr_m];
      apply Z.div_pos; lia. }
  rewrite (proj1 (code_div_mod _ Hm)).
  destruct (locate P Q) as [ | [ | | ] ]; reflexivity.
Qed.

Lemma shr_fexp_char (P Q : Z) (p0 : positive) (e : Z) :
  0 <= P -> 0 < Q -> P / Q = Zpos p0 ->
  let d := Zpos (digits2_pos p0) in
  53 <= d -> -1074 <= d + e - 53 ->
  exists r,
    shr_fexp prec emax (Zpos p0) e (locate P Q) = (r, d + e - 53)
    /\ 0 <= shr_m r
    /\ code r = halfcode P (Q * 2 ^ (d - 53)).
Proof.
  intros HP HQ Hp0 d Hd He.
  assert (Hc0 : code (shr_record_of_loc (Zpos p0) (locate P Q)) = halfcode P Q)
    by (rewrite <- Hp0; apply code_locate; assumption).
  assert (Hm0 : 0 <= shr_m (shr_record_of_loc (Zpos p0) (locate P Q)))
    by (destruct (locate P Q) as [ | [ | | ] ]; cbn [shr_record_of_loc shr_m]; lia).
  unfold shr_fexp, Zdigits2. fold d.
  rewrite fexp_normal by lia.
  replace (d + e - 53 - e) with (d - 53) by lia.
  unfold shr.
  destruct (d - 53) as [ | n | n ] eqn:En; [ | | lia ].
  - eexists. split; [ f_equal; lia | ]. split; [ assumption | ].
    rewrite Hc0. f_equal. simpl. lia.
  - destruct (code_shr_iter n _ P Q HP HQ Hm0 Hc0) as [H1 H2].
    eexists. split; [ f_equal; lia | ]. split; assumption.
Qed.

Lemma binary_round_aux_char (P Q : Z) (p0 : positive) (e : Z) :
  0 <= P -> 0 < Q -> P / Q = Zpos p0 ->
  let d := Zpos (digits2_pos p0) in
  53 <= d -> -1074 <= d + e - 53 -> d + e - 52 <= 971 ->
  binary_round_aux prec emax false (Zpos p0) e (locate P Q)
  = normalized (rne (halfcode P (Q * 2 ^ (d - 53)))) (d + e - 53)
  /\ 2 ^ 52 <= P / (Q * 2 ^ (d - 53)) < 2 ^ 53.
Proof.
  intros HP HQ Hp0 d Hd Hlo Hhi.
  destruct (shr_fexp_char P Q p0 e HP HQ Hp0 Hd Hlo) as (r1 & Hs1 & Hm1 & Hc1).
  fold d in Hs1, Hc1.
  assert (Hpow : 0 < 2 ^ (d - 53)) by (apply Z.pow_pos_nonneg; lia).
  assert (Hq : P / (Q * 2 ^ (d - 53)) = Zpos p0 / 2 ^ (d - 53))
    by (rewrite <- Z.div_div by lia; rewrite Hp0; reflexivity).
  destruct (drop_bits_digits p0 Hd) as (m1 & Hm1' & Hd1). fold d in Hm1'.
  pose proof (digits2_bounds m1) as Bm1. rewrite Hd1 in Bm1.
  change (2 ^ (53 - 1)) with (2 ^ 52) in Bm1.
  assert (Hr1 : shr_m r1 = Zpos m1).
  { rewrite <- (proj1 (code_div_mod r1 Hm1)), Hc1, halfcode_bounds by nia.
    rewrite Hq. assumption. }
  split; [ | rewrite Hq, Hm1'; lia ].
  unfold binary_round_aux. rewrite Hs1.
  rewrite rne_code by assumption. rewrite Hc1.
  set (t := halfcode P (Q * 2 ^ (d - 53))) in *.
  pose proof (rne_bounds t) as Bt.
  assert (Ht4 : t / 4 = Zpos m1)
    by (rewrite <- Hr1; rewrite <- Hc1; apply code_div_mod; assumption).
  rewrite Ht4 in Bt.
  set (E := d + e - 53) in *.
  unfold normalized.
  destruct (Z.ltb_spec (rne t) (2 ^ 53)) as [Hlt | Hge].
  - destruct (rne t) as [ | p2 | p2 ] eqn:E2; [ lia | | lia ].
    assert (Hd2 : Zpos (digits2_pos p2) = 53) by (apply digits2_unique; simpl Z.sub; lia).
    unfold shr_fexp, Zdigits2. rewrite Hd2, fexp_normal by lia.
    replace (53 + E - 53 - E) with 0 by lia. cbn [shr shr_record_of_loc shr_m].
    replace (E <=? emax - prec) with true
      by (symmetry; apply Z.leb_le; unfold emax, prec; lia).
    reflexivity.
  - assert (E2 : rne t = 2 ^ 53) by lia. rewrite E2.
    change (2 ^ 53) with (Zpos 9007199254740992).
    unfold shr_fexp, Zdigits2.
    change (Zpos (digits2_pos 9007199254740992)) with 54.
    rewrite fexp_normal by lia.
    replace (54 + E - 53 - E) with 1 by lia.
    cbn [shr shr_record_of_loc iter_pos shr_1 shr_m orb].
    replace (E + 1 <=? emax - prec) with true
      by (symmetry; apply Z.leb_le; unfold emax, prec; lia).
    reflexivity.
Qed.

Lemma pw_pos (e : Z) : -1200 <= e -> 0 < pw e.
Proof. intros. unfold pw. apply Z.pow_pos_nonneg; lia. Qed.

Lemma pw_add (e k : Z) : -1200 <= e -> 0 <= k -> pw (e + k) = pw e * 2 ^ k.
Proof.
  intros. unfold pw. rewrite <- Z.pow_add_r by lia. f_equal. lia.
Qed.

Lemma pw_lt (e e' : Z) : -1200 <= e -> e < e' -> 2 * pw e <= pw e'.
Proof.
  intros He Hlt. replace e' with (e + (e' - e)) by lia.
  rewrite pw_add by lia.
  assert (2 ^ 1 <= 2 ^ (e' - e)) by (apply Z.pow_le_mono_r; lia).
  pose proof (pw_pos e He). change (2 ^ 1) with 2 in *. nia.
Qed.

Lemma rne_normal_range (P Q : Z) :
  0 < Q -> 2 ^ 52 * Q <= P < 2 ^ 53 * Q ->
  2 ^ 52 <= rne (halfcode P Q) <= 2 ^ 53.
Proof.
  intros HQ [Hlo Hhi].
  pose proof (rne_bounds (halfcode P Q)) as B.
  assert (HP : 0 <= P) by (change (2 ^ 52) with 4503599627370496 in *; nia).
  rewrite halfcode_bounds in B by assumption.
  assert (2 ^ 52 <= P / Q) by (apply Z.div_le_lower_bound; lia).
  assert (P / Q < 2 ^ 53) by (apply Z.div_lt_upper_bound; lia).
  lia.
Qed.

Lemma normalized_le (m E m' E' : Z) :
  2 ^ 52 <= m <= 2 ^ 53 -> 2 ^ 52 <= m' <= 2 ^ 53 ->
  E < E' \/ (E = E' /\ m <= m') ->
  SFleb (normalized m E) (normalized m' E') = true.
Proof.
  intros Hm Hm' Hle. unfold normalized, SFleb, SFcompare.
  change (2 ^ 52) with 4503599627370496 in *.
  change (2 ^ 53) with 9007199254740992 in *.
  assert (Hcmp : forall a b : Z, 0 < a -> a <= b ->
            match Pos.compare_cont Eq (Z.to_pos a) (Z.to_pos b) with
            | Gt => false | _ => true end = true).
  { intros a b Ha Hab. change (Pos.compare_cont Eq (Z.to_pos a) (Z.to_pos b))
      with (Pos.compare (Z.to_pos a) (Z.to_pos b)).
    destruct (Pos.compare_spec (Z.to_pos a) (Z.to_pos b)); try reflexivity. lia. }
  destruct (Z.ltb_spec m 9007199254740992), (Z.ltb_spec m' 9007199254740992).
  - destruct (Z.compare_spec E E') as [He | He | He];
      [ | reflexivity | exfalso; lia ].
    apply Hcmp; lia.
  - destruct (Z.compare_spec E (E' + 1)) as [He | He | He];
      [ exfalso; lia | reflexivity | exfalso; lia ].
  - destruct (Z.compare_spec (E + 1) E') as [He | He | He];
      [ | reflexivity | exfalso; lia ].
    apply (Hcmp 4503599627370496 m'); lia.
  - destruct (Z.compare_spec (E + 1) (E' + 1)) as [He | He | He];
      [ reflexivity | reflexivity | exfalso; lia ].
Qed.

(** Rounding is monotone. *)
Theorem rounds_to_le (r r' : spec_float) (N D s N' D' s' : Z) :
  rounds_to r N D s -> rounds_to r' N' D' s' ->
  N * D' * pw s <= N' * D * pw s' ->
  SFleb r r' = true.
Proof.
  intros (P & Q & E & HQ & HP & HE & HN & HD & Hs & -> & Heq)
         (P' & Q' & E' & HQ' & HP' & HE' & HN' & HD' & Hs' & -> & Heq') Hle.
  pose proof (pw_pos E ltac:(lia)) as A. pose proof (pw_pos E' ltac:(lia)) as A'.
  pose proof (pw_pos s Hs) as B. pose proof (pw_pos s' Hs') as B'.
  assert (Hval : P * Q' * pw E <= P' * Q * pw E').
  { apply Z.mul_le_mono_pos_r with (p := D * D'); [ nia | ].
    replace (P * Q' * pw E * (D * D')) with ((P * D * pw E) * (Q' * D')) by ring.
    replace (P' * Q * pw E' * (D * D')) with ((P' * D' * pw E') * (Q * D)) by ring.
    rewrite Heq, Heq'.
    replace (N * Q * pw s * (Q' * D')) with ((N * D' * pw s) * (Q * Q')) by ring.
    replace (N' * Q' * pw s' * (Q * D)) with ((N' * D * pw s') * (Q * Q')) by ring.
    apply Z.mul_le_mono_nonneg_r; [ nia | assumption ]. }
  apply normalized_le; try (apply rne_normal_range; assumption).
  change (2 ^ 52) with 4503599627370496 in *.
  change (2 ^ 53) with 9007199254740992 in *.
  destruct (Z.compare_spec E E') as [Eq | Lt | Gt].
  - right. split; [ assumption | ]. subst E'.
    apply rne_mono, halfcode_mono; nia.
  - left. assumption.
  - exfalso. pose proof (pw_lt E' E ltac:(lia) Gt) as Hp.
    assert (P' * Q * pw E' < 9007199254740992 * Q' * Q * pw E').
    { apply Z.mul_lt_mono_pos_r; [ assumption | nia ]. }
    assert (4503599627370496 * Q * Q' * pw E <= P * Q' * pw E).
    { apply Z.mul_le_mono_nonneg_r; [ lia | nia ]. }
    assert (9007199254740992 * Q' * Q * pw E' <= 4503599627370496 * Q * Q' * pw E).
    { replace (9007199254740992 * Q' * Q * pw E')
        with (4503599627370496 * Q * Q' * (2 * pw E')) by ring.
      apply Z.mul_le_mono_nonneg_l; [ nia | assumption ]. }
    lia.
Qed.

Lemma binary_round_aux_rounds_to (P Q : Z) (p0 : positive) (e : Z) :
  0 < P -> 0 < Q -> P / Q = Zpos p0 ->
  let d := Zpos (digits2_pos p0) in
  53 <= d -> -1074 <= d + e - 53 -> d + e - 52 <= 971 -> -1200 <= e ->
  rounds_to (binary_round_aux prec emax false (Zpos p0) e (locate P Q)) P Q e.
Proof.
  intros HP HQ Hp0 d Hd Hlo Hhi He.
  destruct (binary_round_aux_char P Q p0 e ltac:(lia) HQ Hp0 Hd Hlo Hhi) as [-> Hq].
  fold d in Hq.
  assert (Hpow : 0 < 2 ^ (d - 53)) by (apply Z.pow_pos_nonneg; lia).
  set (Q' := Q * 2 ^ (d - 53)) in *.
  assert (HQ' : 0 < Q') by (unfold Q'; nia).
  pose proof (Z.mul_div_le P Q' HQ').
  pose proof (Z.mul_succ_div_gt P Q' HQ').
  exists P, Q', (d + e - 53).
  repeat apply conj; try lia; try nia.
  - reflexivity.
  - replace (d + e - 53) with (e + (d - 53)) by lia.
    rewrite pw_add by lia. unfold Q'. ring.
Qed.

Lemma locate_exact (S : Z) : locate S 1 = loc_Exact.
Proof. unfold locate. rewrite Z.mod_1_r. reflexivity. Qed.

Lemma new_location_locate (P Q : Z) :
  0 < Q -> new_location Q (P mod Q) = locate P Q.
Proof.
  intros HQ. pose proof (Z.mod_pos_bound P Q HQ) as B.
  unfold new_location, new_location_even, new_location_odd, locate.
  set (r := P mod Q) in *.
  destruct (Z.even Q) eqn:Ev; [ reflexivity | ].
  destruct (Z.eqb_spec r 0); [ reflexivity | ]. f_equal.
  assert (Hodd : Z.odd Q = true) by (rewrite <- Z.negb_even, Ev; reflexivity).
  apply Z.odd_spec in Hodd. destruct Hodd as [k Hk].
  destruct (Z.compare_spec (2 * r + 1) Q), (Z.compare_spec (2 * r) Q);
    try reflexivity; lia.
Qed.

(** A normal number is the rounding of its own value. *)
Lemma rounds_to_self (m : positive) (e : Z) :
  digits2_pos m = 53%positive -> -1200 <= e <= 970 ->
  rounds_to (S754_finite false m e) (Zpos m) 1 e.
Proof.
  intros Hd He. pose proof (digits2_bounds m) as B. rewrite Hd in B.
  change (2 ^ (53 - 1)) with (2 ^ 52) in B.
  exists (Zpos m), 1, e. repeat apply conj; try lia.
  unfold halfcode. rewrite Z.div_1_r, Z.mod_1_r. change (0 =? 0) with true.
  unfold rne.
  replace (2 * (2 * Zpos m) + 0) with (Zpos m * 4) by lia.
  rewrite Z.div_mul, Z.mod_mul by lia. change (0 <=? 1) with true. cbv iota.
  unfold normalized. destruct (Z.ltb_spec (Zpos m) (2 ^ 53)); [ reflexivity | lia ].
Qed.

Lemma mul_rounds_to (a b : float) (ma mb : positive) (ea eb : Z) :
  Prim2SF a = S754_finite false ma ea -> digits2_pos ma = 53%positive ->
  Prim2SF b = S754_finite false mb eb -> digits2_pos mb = 53%positive ->
  -1074 <= ea + eb + 52 -> ea + eb + 54 <= 971 ->
  rounds_to (Prim2SF (a * b)) (Zpos ma * Zpos mb) 1 (ea + eb).
Proof.
  intros Ha Hda Hb Hdb Hlo Hhi.
  rewrite mul_spec, Ha, Hb. unfold SF64mul, SFmul. cbn [xorb].
  pose proof (digits2_bounds ma) as B1. rewrite Hda in B1.
  pose proof (digits2_bounds mb) as B2. rewrite Hdb in B2.
  change (2 ^ (53 - 1)) with 4503599627370496 in B1, B2.
  change (2 ^ 53) with 9007199254740992 in *.
  assert (Hq1 : 2 ^ 104 <= Zpos (ma * mb))
    by (rewrite Pos2Z.inj_mul; change (2 ^ 104) with (4503599627370496 * 4503599627370496); nia).
  assert (Hq2 : Zpos (ma * mb) < 2 ^ 106)
    by (rewrite Pos2Z.inj_mul; change (2 ^ 106) with (9007199254740992 * 9007199254740992); nia).
  assert (Hdq : 105 <= Zpos (digits2_pos (ma * mb)) <= 106).
  { destruct (Z_lt_le_dec (Zpos (ma * mb)) (2 ^ 105)).
    - assert (Zpos (digits2_pos (ma * mb)) = 105) by (apply digits2_unique; simpl Z.sub; lia). lia.
    - assert (Zpos (digits2_pos (ma * mb)) = 106) by (apply digits2_unique; simpl Z.sub; lia). lia. }
  rewrite <- (locate_exact (Zpos ma * Zpos mb)).
  apply binary_round_aux_rounds_to; try lia.
  rewrite Z.div_1_r. reflexivity.
Qed.

Lemma div_rounds_to (a b : float) (ma mb : positive) (ea eb : Z) :
  Prim2SF a = S754_finite false ma ea -> digits2_pos ma = 53%positive ->
  Prim2SF b = S754_finite false mb eb -> digits2_pos mb = 53%positive ->
  -1074 <= ea - eb - 53 -> ea - eb - 51 <= 971 ->
  rounds_to (Prim2SF (a / b)) (Zpos ma * 2 ^ 53) (Zpos mb) (ea - eb - 53).
Proof.
  intros Ha Hda Hb Hdb Hlo Hhi.
  rewrite div_spec, Ha, Hb.
  unfold SF64div, SFdiv, SFdiv_core_binary, Zdigits2. rewrite Hda, Hdb.
  rewrite fexp_normal by lia.
  replace (Z.min (53 + ea - (53 + eb) - 53) (ea - eb)) with (ea - eb - 53) by lia.
  replace (ea - eb - (ea - eb - 53)) with 53 by lia.
  rewrite Z.shiftl_mul_pow2 by lia. cbn [xorb].
  pose proof (digits2_bounds ma) as B1. rewrite Hda in B1.
  pose proof (digits2_bounds mb) as B2. rewrite Hdb in B2.
  change (2 ^ (53 - 1)) with 4503599627370496 in B1, B2.
  change (2 ^ 53) with 9007199254740992 in *.
  pose proof (Z_div_mod (Zpos ma * 9007199254740992) (Zpos mb) eq_refl) as Hdm.
  unfold Z.div, Z.modulo in *.
  pose proof (new_location_locate (Zpos ma * 9007199254740992) (Zpos mb) eq_refl) as Hloc.
  pose proof (binary_round_aux_rounds_to (Zpos ma * 9007199254740992) (Zpos mb)) as Hr.
  unfold Z.div, Z.modulo in Hloc, Hr.
  destruct (Z.div_eucl (Zpos ma * 9007199254740992) (Zpos mb)) as [q r].
  destruct Hdm as [Hq Hrr].
  assert (Hq1 : 2 ^ 52 <= q) by (change (2 ^ 52) with 4503599627370496; nia).
  assert (Hq2 : q < 2 ^ 54) by (change (2 ^ 54) with 18014398509481984; nia).
  destruct q as [ | q | q ]; [ simpl in Hq1; lia | | lia ].
  assert (Hdq : 53 <= Zpos (digits2_pos q) <= 54).
  { destruct (Z_lt_le_dec (Zpos q) (2 ^ 53)).
    - assert (Zpos (digits2_pos q) = 53) by (apply digits2_unique; simpl Z.sub; lia). lia.
    - assert (Zpos (digits2_pos q) = 54) by (apply digits2_unique; simpl Z.sub; lia). lia. }
  rewrite Hloc. apply Hr; first [ lia | reflexivity ].
Qed.

Lemma digits2_between (p : positive) (a b : Z) :
  0 <= a -> 2 ^ a <= Zpos p < 2 ^ b -> a + 1 <= Zpos (digits2_pos p) <= b.
Proof.
  intros Ha [Hlo Hhi]. pose proof (digits2_bounds p) as [Dlo Dhi].
  set (d := Zpos (digits2_pos p)) in *.
  assert (0 < d) by (unfold d; lia).
  split.
  - destruct (Z_lt_le_dec a d); [ lia | ].
    assert (2 ^ d <= 2 ^ a) by (apply Z.pow_le_mono_r; lia). lia.
  - destruct (Z_lt_le_dec b d); [ | lia ].
    assert (2 ^ b <= 2 ^ (d - 1)) by (apply Z.pow_le_mono_r; lia). lia.
Qed.

Lemma shl_align_fst (mx : positive) (ex ez : Z) :
  ez <= ex -> Zpos (fst (shl_align mx ex ez)) = Zpos mx * 2 ^ (ex - ez).
Proof.
  intros H. unfold shl_align.
  destruct (ez - ex) as [ | d | d ] eqn:E; cbn [fst].
  - replace (ex - ez) with 0 by lia. simpl. lia.
  - lia.
  - rewrite iter_xO_pow2. f_equal. f_equal. lia.
Qed.

(** The sum of two aligned normal mantissas. *)
Lemma aligned_sum_bounds (ma mb : positive) (ea eb : Z) :
  digits2_pos ma = 53%positive -> digits2_pos mb = 53%positive ->
  let ez := Z.min ea eb in
  let M := Z.max ea eb in
  let S := Zpos ma * 2 ^ (ea - ez) + Zpos mb * 2 ^ (eb - ez) in
  2 ^ (52 + (M - ez)) <= S < 2 ^ (54 + (M - ez)).
Proof.
  intros Hda Hdb ez M S.
  pose proof (digits2_bounds ma) as B1. rewrite Hda in B1.
  pose proof (digits2_bounds mb) as B2. rewrite Hdb in B2.
  change (2 ^ (53 - 1)) with 4503599627370496 in B1, B2.
  change (2 ^ 53) with 9007199254740992 in *.
  rewrite !pow2_split by lia.
  change (2 ^ 52) with 4503599627370496. change (2 ^ 54) with 18014398509481984.
  assert (Hk : 0 < 2 ^ (M - ez)) by (apply Z.pow_pos_nonneg; lia).
  unfold S. destruct (Z_le_gt_dec ea eb).
  - replace (ea - ez) with 0 by lia. replace (eb - ez) with (M - ez) by lia.
    rewrite Z.pow_0_r.
    assert (1 <= 2 ^ (M - ez)) by lia. nia.
  - replace (eb - ez) with 0 by lia. replace (ea - ez) with (M - ez) by lia.
    rewrite Z.pow_0_r.
    assert (1 <= 2 ^ (M - ez)) by lia. nia.
Qed.

Lemma add_finite (a b : float) (ma mb : positive) (ea eb : Z) :
  Prim2SF a = S754_finite false ma ea -> digits2_pos ma = 53%positive ->
  Prim2SF b = S754_finite false mb eb -> digits2_pos mb = 53%positive ->
  -1074 <= Z.min ea eb -> Z.max ea eb + 2 <= 971 ->
  let ez := Z.min ea eb in
  let S := Zpos ma * 2 ^ (ea - ez) + Zpos mb * 2 ^ (eb - ez) in
  exists pS, S = Zpos pS
    /\ Z.max ea eb - ez + 53 <= Zpos (digits2_pos pS) <= Z.max ea eb - ez + 54
    /\ Prim2SF (a + b) = binary_round_aux prec emax false (Zpos pS) ez loc_Exact.
Proof.
  intros Ha Hda Hb Hdb Hlo Hhi ez S.
  pose proof (aligned_sum_bounds ma mb ea eb Hda Hdb) as B. cbv zeta in B.
  fold ez in B.
  assert (ES : Zpos ma * 2 ^ (ea - ez) + Zpos mb * 2 ^ (eb - ez) = S) by reflexivity.
  clearbody S. rewrite ES in B.
  assert (HS : 0 < S).
  { assert (0 < 2 ^ (52 + (Z.max ea eb - ez))) by (apply Z.pow_pos_nonneg; lia). lia. }
  destruct S as [ | pS | pS ]; [ lia | | lia ].
  exists pS. split; [ reflexivity | ].
  assert (Hd : Z.max ea eb - ez + 53 <= Zpos (digits2_pos pS) <= Z.max ea eb - ez + 54).
  { pose proof (digits2_between pS (52 + (Z.max ea eb - ez)) (54 + (Z.max ea eb - ez))
                  ltac:(lia) B). lia. }
  split; [ exact Hd | ].
  rewrite add_spec, Ha, Hb. unfold SF64add, SFadd. cbn [cond_Zopp]. fold ez.
  rewrite !shl_align_fst by lia. rewrite ES.
  unfold binary_normalize, binary_round.
  rewrite fexp_normal by lia.
  unfold shl_align.
  destruct (Zpos (digits2_pos pS) + ez - 53 - ez) as [ | k | k ] eqn:Ek;
    [ reflexivity | reflexivity | lia ].
Qed.

Lemma add_pnormal (lo1 hi1 lo2 hi2 : Z) (a b : float) :
  pnormal lo1 hi1 a -> pnormal lo2 hi2 b ->
  -1074 <= Z.min lo1 lo2 -> Z.max hi1 hi2 + 2 <= 971 ->
  pnormal (Z.max lo1 lo2) (Z.max hi1 hi2 + 2) (a + b).
Proof.
  intros (ma & ea & Ha & Hda & Hea) (mb & eb & Hb & Hdb & Heb) Hlo Hhi.
  destruct (add_finite a b ma mb ea eb Ha Hda Hb Hdb ltac:(lia) ltac:(lia))
    as (pS & _ & Hd & Hadd).
  unfold pnormal. rewrite Hadd.
  destruct (binary_round_aux_normal false pS (Z.min ea eb) loc_Exact)
    as (m & e & -> & Hm & He); try lia.
  exists m, e. repeat split; auto; lia.
Qed.

Lemma add_rounds_to (a b : float) (ma mb : positive) (ea eb : Z) :
  Prim2SF a = S754_finite false ma ea -> digits2_pos ma = 53%positive ->
  Prim2SF b = S754_finite false mb eb -> digits2_pos mb = 53%positive ->
  -1074 <= Z.min ea eb -> Z.max ea eb + 2 <= 971 ->
  let ez := Z.min ea eb in
  rounds_to (Prim2SF (a + b))
    (Zpos ma * 2 ^ (ea - ez) + Zpos mb * 2 ^ (eb - ez)) 1 ez.
Proof.
  intros Ha Hda Hb Hdb Hlo Hhi ez.
  destruct (add_finite a b ma mb ea eb Ha Hda Hb Hdb Hlo Hhi) as (pS & HS & Hd & ->).
  fold ez in HS, Hd. rewrite HS.
  rewrite <- (locate_exact (Zpos pS)).
  apply binary_round_aux_rounds_to; try lia.
  rewrite Z.div_1_r. reflexivity.
Qed.

(** The order of two positive normal numbers is the order of their values. *)
Lemma leb_value (a b : float) (ma mb : positive) (ea eb : Z) :
  Prim2SF a = S754_finite false ma ea -> digits2_pos ma = 53%positive ->
  Prim2SF b = S754_finite false mb eb -> digits2_pos mb = 53%positive ->
  -1200 <= ea -> -1200 <= eb ->
  (a <=? b)%float = true -> Zpos ma * pw ea <= Zpos mb * pw eb.
Proof.
  intros Ha Hda Hb Hdb Hea Heb. rewrite leb_spec, Ha, Hb.
  unfold SFleb, SFcompare.
  pose proof (digits2_bounds ma) as B1. rewrite Hda in B1.
  pose proof (digits2_bounds mb) as B2. rewrite Hdb in B2.
  change (2 ^ (53 - 1)) with 4503599627370496 in B1, B2.
  change (2 ^ 53) with 9007199254740992 in *.
  pose proof (pw_pos ea Hea). pose proof (pw_pos eb Heb).
  destruct (Z.compare_spec ea eb) as [E | E | E].
  - subst eb. change (Pos.compare_cont Eq ma mb) with (Pos.compare ma mb).
    destruct (Pos.compare_spec ma mb); intros; try discriminate; nia.
  - intros _. pose proof (pw_lt ea eb Hea E). nia.
  - discriminate.
Qed.

Lemma pw_shift_le (m m' e e' t : Z) :
  -1200 <= e -> -1200 <= e' -> -1200 <= e + t -> -1200 <= e' + t ->
  m * pw e <= m' * pw e' -> m * pw (e + t) <= m' * pw (e' + t).
Proof.
  intros He He' Het He't H.
  destruct (Z_le_gt_dec 0 t).
  - rewrite !pw_add by lia.
    assert (0 < 2 ^ t) by (apply Z.pow_pos_nonneg; lia). nia.
  - assert (E1 : pw e = pw (e + t) * 2 ^ (- t))
      by (rewrite <- pw_add by lia; f_equal; lia).
    assert (E2 : pw e' = pw (e' + t) * 2 ^ (- t))
      by (rewrite <- pw_add by lia; f_equal; lia).
    rewrite E1, E2 in H.
    assert (0 < 2 ^ (- t)) by (apply Z.pow_pos_nonneg; lia). nia.
Qed.

Lemma aligned_value (m : positive) (e ez : Z) :
  -1200 <= ez <= e -> Zpos m * 2 ^ (e - ez) * pw ez = Zpos m * pw e.
Proof.
  intros H. replace (pw e) with (pw (ez + (e - ez))) by (f_equal; lia).
  rewrite pw_add by lia. ring.
Qed.

(** *** Monotonicity of the operations on positive normal numbers *)

Section Monotone.

Variables (lo1 hi1 lo2 hi2 : Z).
Variables (u v c : float).
Hypothesis Hu : pnormal lo1 hi1 u.
Hypothesis Hv : pnormal lo1 hi1 v.
Hypothesis Hc : pnormal lo2 hi2 c.
Hypothesis Hrange : -1000 <= lo1 /\ hi1 <= 900 /\ -1000 <= lo2 /\ hi2 <= 900.

Lemma mul_le_mono_r :
  -1074 <= lo1 + lo2 + 52 -> hi1 + hi2 + 54 <= 971 ->
  (u <=? v)%float = true -> (u * c <=? v * c)%float = true.
Proof.
  intros Hlo Hhi Hle.
  destruct Hu as (mu & eu & Du & Dmu & Reu).
  destruct Hv as (mv & ev & Dv & Dmv & Rev).
  destruct Hc as (mc & ec & Dc & Dmc & Rec).
  rewrite leb_spec.
  apply (rounds_to_le _ _ (Zpos mu * Zpos mc) 1 (eu + ec) (Zpos mv * Zpos mc) 1 (ev + ec)).
  - apply mul_rounds_to; auto; lia.
  - apply mul_rounds_to; auto; lia.
  - pose proof (leb_value u v mu mv eu ev Du Dmu Dv Dmv ltac:(lia) ltac:(lia) Hle) as Hval.
    pose proof (pw_shift_le (Zpos mu) (Zpos mv) eu ev ec ltac:(lia) ltac:(lia) ltac:(lia) ltac:(lia) Hval).
    nia.
Qed.

Lemma div_le_mono_r :
  -1074 <= lo1 - hi2 - 53 -> hi1 - lo2 - 51 <= 971 ->
  (u <=? v)%float = true -> (u / c <=? v / c)%float = true.
Proof.
  intros Hlo Hhi Hle.
  destruct Hu as (mu & eu & Du & Dmu & Reu).
  destruct Hv as (mv & ev & Dv & Dmv & Rev).
  destruct Hc as (mc & ec & Dc & Dmc & Rec).
  rewrite leb_spec.
  apply (rounds_to_le _ _ (Zpos mu * 2 ^ 53) (Zpos mc) (eu - ec - 53)
                          (Zpos mv * 2 ^ 53) (Zpos mc) (ev - ec - 53)).
  - apply div_rounds_to; auto; lia.
  - apply div_rounds_to; auto; lia.
  - pose proof (leb_value u v mu mv eu ev Du Dmu Dv Dmv ltac:(lia) ltac:(lia) Hle) as Hval.
    pose proof (pw_shift_le (Zpos mu) (Zpos mv) eu ev (- ec - 53)
                  ltac:(lia) ltac:(lia) ltac:(lia) ltac:(lia) Hval) as Hs.
    replace (eu + (- ec - 53)) with (eu - ec - 53) in Hs by lia.
    replace (ev + (- ec - 53)) with (ev - ec - 53) in Hs by lia.
    change (2 ^ 53) with 9007199254740992. nia.
Qed.

(** [c + u <= c + v]. *)
Lemma add_le_mono_l :
  -1074 <= Z.min lo1 lo2 -> Z.max hi1 hi2 + 2 <= 971 ->
  (u <=? v)%float = true -> (c + u <=? c + v)%float = true.
Proof.
  intros Hlo Hhi Hle.
  destruct Hu as (mu & eu & Du & Dmu & Reu).
  destruct Hv as (mv & ev & Dv & Dmv & Rev).
  destruct Hc as (mc & ec & Dc & Dmc & Rec).
  rewrite leb_spec.
  eapply rounds_to_le.
  - apply (add_rounds_to c u mc mu ec eu); auto; lia.
  - apply (add_rounds_to c v mc mv ec ev); auto; lia.
  - pose proof (leb_value u v mu mv eu ev Du Dmu Dv Dmv ltac:(lia) ltac:(lia) Hle) as Hval.
    rewrite !Z.mul_1_r, !Z.mul_add_distr_r.
    rewrite !aligned_value by lia. lia.
Qed.

(** Multiplying by a constant below one does not increase a number. *)
Lemma mul_le_self :
  hi2 <= -53 -> -1074 <= lo1 + lo2 + 52 ->
  (u * c <=? u)%float = true.
Proof.
  intros Hsmall Hlo.
  destruct Hu as (mu & eu & Du & Dmu & Reu).
  destruct Hc as (mc & ec & Dc & Dmc & Rec).
  rewrite leb_spec.
  apply (rounds_to_le _ _ (Zpos mu * Zpos mc) 1 (eu + ec) (Zpos mu) 1 eu).
  - apply mul_rounds_to; auto; lia.
  - rewrite Du. apply rounds_to_self; auto; lia.
  - pose proof (digits2_bounds mc) as B. rewrite Dmc in B.
    assert (E : pw eu = pw (eu + ec) * 2 ^ (- ec))
      by (rewrite <- pw_add by lia; f_equal; lia).
    rewrite E.
    assert (2 ^ 53 <= 2 ^ (- ec)) by (apply Z.pow_le_mono_r; lia).
    pose proof (pw_pos (eu + ec) ltac:(lia)). nia.
Qed.

End Monotone.

End Rounding.

Import Binary64 Binary64Facts Rounding.

(** ** Order of binary64 values *)

Lemma SFcompare_antisym (a b : spec_float) :
  SFcompare b a = option_map CompOpp (SFcompare a b).
Proof.
  destruct a as [sa | sa | | sa ma ea], b as [sb | sb | | sb mb eb];
    try destruct sa; try destruct sb; try reflexivity; simpl;
    rewrite (Z.compare_antisym ea eb); destruct (ea ?= eb); simpl; try reflexivity;
    pose proof (Pos.compare_cont_antisym ma mb Eq) as H; simpl in H;
    rewrite <- H; reflexivity.
Qed.



(** ** The pixel classifier *)

Lemma isSkinTone_unfold (r g b : float) :
  isSkinTone r g b =
  ((80 <? luma r g b)%float &&
   (77 <? chromaBlue r g b)%float && (chromaBlue r g b <? 127)%float &&
   (133 <? chromaRed r g b)%float && (chromaRed r g b <? 173)%float).
Proof. reflexivity. Qed.



(** The binary64 evaluation is what decides a sample: for (90, 80, 80) the
    exact value of 128 + 0.5 r - 0.419 g - 0.081 b is 133, the computed one
    is just above, and the sample is classified as skin. *)
Remark isSkinTone_rounding_90_80_80 :
  128000 + 500 * 90 - 419 * 80 - 81 * 80 = 133 * 1000 /\
  (133 <? chromaRed (Z2F 90) (Z2F 80) (Z2F 80))%float = true /\
  isSkinTone (Z2F 90) (Z2F 80) (Z2F 80) = true.
Proof. vm_compute. repeat split. Qed.

(** ** The scan of the working raster *)

Lemma In_upto (n v : Z) : In v (upto n) <-> 0 <= v < n.
Proof.
  unfold upto. rewrite in_map_iff. split.
  - intros (k & <- & Hk). apply in_seq in Hk. lia.
  - intros Hv. exists (Z.to_nat v). split; [ lia | apply in_seq; lia ].
Qed.

Lemma NoDup_map_injective {A B} (f : A -> B) (l : list A) :
  (forall a a', f a = f a' -> a = a') -> NoDup l -> NoDup (map f l).
Proof.
  intros Hinj. induction 1 as [ | a l Ha Hl IH ]; simpl; constructor; auto.
  rewrite in_map_iff. intros (a' & E & Hin). apply Hinj in E. congruence.
Qed.

Lemma NoDup_upto (n : Z) : NoDup (upto n).
Proof.
  unfold upto. apply NoDup_map_injective; [ apply Nat2Z.inj | apply seq_NoDup ].
Qed.

Lemma In_scanRow (data : list Z) (cw row : Z) (p : Pixel) :
  In p (scanRow data cw row) -> py p = row /\ 0 <= px p < cw.
Proof.
  unfold scanRow. rewrite in_flat_map. intros (c & Hc & Hp).
  apply In_upto in Hc.
  destruct (isSkinTone _ _ _); simpl in Hp; [ | tauto ].
  destruct Hp as [<- | []]. simpl. auto.
Qed.

Lemma In_findSkinPixels (data : list Z) (cw ch : Z) (p : Pixel) :
  In p (findSkinPixels data cw ch) -> 0 <= px p < cw /\ 0 <= py p < ch.
Proof.
  unfold findSkinPixels. rewrite in_flat_map. intros (row & Hrow & Hp).
  apply In_upto in Hrow. apply In_scanRow in Hp. destruct Hp as [-> ?]. auto.
Qed.

(** Concatenating duplicate-free blocks that are pairwise disjoint. *)
Lemma NoDup_flat_map {A B} (f : A -> list B) (l : list A) :
  NoDup l ->
  (forall a, In a l -> NoDup (f a)) ->
  (forall a a' b, In a l -> In a' l -> In b (f a) -> In b (f a') -> a = a') ->
  NoDup (flat_map f l).
Proof.
  induction 1 as [ | a l Ha Hl IH ]; intros Hf Hdisj; simpl.
  - constructor.
  - apply NoDup_app.
    + apply Hf. left. reflexivity.
    + apply IH.
      * intros; apply Hf; right; assumption.
      * intros a1 a2 b H1 H2. apply Hdisj; right; assumption.
    + intros b Hb Hb'. apply in_flat_map in Hb'. destruct Hb' as (a' & Ha' & Hb').
      assert (a = a') by (apply (Hdisj a a' b); simpl; auto).
      subst a'. contradiction.
Qed.

Lemma NoDup_scanRow (data : list Z) (cw row : Z) : NoDup (scanRow data cw row).
Proof.
  unfold scanRow. apply NoDup_flat_map.
  - apply NoDup_upto.
  - intros c _. destruct (isSkinTone _ _ _); repeat constructor. simpl. tauto.
  - intros c c' p _ _ H1 H2.
    destruct (isSkinTone _ _ _); simpl in H1; [ | tauto ].
    destruct (isSkinTone _ _ _); simpl in H2; [ | tauto ].
    destruct H1 as [<- | []]. destruct H2 as [H2 | []]. congruence.
Qed.

(** No coordinate is pushed twice on [skinPixels]. *)
Lemma NoDup_findSkinPixels (data : list Z) (cw ch : Z) :
  NoDup (findSkinPixels data cw ch).
Proof.
  unfold findSkinPixels. apply NoDup_flat_map.
  - apply NoDup_upto.
  - intros row _. apply NoDup_scanRow.
  - intros r1 r2 p _ _ H1 H2.
    apply In_scanRow in H1. apply In_scanRow in H2. destruct H1, H2. congruence.
Qed.

(** ** The bounding box *)

Lemma findBounds_components (l : list Pixel) (a b c d : Z) :
  fold_left boundsStep l (a, b, c, d)
  = (fold_left Z.min (map px l) a, fold_left Z.max (map px l) b,
     fold_left Z.min (map py l) c, fold_left Z.max (map py l) d).
Proof.
  revert a b c d. induction l as [ | p l IH ]; intros a b c d; simpl.
  - reflexivity.
  - apply IH.
Qed.

Lemma fold_min_spec (l : list Z) (a : Z) :
  let m := fold_left Z.min l a in
  m <= a /\ Forall (fun v => m <= v) l /\ (m = a \/ In m l).
Proof.
  revert a. induction l as [ | v l IH ]; intros a; simpl.
  - split; [ lia | split; [ constructor | left; reflexivity ] ].
  - destruct (IH (Z.min a v)) as (H1 & H2 & H3).
    split; [ lia | split ].
    + constructor; [ lia | assumption ].
    + destruct H3 as [H3 | H3]; [ | auto ].
      rewrite H3. destruct (Z.min_spec a v) as [[_ E] | [_ E]]; rewrite E; auto.
Qed.

Lemma fold_max_spec (l : list Z) (a : Z) :
  let m := fold_left Z.max l a in
  a <= m /\ Forall (fun v => v <= m) l /\ (m = a \/ In m l).
Proof.
  revert a. induction l as [ | v l IH ]; intros a; simpl.
  - split; [ lia | split; [ constructor | left; reflexivity ] ].
  - destruct (IH (Z.max a v)) as (H1 & H2 & H3).
    split; [ lia | split ].
    + constructor; [ lia | assumption ].
    + destruct H3 as [H3 | H3]; [ | auto ].
      rewrite H3. destruct (Z.max_spec a v) as [[_ E] | [_ E]]; rewrite E; auto.
Qed.

(** Starting the minimum from a value that bounds the list from above (as
    [canvas.width] does for the abscissas) yields the least element. *)
Lemma fold_min_IsMin (l : list Z) (a : Z) :
  l <> [] -> Forall (fun v => v <= a) l -> IsMin (fold_left Z.min l a) l.
Proof.
  intros Hne Hall. destruct (fold_min_spec l a) as (H1 & H2 & H3).
  split; [ | assumption ].
  destruct H3 as [H3 | H3]; [ | assumption ].
  destruct l as [ | v l ]; [ congruence | ].
  assert (v = a).
  { inversion Hall; subst. inversion H2; subst. lia. }
  subst v. rewrite H3. left. reflexivity.
Qed.

Lemma fold_max_IsMax (l : list Z) (a : Z) :
  l <> [] -> Forall (fun v => a <= v) l -> IsMax (fold_left Z.max l a) l.
Proof.
  intros Hne Hall. destruct (fold_max_spec l a) as (H1 & H2 & H3).
  split; [ | assumption ].
  destruct H3 as [H3 | H3]; [ | assumption ].
  destruct l as [ | v l ]; [ congruence | ].
  assert (v = a).
  { inversion Hall; subst. inversion H2; subst. lia. }
  subst v. rewrite H3. left. reflexivity.
Qed.

(** The four bounds computed over the scanned pixels are their least and
    greatest coordinates. *)
Lemma findBounds_extrema (data : list Z) (cw ch : Z) :
  let skinPixels := findSkinPixels data cw ch in
  skinPixels <> [] ->
  exists minX maxX minY maxY,
    findBounds cw ch skinPixels = (minX, maxX, minY, maxY)
    /\ IsMin minX (map px skinPixels) /\ IsMax maxX (map px skinPixels)
    /\ IsMin minY (map py skinPixels) /\ IsMax maxY (map py skinPixels).
Proof.
  intros skinPixels Hne. unfold findBounds. rewrite findBounds_components.
  assert (Hin : forall p, In p skinPixels -> 0 <= px p < cw /\ 0 <= py p < ch)
    by (intros p; apply In_findSkinPixels).
  assert (Hx : map px skinPixels <> []) by (destruct skinPixels; simpl; congruence).
  assert (Hy : map py skinPixels <> []) by (destruct skinPixels; simpl; congruence).
  assert (Bx : Forall (fun v => 0 <= v <= cw) (map px skinPixels)).
  { apply Forall_forall. intros v Hv. apply in_map_iff in Hv.
    destruct Hv as (p & <- & Hp). apply Hin in Hp. lia. }
  assert (By : Forall (fun v => 0 <= v <= ch) (map py skinPixels)).
  { apply Forall_forall. intros v Hv. apply in_map_iff in Hv.
    destruct Hv as (p & <- & Hp). apply Hin in Hp. lia. }
  do 4 eexists. split; [ reflexivity | ].
  split; [ | split; [ | split ] ].
  - apply fold_min_IsMin; [ assumption | ]. eapply Forall_impl; [ | exact Bx ].
    simpl; intros; lia.
  - apply fold_max_IsMax; [ assumption | ]. eapply Forall_impl; [ | exact Bx ].
    simpl; intros; lia.
  - apply fold_min_IsMin; [ assumption | ]. eapply Forall_impl; [ | exact By ].
    simpl; intros; lia.
  - apply fold_max_IsMax; [ assumption | ]. eapply Forall_impl; [ | exact By ].
    simpl; intros; lia.
Qed.

Lemma SFmul_comm (a b : spec_float) : SFmul prec emax a b = SFmul prec emax b a.
Proof.
  destruct a as [sa | sa | | sa ma ea], b as [sb | sb | | sb mb eb]; simpl;
    rewrite ?(xorb_comm sa sb); try reflexivity.
  rewrite (Pos.mul_comm ma mb), (Z.add_comm ea eb). reflexivity.
Qed.

Lemma mul_comm (a b : float) : (a * b)%float = (b * a)%float.
Proof. apply Prim2SF_inj. rewrite !mul_spec. apply SFmul_comm. Qed.

(** ** The canvas fallback *)

Lemma detectFaceWithCanvas_scan (P : Platform) (img : HTMLImageElement) (data : list Z) :
  hasContext2d P = true ->
  readRaster P img (canvasWidth img) (canvasHeight img) = Normal data ->
  detectFaceWithCanvas P img
  = Normal (boxFromSkinPixels (scaleOf img) (canvasWidth img) (canvasHeight img)
              (findSkinPixels data (canvasWidth img) (canvasHeight img))).
Proof.
  intros Hctx Hdata. unfold detectFaceWithCanvas. rewrite Hctx, Hdata. reflexivity.
Qed.

Lemma boxFromSkinPixels_enough (scale : float) (cw ch : Z) (skinPixels : list Pixel) :
  100 <= Z.of_nat (List.length skinPixels) ->
  boxFromSkinPixels scale cw ch skinPixels
  = validateBox (candidateBox scale (findBounds cw ch skinPixels)).
Proof.
  intros H. unfold boxFromSkinPixels.
  destruct (Z.ltb_spec (Z.of_nat (List.length skinPixels)) 100); [ lia | reflexivity ].
Qed.

(** C2: when at least 100 skin coordinates are collected, the box handed to
    the aspect-ratio validation has x = minX / scale, y = minY / scale,
    width = (maxX - minX) / scale and height = 0.6 * (maxY - minY) / scale,
    where the four bounds are the least and greatest coordinates of the
    collected pixels and scale is the sampler's factor. *)
Theorem candidate_box_of_extrema
    (P : Platform) (img : HTMLImageElement) (data : list Z) :
  let cw := canvasWidth img in
  let ch := canvasHeight img in
  let scale := scaleOf img in
  let skinPixels := findSkinPixels data cw ch in
  hasContext2d P = true ->
  readRaster P img cw ch = Normal data ->
  100 <= Z.of_nat (List.length skinPixels) ->
  exists minX maxX minY maxY,
    IsMin minX (map px skinPixels) /\ IsMax maxX (map px skinPixels) /\
    IsMin minY (map py skinPixels) /\ IsMax maxY (map py skinPixels) /\
    detectFaceWithCanvas P img
    = Normal (validateBox
                {| x := (Z2F minX / scale)%float;
                   y := (Z2F minY / scale)%float;
                   width := (Z2F (maxX - minX) / scale)%float;
                   height := (0.6 * Z2F (maxY - minY) / scale)%float |}).
Proof.
  intros cw ch scale skinPixels Hctx Hdata Hcount.
  subst cw ch scale skinPixels.
  assert (Hne : findSkinPixels data (canvasWidth img) (canvasHeight img) <> []).
  { intros E. rewrite E in Hcount. simpl in Hcount. lia. }
  destruct (findBounds_extrema data _ _ Hne)
    as (minX & maxX & minY & maxY & Hb & H1 & H2 & H3 & H4).
  exists minX, maxX, minY, maxY. repeat (split; [ assumption | ]).
  rewrite (detectFaceWithCanvas_scan P img data Hctx Hdata).
  rewrite boxFromSkinPixels_enough by assumption.
  rewrite Hb. unfold candidateBox.
  rewrite (mul_comm (Z2F (maxY - minY)) 0.6). reflexivity.
Qed.

Lemma banner_skin_count :
  Z.of_nat (List.length
    (findSkinPixels (rasterOf allSkin (canvasWidth bannerImage) (canvasHeight bannerImage))
       (canvasWidth bannerImage) (canvasHeight bannerImage))) = 300.
Proof. vm_compute. reflexivity. Qed.

Lemma candidate_box_of_extrema_witness :
  exists minX maxX minY maxY,
    IsMin minX (map px (findSkinPixels
        (rasterOf allSkin (canvasWidth bannerImage) (canvasHeight bannerImage))
        (canvasWidth bannerImage) (canvasHeight bannerImage))) /\
    IsMax maxX (map px (findSkinPixels
        (rasterOf allSkin (canvasWidth bannerImage) (canvasHeight bannerImage))
        (canvasWidth bannerImage) (canvasHeight bannerImage))) /\
    IsMin minY (map py (findSkinPixels
        (rasterOf allSkin (canvasWidth bannerImage) (canvasHeight bannerImage))
        (canvasWidth bannerImage) (canvasHeight bannerImage))) /\
    IsMax maxY (map py (findSkinPixels
        (rasterOf allSkin (canvasWidth bannerImage) (canvasHeight bannerImage))
        (canvasWidth bannerImage) (canvasHeight bannerImage))) /\
    detectFaceWithCanvas (canvasPlatform allSkin) bannerImage
    = Normal (validateBox
                {| x := (Z2F minX / scaleOf bannerImage)%float;
                   y := (Z2F minY / scaleOf bannerImage)%float;
                   width := (Z2F (maxX - minX) / scaleOf bannerImage)%float;
                   height := (0.6 * Z2F (maxY - minY) / scaleOf bannerImage)%float |}).
Proof.
  apply (candidate_box_of_extrema (canvasPlatform allSkin) bannerImage
           (rasterOf allSkin (canvasWidth bannerImage) (canvasHeight bannerImage))).
  - reflexivity.
  - reflexivity.
  - rewrite banner_skin_count. lia.
Defined.

(** C4: when the scan classifies fewer than 100 pixels as skin, the fallback
    resolves with no box; without a platform detector the hook then returns
    no result and caches none. *)
Theorem too_few_skin_pixels
    (P : Platform) (img : HTMLImageElement) (data : list Z) (st : HookState) :
  let cw := canvasWidth img in
  let ch := canvasHeight img in
  hasContext2d P = true ->
  readRaster P img cw ch = Normal data ->
  Z.of_nat (List.length (findSkinPixels data cw ch)) < 100 ->
  detectFaceWithCanvas P img = Normal None /\
  (isFaceDetectorSupported P = false ->
   snd (detectFace P img st) = Normal None /\
   detectionResult (fst (detectFace P img st)) = None).
Proof.
  intros cw ch Hctx Hdata Hcount. subst cw ch.
  assert (E : detectFaceWithCanvas P img = Normal None).
  { rewrite (detectFaceWithCanvas_scan P img data Hctx Hdata).
    unfold boxFromSkinPixels.
    destruct (Z.ltb_spec
                (Z.of_nat (List.length
                   (findSkinPixels data (canvasWidth img) (canvasHeight img)))) 100);
      [ reflexivity | lia ]. }
  split; [ exact E | ].
  intros Hnative. unfold detectFace, obtainFaceBox. rewrite Hnative, E.
  split; reflexivity.
Qed.

Lemma too_few_skin_pixels_witness :
  detectFaceWithCanvas (canvasPlatform allBlue) bannerImage = Normal None /\
  (isFaceDetectorSupported (canvasPlatform allBlue) = false ->
   snd (detectFace (canvasPlatform allBlue) bannerImage idleState) = Normal None /\
   detectionResult (fst (detectFace (canvasPlatform allBlue) bannerImage idleState))
   = None).
Proof.
  apply (too_few_skin_pixels (canvasPlatform allBlue) bannerImage
           (rasterOf allBlue (canvasWidth bannerImage) (canvasHeight bannerImage))
           idleState).
  - reflexivity.
  - reflexivity.
  - vm_compute. reflexivity.
Defined.

(** ** Sign and magnitude of the candidate box *)

Lemma maxSize_pnormal : pnormal (-44) (-44) maxSize.
Proof. pnormal_constant. Qed.

Lemma head_ratio_pnormal : pnormal (-53) (-53) 0.6%float.
Proof. pnormal_constant. Qed.

Lemma Z2F_pnormal (n : Z) : 1 <= n < 2 ^ 63 -> pnormal (-52) 11 (Z2F n).
Proof.
  intros Hn. unfold Z2F.
  destruct (Z.ltb_spec n 0); [ lia | ]. apply of_uint63_pnormal. assumption.
Qed.

Lemma Z2F_zero : pzero (Z2F 0).
Proof. reflexivity. Qed.

Lemma Math_min_cases (a b : float) :
  is_nan a = false -> is_nan b = false -> Math_min a b = a \/ Math_min a b = b.
Proof.
  intros Ha Hb. unfold Math_min. rewrite Ha, Hb. simpl.
  destruct (a <? b)%float; auto.
  destruct (b <? a)%float; auto.
  destruct (get_sign a); auto.
Qed.

Lemma scaleOf_pnormal (img : HTMLImageElement) :
  wellFormedImage img -> pnormal (-108) (-43) (scaleOf img).
Proof.
  intros [Hw Hh]. unfold scaleOf.
  assert (Ha : pnormal (-108) (-43) (maxSize / Z2F (naturalWidth img))%float).
  { apply (div_pnormal (-44) (-44) (-52) 11); try lia.
    - apply maxSize_pnormal.
    - apply Z2F_pnormal. lia. }
  assert (Hb : pnormal (-108) (-43) (maxSize / Z2F (naturalHeight img))%float).
  { apply (div_pnormal (-44) (-44) (-52) 11); try lia.
    - apply maxSize_pnormal.
    - apply Z2F_pnormal. lia. }
  destruct (Math_min_cases _ _ (pnormal_not_nan _ _ _ Ha) (pnormal_not_nan _ _ _ Hb))
    as [-> | ->]; assumption.
Qed.

(** A coordinate divided by the scale: zero for 0, positive otherwise. *)
Lemma coordinate_rescaled (n : Z) (scale : float) :
  0 <= n < 2 ^ 63 -> pnormal (-108) (-43) scale ->
  (n = 0 /\ pzero (Z2F n / scale)) \/ (1 <= n /\ pnormal (-62) 68 (Z2F n / scale)).
Proof.
  intros Hn Hs. destruct (Z.eq_dec n 0) as [-> | Hn0].
  - left. split; [ reflexivity | ].
    apply (pzero_div_pnormal _ _ _ _ Z2F_zero Hs).
  - right. split; [ lia | ].
    apply (div_pnormal (-52) 11 (-108) (-43)); try lia; [ | assumption ].
    apply Z2F_pnormal. lia.
Qed.

Lemma pzero_mul_pnormal (lo hi : Z) (a b : float) :
  pzero a -> pnormal lo hi b -> pzero (a * b).
Proof.
  intros Ha (m & e & Hb & _). unfold pzero. rewrite mul_spec, Ha, Hb. reflexivity.
Qed.

(** The head height, 60% of an extent, divided by the scale. *)
Lemma head_height_rescaled (n : Z) (scale : float) :
  0 <= n < 2 ^ 63 -> pnormal (-108) (-43) scale ->
  (n = 0 /\ pzero (Z2F n * 0.6 / scale)) \/
  (1 <= n /\ pnormal (-63) 69 (Z2F n * 0.6 / scale)).
Proof.
  intros Hn Hs. destruct (Z.eq_dec n 0) as [-> | Hn0].
  - left. split; [ reflexivity | ].
    apply (pzero_div_pnormal _ _ _ _ (pzero_mul_pnormal _ _ _ _ Z2F_zero head_ratio_pnormal) Hs).
  - right. split; [ lia | ].
    apply (div_pnormal (-53) 12 (-108) (-43)); try lia; [ | assumption ].
    apply (mul_pnormal (-52) 11 (-53) (-53)); try lia.
    + apply Z2F_pnormal. lia.
    + apply head_ratio_pnormal.
Qed.

Lemma Prim2SF_half : Prim2SF 0.5 = S754_finite false 4503599627370496 (-53).
Proof. reflexivity. Qed.

Lemma Prim2SF_three_halves : Prim2SF 1.5 = S754_finite false 6755399441055744 (-52).
Proof. reflexivity. Qed.

(** The validation rejects a box of positive width and zero height (the
    ratio is +infinity) and a box of zero width and positive height (the
    ratio is 0). *)
Lemma validateBox_flat (lo hi : Z) (faceBox : FaceBox) :
  pnormal lo hi (width faceBox) -> pzero (height faceBox) ->
  (1.5 <? width faceBox / height faceBox)%float = true /\ validateBox faceBox = None.
Proof.
  intros Hw Hh. pose proof (pnormal_div_pzero _ _ _ _ Hw Hh) as Hinf.
  assert (E : (1.5 <? width faceBox / height faceBox)%float = true).
  { rewrite ltb_spec, Hinf, Prim2SF_three_halves. reflexivity. }
  split; [ exact E | ]. unfold validateBox. rewrite E, orb_true_r. reflexivity.
Qed.

Lemma validateBox_thin (lo hi : Z) (faceBox : FaceBox) :
  pzero (width faceBox) -> pnormal lo hi (height faceBox) ->
  validateBox faceBox = None.
Proof.
  intros Hw Hh. pose proof (pzero_div_pnormal _ _ _ _ Hw Hh) as Hz.
  unfold validateBox. rewrite ltb_spec, Hz, Prim2SF_half. reflexivity.
Qed.

(** ** Regions of the raster *)

Lemma NoDup_constant {A} (l : list A) (a : A) :
  NoDup l -> (forall b, In b l -> b = a) -> (List.length l <= 1)%nat.
Proof.
  intros Hnd Hall. destruct l as [ | b [ | c l ] ]; simpl; try lia.
  exfalso. inversion Hnd as [ | ? ? Hb _ ]; subst. apply Hb.
  rewrite (Hall b), (Hall c); simpl; auto.
Qed.

Lemma IsMin_IsMax_equal (m : Z) (l : list Z) (v : Z) :
  IsMin m l -> IsMax m l -> In v l -> v = m.
Proof.
  intros [_ Hmin] [_ Hmax] Hv.
  rewrite Forall_forall in Hmin, Hmax.
  specialize (Hmin v Hv). specialize (Hmax v Hv). lia.
Qed.

Lemma IsMin_le_IsMax (a b : Z) (l : list Z) : IsMin a l -> IsMax b l -> a <= b.
Proof.
  intros [Hin _] [_ Hmax]. rewrite Forall_forall in Hmax. apply Hmax. assumption.
Qed.

(** At least two distinct pixels span a positive extent in some direction. *)
Lemma extent_positive (skinPixels : list Pixel) (minX maxX minY maxY : Z) :
  NoDup skinPixels -> (2 <= List.length skinPixels)%nat ->
  IsMin minX (map px skinPixels) -> IsMax maxX (map px skinPixels) ->
  IsMin minY (map py skinPixels) -> IsMax maxY (map py skinPixels) ->
  1 <= maxX - minX \/ 1 <= maxY - minY.
Proof.
  intros Hnd Hlen Hx1 Hx2 Hy1 Hy2.
  pose proof (IsMin_le_IsMax _ _ _ Hx1 Hx2).
  pose proof (IsMin_le_IsMax _ _ _ Hy1 Hy2).
  destruct (Z.eq_dec maxX minX) as [Ex | Ex]; [ | lia ].
  destruct (Z.eq_dec maxY minY) as [Ey | Ey]; [ | lia ].
  subst maxX maxY. exfalso.
  assert (Hc : forall p, In p skinPixels -> p = mkPixel minX minY).
  { intros [a b] Hp.
    assert (a = minX) by (apply (IsMin_IsMax_equal _ _ _ Hx1 Hx2);
                          change a with (px (mkPixel a b)); apply in_map; assumption).
    assert (b = minY) by (apply (IsMin_IsMax_equal _ _ _ Hy1 Hy2);
                          change b with (py (mkPixel a b)); apply in_map; assumption).
    congruence. }
  pose proof (NoDup_constant _ _ Hnd Hc). lia.
Qed.

Lemma ToUint32_range (f : float) : 0 <= ToUint32 f < 2 ^ 32.
Proof. unfold ToUint32. apply Z.mod_pos_bound. reflexivity. Qed.

(** The bounds of a non-empty scan, with their ranges. *)
Lemma findBounds_ranges (img : HTMLImageElement) (data : list Z) :
  let cw := canvasWidth img in
  let ch := canvasHeight img in
  let skinPixels := findSkinPixels data cw ch in
  skinPixels <> [] ->
  exists minX maxX minY maxY,
    findBounds cw ch skinPixels = (minX, maxX, minY, maxY)
    /\ IsMin minX (map px skinPixels) /\ IsMax maxX (map px skinPixels)
    /\ IsMin minY (map py skinPixels) /\ IsMax maxY (map py skinPixels)
    /\ 0 <= minX <= maxX /\ maxX < 2 ^ 32
    /\ 0 <= minY <= maxY /\ maxY < 2 ^ 32.
Proof.
  intros cw ch skinPixels Hne.
  destruct (findBounds_extrema data cw ch Hne)
    as (minX & maxX & minY & maxY & Hb & Hx1 & Hx2 & Hy1 & Hy2).
  exists minX, maxX, minY, maxY.
  assert (Hcw : 0 <= cw < 2 ^ 32) by apply ToUint32_range.
  assert (Hch : 0 <= ch < 2 ^ 32) by apply ToUint32_range.
  assert (Hin : forall v, In v (map px skinPixels) -> 0 <= v < cw).
  { intros v Hv. apply in_map_iff in Hv. destruct Hv as (p & <- & Hp).
    apply In_findSkinPixels in Hp. tauto. }
  assert (Hin' : forall v, In v (map py skinPixels) -> 0 <= v < ch).
  { intros v Hv. apply in_map_iff in Hv. destruct Hv as (p & <- & Hp).
    apply In_findSkinPixels in Hp. tauto. }
  pose proof (IsMin_le_IsMax _ _ _ Hx1 Hx2).
  pose proof (IsMin_le_IsMax _ _ _ Hy1 Hy2).
  pose proof (Hin _ (proj1 Hx1)). pose proof (Hin _ (proj1 Hx2)).
  pose proof (Hin' _ (proj1 Hy1)). pose proof (Hin' _ (proj1 Hy2)).
  repeat (split; [ first [ assumption | lia ] | ]). lia.
Qed.

Lemma Prim2SF_infinity : Prim2SF infinity = S754_infinity false.
Proof. reflexivity. Qed.

(** C6: when the collected region is a single row (maxY = minY), the candidate
    height is zero, the aspect ratio evaluates to +infinity without any
    fault, and the fallback resolves with no box. *)
Theorem single_row_region_rejected
    (P : Platform) (img : HTMLImageElement) (data : list Z)
    (minX maxX minY maxY : Z) :
  let cw := canvasWidth img in
  let ch := canvasHeight img in
  let skinPixels := findSkinPixels data cw ch in
  let candidate := candidateBox (scaleOf img) (minX, maxX, minY, maxY) in
  wellFormedImage img ->
  hasContext2d P = true ->
  readRaster P img cw ch = Normal data ->
  100 <= Z.of_nat (List.length skinPixels) ->
  findBounds cw ch skinPixels = (minX, maxX, minY, maxY) ->
  maxY = minY ->
  (height candidate =? 0)%float = true
  /\ (width candidate / height candidate)%float = infinity
  /\ detectFaceWithCanvas P img = Normal None.
Proof.
  intros cw ch skinPixels candidate Hwf Hctx Hdata Hcount Hbounds Hrow.
  assert (Hne : skinPixels <> []).
  { intros E. rewrite E in Hcount. simpl in Hcount. lia. }
  destruct (findBounds_ranges img data Hne)
    as (minX' & maxX' & minY' & maxY' & Hb & Hx1 & Hx2 & Hy1 & Hy2 & Rx & Rx' & Ry & Ry').
  fold cw ch skinPixels in Hb. rewrite Hbounds in Hb.
  inversion Hb; subst minX' maxX' minY' maxY'. clear Hb.
  pose proof (scaleOf_pnormal img Hwf) as Hs.
  assert (Hext : 1 <= maxX - minX \/ 1 <= maxY - minY).
  { apply (extent_positive skinPixels); auto.
    - apply NoDup_findSkinPixels.
    - lia. }
  assert (HdX : 1 <= maxX - minX) by lia.
  destruct (coordinate_rescaled (maxX - minX) (scaleOf img)) as [[E _] | [_ Hw]];
    [ lia | assumption | lia | ].
  destruct (head_height_rescaled (maxY - minY) (scaleOf img)) as [[_ Hh] | [E _]];
    [ lia | assumption | | lia ].
  assert (Hw' : pnormal (-62) 68 (width candidate)) by exact Hw.
  assert (Hh' : pzero (height candidate)) by exact Hh.
  destruct (validateBox_flat _ _ candidate Hw' Hh') as [_ Hnone].
  repeat apply conj.
  - rewrite eqb_spec, Hh', Prim2SF_zero. reflexivity.
  - apply Prim2SF_inj. rewrite Prim2SF_infinity.
    apply (pnormal_div_pzero _ _ _ _ Hw' Hh').
  - rewrite (detectFaceWithCanvas_scan P img data Hctx Hdata).
    fold cw ch skinPixels.
    rewrite boxFromSkinPixels_enough by assumption.
    rewrite Hbounds. fold candidate. rewrite Hnone. reflexivity.
Qed.

Lemma banner_bounds :
  findBounds (canvasWidth bannerImage) (canvasHeight bannerImage)
    (findSkinPixels (rasterOf allSkin (canvasWidth bannerImage) (canvasHeight bannerImage))
       (canvasWidth bannerImage) (canvasHeight bannerImage))
  = (0, 299, 0, 0)%Z.
Proof. vm_compute. reflexivity. Qed.

Lemma single_row_region_rejected_witness :
  (height (candidateBox (scaleOf bannerImage) (0, 299, 0, 0)%Z) =? 0)%float = true
  /\ (width (candidateBox (scaleOf bannerImage) (0, 299, 0, 0)%Z)
      / height (candidateBox (scaleOf bannerImage) (0, 299, 0, 0)%Z))%float = infinity
  /\ detectFaceWithCanvas (canvasPlatform allSkin) bannerImage = Normal None.
Proof.
  apply (single_row_region_rejected (canvasPlatform allSkin) bannerImage
           (rasterOf allSkin (canvasWidth bannerImage) (canvasHeight bannerImage))
           0 299 0 0)%Z.
  - unfold wellFormedImage, bannerImage. simpl. lia.
  - reflexivity.
  - reflexivity.
  - rewrite banner_skin_count. lia.
  - exact banner_bounds.
  - reflexivity.
Defined.

(** The classes of the fields of the candidate box, for a scan that passed
    the pixel-count test: its corner is not negative, and its width and
    height are not both zero. *)
Lemma candidate_classes (img : HTMLImageElement) (data : list Z) :
  let cw := canvasWidth img in
  let ch := canvasHeight img in
  let skinPixels := findSkinPixels data cw ch in
  let candidate := candidateBox (scaleOf img) (findBounds cw ch skinPixels) in
  wellFormedImage img ->
  100 <= Z.of_nat (List.length skinPixels) ->
  ((pnormal (-62) 68 (width candidate) /\ pzero (height candidate)) \/
   (pzero (width candidate) /\ pnormal (-63) 69 (height candidate)) \/
   (pnormal (-62) 68 (width candidate) /\ pnormal (-63) 69 (height candidate)))
  /\ (pzero (x candidate) \/ pnormal (-62) 68 (x candidate))
  /\ (pzero (y candidate) \/ pnormal (-62) 68 (y candidate)).
Proof.
  intros cw ch skinPixels candidate Hwf Hcount.
  assert (Hne : skinPixels <> []).
  { intros E. rewrite E in Hcount. simpl in Hcount. lia. }
  destruct (findBounds_ranges img data Hne)
    as (minX & maxX & minY & maxY & Hb & Hx1 & Hx2 & Hy1 & Hy2 & Rx & Rx' & Ry & Ry').
  fold cw ch skinPixels in Hb. unfold candidate. rewrite Hb. clear candidate.
  pose proof (scaleOf_pnormal img Hwf) as Hs.
  assert (Hext : 1 <= maxX - minX \/ 1 <= maxY - minY).
  { apply (extent_positive skinPixels); auto.
    - apply NoDup_findSkinPixels.
    - lia. }
  cbn [candidateBox x y width height].
  split; [ | split ].
  - destruct (coordinate_rescaled (maxX - minX) (scaleOf img)) as [[Ew Hw] | [Ew Hw]];
      [ lia | assumption | | ];
    destruct (head_height_rescaled (maxY - minY) (scaleOf img)) as [[Eh Hh] | [Eh Hh]];
      try lia; try assumption; auto.
  - destruct (coordinate_rescaled minX (scaleOf img)) as [[_ H] | [_ H]];
      [ lia | assumption | left; exact H | right; exact H ].
  - destruct (coordinate_rescaled minY (scaleOf img)) as [[_ H] | [_ H]];
      [ lia | assumption | left; exact H | right; exact H ].
Qed.

Lemma SFcompare_total (a b : spec_float) :
  SFcompare a b = None -> a = S754_nan \/ b = S754_nan.
Proof.
  destruct a as [sa | sa | | sa ma ea], b as [sb | sb | | sb mb eb]; simpl;
    try discriminate; auto.
Qed.

Lemma is_nan_spec (a : float) : is_nan a = false -> Prim2SF a <> S754_nan.
Proof.
  unfold is_nan. rewrite eqb_spec. intros H E. rewrite E in H. discriminate.
Qed.

(** On numbers, "not below or equal" is "above". *)
Lemma not_leb_gt (a b : float) :
  is_nan a = false -> is_nan b = false ->
  (a <=? b)%float = false -> (b <? a)%float = true.
Proof.
  intros Ha Hb. apply is_nan_spec in Ha. apply is_nan_spec in Hb.
  rewrite leb_spec, ltb_spec. unfold SFleb, SFltb.
  rewrite (SFcompare_antisym (Prim2SF a) (Prim2SF b)).
  destruct (SFcompare (Prim2SF a) (Prim2SF b)) as [ [ | | ] | ] eqn:E; simpl;
    try congruence.
  destruct (SFcompare_total _ _ E); contradiction.
Qed.

Lemma pzero_not_nan (a : float) : pzero a -> is_nan a = false.
Proof. intros H. unfold is_nan. rewrite eqb_spec, H. reflexivity. Qed.

Lemma pinfinity_not_nan (a : float) : pinfinity a -> is_nan a = false.
Proof. intros H. unfold is_nan. rewrite eqb_spec, H. reflexivity. Qed.

(** C5: a candidate box whose aspect ratio width / height is below 0.5 or
    above 1.5 makes the fallback resolve with no box, nothing else being
    tried.  For an image of at least one pixel in each direction the ratio
    is a number, so that these are the only ways of lying outside
    [0.5, 1.5].  A box of width 10 and height 100 has ratio 0.1 and is
    rejected. *)
Theorem implausible_aspect_ratio_rejected :
  (forall (P : Platform) (img : HTMLImageElement) (data : list Z),
     let cw := canvasWidth img in
     let ch := canvasHeight img in
     let skinPixels := findSkinPixels data cw ch in
     let candidate := candidateBox (scaleOf img) (findBounds cw ch skinPixels) in
     let aspectRatio := (width candidate / height candidate)%float in
     hasContext2d P = true ->
     readRaster P img cw ch = Normal data ->
     100 <= Z.of_nat (List.length skinPixels) ->
     ((aspectRatio <? 0.5)%float = true \/ (1.5 <? aspectRatio)%float = true ->
      detectFaceWithCanvas P img = Normal None)
     /\ (wellFormedImage img ->
         is_nan aspectRatio = false /\
         (((0.5 <=? aspectRatio)%float && (aspectRatio <=? 1.5)%float) = false ->
          detectFaceWithCanvas P img = Normal None)))
  /\ (forall faceBox : FaceBox,
        width faceBox = 10%float -> height faceBox = 100%float ->
        (width faceBox / height faceBox)%float = 0.1%float /\
        validateBox faceBox = None).
Proof.
  split.
  - intros P img data cw ch skinPixels candidate aspectRatio Hctx Hdata Hcount.
    assert (Hrej : (aspectRatio <? 0.5)%float = true \/ (1.5 <? aspectRatio)%float = true ->
                   detectFaceWithCanvas P img = Normal None).
    { intros Hratio.
      rewrite (detectFaceWithCanvas_scan P img data Hctx Hdata).
      fold cw ch skinPixels.
      rewrite boxFromSkinPixels_enough by assumption.
      fold candidate. unfold validateBox. fold aspectRatio.
      destruct Hratio as [-> | ->]; [ reflexivity | rewrite orb_true_r; reflexivity ]. }
    split; [ exact Hrej | ].
    intros Hwf.
    assert (Hnum : is_nan aspectRatio = false).
    { destruct (candidate_classes img data Hwf Hcount) as [Hc _].
      fold cw ch skinPixels candidate in Hc. unfold aspectRatio.
      destruct Hc as [[Hw Hh] | [[Hw Hh] | [Hw Hh]]].
      - apply pinfinity_not_nan. apply (pnormal_div_pzero _ _ _ _ Hw Hh).
      - apply pzero_not_nan. apply (pzero_div_pnormal _ _ _ _ Hw Hh).
      - apply (pnormal_not_nan (-184) 80).
        apply (div_pnormal _ _ _ _ _ _ Hw Hh); lia. }
    split; [ exact Hnum | ].
    intros Hout. apply Hrej. apply andb_false_iff in Hout.
    destruct Hout as [Hout | Hout].
    + left. apply not_leb_gt; [ reflexivity | assumption | assumption ].
    + right. apply not_leb_gt; [ assumption | reflexivity | assumption ].
  - intros faceBox Hw Hh. unfold validateBox. rewrite Hw, Hh. split; reflexivity.
Qed.

Lemma implausible_aspect_ratio_rejected_witness :
  detectFaceWithCanvas (canvasPlatform allSkin) bannerImage = Normal None.
Proof.
  assert (Hcount : 100 <= Z.of_nat (List.length
            (findSkinPixels
               (rasterOf allSkin (canvasWidth bannerImage) (canvasHeight bannerImage))
               (canvasWidth bannerImage) (canvasHeight bannerImage))))
    by (rewrite banner_skin_count; lia).
  apply (proj1 (proj1 implausible_aspect_ratio_rejected
                  (canvasPlatform allSkin) bannerImage
                  (rasterOf allSkin (canvasWidth bannerImage) (canvasHeight bannerImage))
                  eq_refl eq_refl Hcount)).
  right. vm_compute. reflexivity.
Defined.

(** The classes of the four fields of a box that the fallback returns. *)
Lemma fallback_box_classes
    (P : Platform) (img : HTMLImageElement) (faceBox : FaceBox) :
  wellFormedImage img ->
  detectFaceWithCanvas P img = Normal (Some faceBox) ->
  pnormal (-62) 68 (width faceBox) /\ pnormal (-63) 69 (height faceBox) /\
  (pzero (x faceBox) \/ pnormal (-62) 68 (x faceBox)) /\
  (pzero (y faceBox) \/ pnormal (-62) 68 (y faceBox)).
Proof.
  intros Hwf Hdet. unfold detectFaceWithCanvas in Hdet.
  destruct (hasContext2d P); simpl in Hdet; [ | discriminate ].
  destruct (readRaster P img (canvasWidth img) (canvasHeight img)) as [ data | e ];
    simpl in Hdet; [ | discriminate ].
  injection Hdet as Hbox. unfold boxFromSkinPixels in Hbox.
  destruct (Z.ltb_spec (Z.of_nat (List.length
              (findSkinPixels data (canvasWidth img) (canvasHeight img)))) 100)
    as [ | Hcount ]; [ discriminate | ].
  destruct (candidate_classes img data Hwf Hcount) as (Hc & Hx & Hy).
  set (candidate := candidateBox _ _) in *.
  destruct Hc as [[Hw Hh] | [[Hw Hh] | [Hw Hh]]].
  - rewrite (proj2 (validateBox_flat _ _ candidate Hw Hh)) in Hbox. discriminate.
  - rewrite (validateBox_thin _ _ candidate Hw Hh) in Hbox. discriminate.
  - assert (faceBox = candidate).
    { unfold validateBox in Hbox. destruct (_ || _) in Hbox; congruence. }
    subst faceBox. auto.
Qed.

(** C8: a box returned by the fallback for an image of at least one pixel in
    each direction has width > 0, height > 0, x >= 0 and y >= 0. *)
Theorem fallback_box_positive
    (P : Platform) (img : HTMLImageElement) (faceBox : FaceBox) :
  wellFormedImage img ->
  detectFaceWithCanvas P img = Normal (Some faceBox) ->
  (0 <? width faceBox)%float = true /\ (0 <? height faceBox)%float = true /\
  (0 <=? x faceBox)%float = true /\ (0 <=? y faceBox)%float = true.
Proof.
  intros Hwf Hdet.
  destruct (fallback_box_classes P img faceBox Hwf Hdet) as (Hw & Hh & Hx & Hy).
  repeat apply conj.
  - exact (pnormal_gt_zero _ _ _ Hw).
  - exact (pnormal_gt_zero _ _ _ Hh).
  - destruct Hx as [H | H];
      [ exact (pzero_ge_zero _ H) | exact (pnormal_ge_zero _ _ _ H) ].
  - destruct Hy as [H | H];
      [ exact (pzero_ge_zero _ H) | exact (pnormal_ge_zero _ _ _ H) ].
Qed.

Lemma strip_detection :
  detectFaceWithCanvas (canvasPlatform headOnBlue) stripImage
  = Normal (Some (candidateBox (scaleOf stripImage) (0, 7, 0, 12))).
Proof. vm_compute. reflexivity. Qed.

Lemma fallback_box_positive_witness :
  let faceBox := candidateBox (scaleOf stripImage) (0, 7, 0, 12) in
  (0 <? width faceBox)%float = true /\ (0 <? height faceBox)%float = true /\
  (0 <=? x faceBox)%float = true /\ (0 <=? y faceBox)%float = true.
Proof.
  apply (fallback_box_positive (canvasPlatform headOnBlue) stripImage).
  - unfold wellFormedImage, stripImage. simpl. lia.
  - exact strip_detection.
Defined.

(** ** The hook *)

(** C3: for a box obtained by either path, the result carries
    eyeLineY = ((y + height * 0.35) / imgHeight) * 100 and
    chinY = ((y + height) / imgHeight) * 100, neither being clamped; with
    y = 100, height = 200 and an image height of 1000 these are 17 and 30. *)
Theorem landmark_formulas :
  (forall (P : Platform) (img : HTMLImageElement) (st : HookState) (faceBox : FaceBox),
     obtainFaceBox P img = Normal (Some faceBox) ->
     let imgHeight := Z2F (naturalHeight img) in
     snd (detectFace P img st)
     = Normal (Some {| face := Some faceBox;
                       eyeLineY := Some ((y faceBox + height faceBox * 0.35)
                                         / imgHeight * 100)%float;
                       chinY := Some ((y faceBox + height faceBox)
                                      / imgHeight * 100)%float |}))
  /\ (forall faceBox : FaceBox,
        y faceBox = 100%float -> height faceBox = 200%float ->
        landmarks faceBox (Z2F 1000) = (17%float, 30%float)).
Proof.
  split.
  - intros P img st faceBox Hbox imgHeight. subst imgHeight.
    unfold detectFace. rewrite Hbox. reflexivity.
  - intros faceBox Hy Hh. unfold landmarks. rewrite Hy, Hh. reflexivity.
Qed.

Lemma landmark_formulas_witness :
  snd (detectFace (nativePlatform [mkFaceBox 40 100 150 200])
         {| naturalWidth := 800; naturalHeight := 1000 |} idleState)
  = Normal (Some {| face := Some (mkFaceBox 40 100 150 200);
                    eyeLineY := Some 17%float;
                    chinY := Some 30%float |}).
Proof.
  apply (proj1 landmark_formulas (nativePlatform [mkFaceBox 40 100 150 200])
           {| naturalWidth := 800; naturalHeight := 1000 |} idleState
           (mkFaceBox 40 100 150 200)); reflexivity.
Defined.



(** C9: once [detectFace] has settled, whether with a result, with no
    detection or after a fault, [isDetecting] is false again. *)
Theorem detectFace_returns_to_idle
    (P : Platform) (img : HTMLImageElement) (st : HookState) :
  isDetecting (fst (detectFace P img st)) = false.
Proof.
  unfold detectFace.
  destruct (obtainFaceBox P img) as [ [ faceBox | ] | error ]; reflexivity.
Qed.

(** ** Landmarks of the fallback *)

Lemma eye_ratio_pnormal : pnormal (-54) (-54) 0.35%float.
Proof. pnormal_constant. Qed.

Lemma percent_pnormal : pnormal (-46) (-46) 100%float.
Proof. pnormal_constant. Qed.

Lemma pzero_add_pnormal (lo hi : Z) (a b : float) :
  pzero a -> pnormal lo hi b -> (a + b)%float = b.
Proof.
  intros Ha (m & e & Hb & _). apply Prim2SF_inj.
  rewrite add_spec, Ha, Hb. reflexivity.
Qed.

(** The two landmark lines of a box whose top is not negative and whose
    height is positive. *)
Lemma landmarks_ordered (faceBox : FaceBox) (imgHeight : float) :
  pzero (y faceBox) \/ pnormal (-62) 68 (y faceBox) ->
  pnormal (-63) 69 (height faceBox) ->
  pnormal (-52) 11 imgHeight ->
  let '(eyeLineY, chinY) := landmarks faceBox imgHeight in
  (0 <=? eyeLineY)%float = true /\ (eyeLineY <=? chinY)%float = true.
Proof.
  intros Hy Hh HH. unfold landmarks.
  set (top := y faceBox) in *. set (h := height faceBox) in *.
  pose proof (mul_pnormal _ _ _ _ _ _ Hh eye_ratio_pnormal ltac:(lia) ltac:(lia)) as Ha.
  simpl Z.add in Ha.
  assert (Hah : (h * 0.35 <=? h)%float = true).
  { apply (mul_le_self (-63) 69 (-54) (-54) h 0.35%float Hh eye_ratio_pnormal); lia. }
  assert (Hsum : exists u v,
             u = (top + h * 0.35)%float /\ v = (top + h)%float /\
             pnormal (-65) 71 u /\ pnormal (-65) 71 v /\ (u <=? v)%float = true).
  { exists (top + h * 0.35)%float, (top + h)%float.
    split; [ reflexivity | split; [ reflexivity | ] ].
    destruct Hy as [Hz | Hn].
    - rewrite (pzero_add_pnormal _ _ _ _ Hz Ha), (pzero_add_pnormal _ _ _ _ Hz Hh).
      split; [ | split; [ | exact Hah ] ].
      + apply (pnormal_weaken _ _ _ _ _ Ha); lia.
      + apply (pnormal_weaken _ _ _ _ _ Hh); lia.
    - split; [ | split ].
      + pose proof (add_pnormal _ _ _ _ _ _ Hn Ha ltac:(lia) ltac:(lia)) as Hu.
        apply (pnormal_weaken _ _ _ _ _ Hu); lia.
      + pose proof (add_pnormal _ _ _ _ _ _ Hn Hh ltac:(lia) ltac:(lia)) as Hv.
        apply (pnormal_weaken _ _ _ _ _ Hv); lia.
      + apply (add_le_mono_l (-65) 69 (-62) 68 (h * 0.35)%float h top); try lia.
        * apply (pnormal_weaken _ _ _ _ _ Ha); lia.
        * apply (pnormal_weaken _ _ _ _ _ Hh); lia.
        * exact Hn.
        * exact Hah. }
  destruct Hsum as (u & v & <- & <- & Hu & Hv & Huv).
  pose proof (div_pnormal _ _ _ _ _ _ Hu HH ltac:(lia) ltac:(lia)) as Hu'.
  pose proof (div_pnormal _ _ _ _ _ _ Hv HH ltac:(lia) ltac:(lia)) as Hv'.
  simpl Z.sub in Hu', Hv'.
  assert (Hdiv : (u / imgHeight <=? v / imgHeight)%float = true).
  { apply (div_le_mono_r (-65) 71 (-52) 11 u v imgHeight); auto; lia. }
  pose proof (mul_pnormal _ _ _ _ _ _ Hu' percent_pnormal ltac:(lia) ltac:(lia)) as He.
  split.
  - exact (pnormal_ge_zero _ _ _ He).
  - apply (mul_le_mono_r (-129) 72 (-46) (-46) _ _ 100%float); auto; try lia.
    apply percent_pnormal.
Qed.

(** C10: a result produced through the canvas fallback has
    0 <= eyeLineY <= chinY. *)
Theorem fallback_landmarks_ordered
    (P : Platform) (img : HTMLImageElement) (st : HookState)
    (result : FaceDetectionResult) :
  wellFormedImage img ->
  isFaceDetectorSupported P = false ->
  snd (detectFace P img st) = Normal (Some result) ->
  exists eye chin,
    eyeLineY result = Some eye /\ chinY result = Some chin /\
    (0 <=? eye)%float = true /\ (eye <=? chin)%float = true.
Proof.
  intros Hwf Hnative Hres.
  unfold detectFace, obtainFaceBox in Hres. rewrite Hnative in Hres.
  destruct (detectFaceWithCanvas P img) as [ [ faceBox | ] | error ] eqn:Hdet;
    cbn in Hres; try discriminate.
  destruct (fallback_box_classes P img faceBox Hwf Hdet) as (_ & Hh & _ & Hy).
  assert (HH : pnormal (-52) 11 (Z2F (naturalHeight img))).
  { apply Z2F_pnormal. destruct Hwf as [_ Hn]. lia. }
  pose proof (landmarks_ordered faceBox _ Hy Hh HH) as Hord.
  unfold landmarks in Hord, Hres.
  injection Hres as <-. cbn [eyeLineY chinY]. eauto.
Qed.

Lemma fallback_landmarks_ordered_witness :
  exists eye chin,
    eyeLineY stripResult = Some eye /\ chinY stripResult = Some chin /\
    (0 <=? eye)%float = true /\ (eye <=? chin)%float = true.
Proof.
  apply (fallback_landmarks_ordered (canvasPlatform headOnBlue) stripImage idleState
           stripResult).
  - unfold wellFormedImage, stripImage. simpl. lia.
  - reflexivity.
  - unfold detectFace, obtainFaceBox. cbn [isFaceDetectorSupported canvasPlatform].
    rewrite strip_detection. reflexivity.
Defined.


(** * Further properties *)

(** ** More on the scan *)

(** A recorded coordinate was classified as skin. *)
Lemma In_findSkinPixels_skin (data : list Z) (cw ch : Z) (p : Pixel) :
  In p (findSkinPixels data cw ch) ->
  let i := (py p * cw + px p) * 4 in
  isSkinTone (dataAt data i) (dataAt data (i + 1)) (dataAt data (i + 2)) = true.
Proof.
  unfold findSkinPixels, scanRow. rewrite in_flat_map.
  intros (row & Hrow & Hp). apply in_flat_map in Hp.
  destruct Hp as (col & Hcol & Hp).
  destruct (isSkinTone _ _ _) eqn:Hskin; simpl in Hp; [ | tauto ].
  destruct Hp as [<- | []]. simpl. exact Hskin.
Qed.

(** X1: the scan records exactly the coordinates of the canvas whose colour
    is classified as skin. *)
Theorem findSkinPixels_exact (data : list Z) (cw ch : Z) (p : Pixel) :
  In p (findSkinPixels data cw ch) <->
  0 <= px p < cw /\ 0 <= py p < ch /\
  let i := (py p * cw + px p) * 4 in
  isSkinTone (dataAt data i) (dataAt data (i + 1)) (dataAt data (i + 2)) = true.
Proof.
  split.
  - intros Hp. destruct (In_findSkinPixels _ _ _ _ Hp) as [Hx Hy].
    split; [ exact Hx | split; [ exact Hy | ] ].
    exact (In_findSkinPixels_skin _ _ _ _ Hp).
  - intros (Hx & Hy & Hskin). unfold findSkinPixels, scanRow.
    apply in_flat_map. exists (py p). split; [ apply In_upto; assumption | ].
    apply in_flat_map. exists (px p). split; [ apply In_upto; assumption | ].
    cbv zeta in Hskin. rewrite Hskin. destruct p. left. reflexivity.
Qed.


Lemma length_upto (n : Z) : Z.of_nat (List.length (upto n)) = Z.max 0 n.
Proof. unfold upto. rewrite length_map, length_seq. lia. Qed.

Lemma length_flat_map_le {A B} (f : A -> list B) (l : list A) (k : nat) :
  (forall a, In a l -> (List.length (f a) <= k)%nat) ->
  (List.length (flat_map f l) <= List.length l * k)%nat.
Proof.
  intros H. induction l as [ | a l IH ]; simpl; [ lia | ].
  rewrite length_app.
  assert (List.length (f a) <= k)%nat by (apply H; left; reflexivity).
  assert (List.length (flat_map f l) <= List.length l * k)%nat
    by (apply IH; intros; apply H; right; assumption).
  lia.
Qed.

Lemma length_findSkinPixels (data : list Z) (cw ch : Z) :
  Z.of_nat (List.length (findSkinPixels data cw ch)) <= Z.max 0 cw * Z.max 0 ch.
Proof.
  unfold findSkinPixels.
  pose proof (length_flat_map_le (scanRow data cw) (upto ch) (Z.to_nat cw)) as H.
  assert (Hrow : forall row, In row (upto ch) ->
                   (List.length (scanRow data cw row) <= Z.to_nat cw)%nat).
  { intros row _. unfold scanRow.
    pose proof (length_flat_map_le
      (fun x0 => if isSkinTone (dataAt data ((row * cw + x0) * 4))
                      (dataAt data ((row * cw + x0) * 4 + 1))
                      (dataAt data ((row * cw + x0) * 4 + 2))
                 then [mkPixel x0 row] else []) (upto cw) 1) as Hr.
    assert (Hlen : (List.length (upto cw) = Z.to_nat cw)%nat)
      by (unfold upto; rewrite length_map, length_seq; reflexivity).
    rewrite Hlen in Hr. rewrite Nat.mul_1_r in Hr. apply Hr.
    intros c _. destruct (isSkinTone _ _ _); simpl; lia. }
  specialize (H Hrow).
  pose proof (length_upto ch). nia.
Qed.

(** X2: no coordinate is recorded twice, and at most one per pixel of the
    canvas, so that [skinPixels.length] counts distinct pixels and never
    exceeds the area of the canvas. *)
Theorem findSkinPixels_distinct (data : list Z) (cw ch : Z) :
  NoDup (findSkinPixels data cw ch) /\
  Z.of_nat (List.length (findSkinPixels data cw ch)) <= Z.max 0 cw * Z.max 0 ch.
Proof. split; [ apply NoDup_findSkinPixels | apply length_findSkinPixels ]. Qed.


(** ** Channels that are not numbers *)

Lemma SFcompare_refl (a : spec_float) : a <> S754_nan -> SFcompare a a = Some Eq.
Proof.
  destruct a as [s | s | | s m e]; intros H; try congruence; simpl;
    destruct s; try reflexivity;
    rewrite Z.compare_refl, Pos.compare_cont_refl; reflexivity.
Qed.

Lemma is_nan_true (a : float) : is_nan a = true <-> Prim2SF a = S754_nan.
Proof.
  unfold is_nan. rewrite eqb_spec. unfold SFeqb. split.
  - intros H. destruct (Prim2SF a) as [s | s | | s m e] eqn:E; try reflexivity;
      rewrite SFcompare_refl in H by congruence; discriminate.
  - intros ->. reflexivity.
Qed.

Lemma mul_nan_r (c a : float) : is_nan a = true -> is_nan (c * a) = true.
Proof.
  rewrite !is_nan_true, mul_spec. intros ->.
  destruct (Prim2SF c); reflexivity.
Qed.

Lemma add_nan_l (a b : float) : is_nan a = true -> is_nan (a + b) = true.
Proof. rewrite !is_nan_true, add_spec. intros ->. reflexivity. Qed.

Lemma add_nan_r (a b : float) : is_nan b = true -> is_nan (a + b) = true.
Proof.
  rewrite !is_nan_true, add_spec. intros ->. destruct (Prim2SF a); reflexivity.
Qed.

Lemma ltb_nan_r (a b : float) : is_nan b = true -> (a <? b)%float = false.
Proof.
  rewrite is_nan_true, ltb_spec. intros ->. unfold SFltb.
  destruct (Prim2SF a); reflexivity.
Qed.

(** X3: a sample with a channel that is not a number (what [data[i]] gives
    beyond the end of the buffer) is never classified as skin, so the scan
    records no coordinate whose three channels are not all inside the
    buffer. *)
Theorem missing_channel_not_skin :
  (forall r g b : float,
     is_nan r = true \/ is_nan g = true \/ is_nan b = true ->
     isSkinTone r g b = false)
  /\ (forall (data : list Z) (cw ch : Z) (p : Pixel),
        In p (findSkinPixels data cw ch) ->
        (py p * cw + px p) * 4 + 2 < Z.of_nat (List.length data)).
Proof.
  assert (Hnan : forall r g b : float,
            is_nan r = true \/ is_nan g = true \/ is_nan b = true ->
            isSkinTone r g b = false).
  { intros r g b H. rewrite isSkinTone_unfold.
    assert (Hy : is_nan (luma r g b) = true).
    { unfold luma. destruct H as [H | [H | H]].
      - apply add_nan_l, add_nan_l, mul_nan_r, H.
      - apply add_nan_l, add_nan_r, mul_nan_r, H.
      - apply add_nan_r, mul_nan_r, H. }
    rewrite (ltb_nan_r _ _ Hy). reflexivity. }
  split; [ exact Hnan | ].
  intros data cw ch p Hp. pose proof (In_findSkinPixels_skin _ _ _ _ Hp) as Hskin.
  cbv zeta in Hskin.
  set (i := (py p * cw + px p) * 4) in *.
  destruct (Z_lt_le_dec (i + 2) (Z.of_nat (List.length data))) as [ | Hout ];
    [ assumption | exfalso ].
  assert (Hb : is_nan (dataAt data (i + 2)) = true).
  { unfold dataAt. destruct (i + 2 <? 0); [ reflexivity | ].
    destruct (nth_error data (Z.to_nat (i + 2))) eqn:E; [ | reflexivity ].
    assert (Z.to_nat (i + 2) < List.length data)%nat
      by (apply nth_error_Some; congruence).
    lia. }
  rewrite Hnan in Hskin by auto. discriminate.
Qed.

(** X4: a grey sample (three equal channels in [0, 255]) is never classified
    as skin. *)
Theorem grey_not_skin (v : Z) :
  0 <= v <= 255 -> isSkinTone (Z2F v) (Z2F v) (Z2F v) = false.
Proof.
  intros Hv.
  assert (Hall : forallb (fun u => negb (isSkinTone (Z2F u) (Z2F u) (Z2F u))) (upto 256)
                 = true) by (vm_compute; reflexivity).
  rewrite forallb_forall in Hall.
  specialize (Hall v ltac:(apply In_upto; lia)).
  destruct (isSkinTone (Z2F v) (Z2F v) (Z2F v)); [ discriminate | reflexivity ].
Qed.

Lemma grey_not_skin_witness : isSkinTone (Z2F 128) (Z2F 128) (Z2F 128) = false.
Proof. apply (grey_not_skin 128). lia. Defined.

(** ** More on the hook *)

(** X5: with a platform detector, the first reported box is taken as it is,
    further boxes are ignored, no box gives no detection, and the canvas
    plays no part: two browsers whose detectors answer alike give the same
    outcome whatever their canvases do. *)
Theorem native_path_ignores_canvas
    (P P' : Platform) (img : HTMLImageElement) (st : HookState) :
  isFaceDetectorSupported P = true ->
  isFaceDetectorSupported P' = true ->
  nativeDetect P img = nativeDetect P' img ->
  detectFace P img st = detectFace P' img st
  /\ (forall first others,
        nativeDetect P img = Normal (first :: others) ->
        exists eye chin,
          snd (detectFace P img st)
          = Normal (Some {| face := Some first;
                            eyeLineY := Some eye; chinY := Some chin |}))
  /\ (nativeDetect P img = Normal [] -> snd (detectFace P img st) = Normal None).
Proof.
  intros HP HP' Hsame.
  assert (Hbox : obtainFaceBox P img = obtainFaceBox P' img)
    by (unfold obtainFaceBox; rewrite HP, HP', Hsame; reflexivity).
  split; [ unfold detectFace; rewrite Hbox; reflexivity | split ].
  - intros first others Hfaces. unfold detectFace, obtainFaceBox.
    rewrite HP, Hfaces. destruct first. cbn. eauto.
  - intros Hfaces. unfold detectFace, obtainFaceBox. rewrite HP, Hfaces. reflexivity.
Qed.

Lemma native_path_ignores_canvas_witness :
  detectFace (nativePlatform [mkFaceBox 40 100 150 200; mkFaceBox 1 2 3 4])
    stripImage idleState
  = detectFace
      {| isFaceDetectorSupported := true;
         nativeDetect := fun _ => Normal [mkFaceBox 40 100 150 200; mkFaceBox 1 2 3 4];
         hasContext2d := false;
         readRaster := fun _ _ _ => Throw "SecurityError"%string |}
      stripImage idleState.
Proof.
  apply (native_path_ignores_canvas
           (nativePlatform [mkFaceBox 40 100 150 200; mkFaceBox 1 2 3 4])); reflexivity.
Defined.


(** X7: the outcome of a call owes nothing to the state it starts from: the
    returned value, the cached result and the busy flag are the same from
    any two states.  The console keeps what it held; it grows by one entry
    when a fault was caught and not otherwise. *)
Theorem detectFace_forgets_previous_state
    (P : Platform) (img : HTMLImageElement) (st st' : HookState) :
  snd (detectFace P img st) = snd (detectFace P img st')
  /\ detectionResult (fst (detectFace P img st))
     = detectionResult (fst (detectFace P img st'))
  /\ isDetecting (fst (detectFace P img st)) = isDetecting (fst (detectFace P img st'))
  /\ (forall box, obtainFaceBox P img = Normal box ->
        console (fst (detectFace P img st)) = console st)
  /\ (forall error, obtainFaceBox P img = Throw error ->
        console (fst (detectFace P img st))
        = ("Face detection error:"%string, error) :: console st).
Proof.
  unfold detectFace.
  destruct (obtainFaceBox P img) as [ [ faceBox | ] | error ]; cbn;
    repeat split; try reflexivity; try discriminate.
  intros e [= <-]. reflexivity.
Qed.


(** ** The box that the fallback returns *)

Lemma not_ltb_ge (a b : float) :
  is_nan a = false -> is_nan b = false ->
  (a <? b)%float = false -> (b <=? a)%float = true.
Proof.
  intros Ha Hb. apply is_nan_spec in Ha. apply is_nan_spec in Hb.
  rewrite leb_spec, ltb_spec. unfold SFleb, SFltb.
  rewrite (SFcompare_antisym (Prim2SF a) (Prim2SF b)).
  destruct (SFcompare (Prim2SF a) (Prim2SF b)) as [ [ | | ] | ] eqn:E; simpl;
    try congruence.
  destruct (SFcompare_total _ _ E); contradiction.
Qed.

Lemma detectFaceWithCanvas_validated
    (P : Platform) (img : HTMLImageElement) (faceBox : FaceBox) :
  detectFaceWithCanvas P img = Normal (Some faceBox) ->
  validateBox faceBox = Some faceBox.
Proof.
  intros Hdet. unfold detectFaceWithCanvas in Hdet.
  destruct (hasContext2d P); simpl in Hdet; [ | discriminate ].
  destruct (readRaster P img (canvasWidth img) (canvasHeight img)) as [ data | e ];
    simpl in Hdet; [ | discriminate ].
  injection Hdet as Hbox. unfold boxFromSkinPixels in Hbox.
  destruct (_ <? 100); [ discriminate | ].
  set (candidate := candidateBox _ _) in *.
  assert (faceBox = candidate).
  { unfold validateBox in Hbox. destruct (_ || _) in Hbox; congruence. }
  subst faceBox. exact Hbox.
Qed.

(** What the validation lets through, when the ratio is a number. *)
Lemma validateBox_bounds (faceBox : FaceBox) :
  is_nan (width faceBox / height faceBox) = false ->
  validateBox faceBox = Some faceBox ->
  (0.5 <=? width faceBox / height faceBox)%float = true /\
  (width faceBox / height faceBox <=? 1.5)%float = true.
Proof.
  intros Hnum Hval. unfold validateBox in Hval.
  destruct ((width faceBox / height faceBox <? 0.5)%float) eqn:Hlo;
    [ discriminate | ].
  destruct ((1.5 <? width faceBox / height faceBox)%float) eqn:Hhi;
    [ discriminate | ].
  split; apply not_ltb_ge; auto.
Qed.

(** X8: a box returned by the fallback has an aspect ratio width / height
    between 0.5 and 1.5, bounds included. *)
Theorem fallback_box_plausible
    (P : Platform) (img : HTMLImageElement) (faceBox : FaceBox) :
  wellFormedImage img ->
  detectFaceWithCanvas P img = Normal (Some faceBox) ->
  (0.5 <=? width faceBox / height faceBox)%float = true /\
  (width faceBox / height faceBox <=? 1.5)%float = true.
Proof.
  intros Hwf Hdet.
  destruct (fallback_box_classes P img faceBox Hwf Hdet) as (Hw & Hh & _).
  apply validateBox_bounds.
  - apply (pnormal_not_nan (-184) 80). apply (div_pnormal _ _ _ _ _ _ Hw Hh); lia.
  - exact (detectFaceWithCanvas_validated P img faceBox Hdet).
Qed.

Lemma fallback_box_plausible_witness :
  (0.5 <=? width stripBox / height stripBox)%float = true /\
  (width stripBox / height stripBox <=? 1.5)%float = true.
Proof.
  apply (fallback_box_plausible (canvasPlatform headOnBlue) stripImage).
  - unfold wellFormedImage, stripImage. simpl. lia.
  - exact strip_detection.
Defined.

(** ** Error bounds of the operations *)

Module ErrorBounds.

Lemma pnormal_value (lo hi : Z) (f : float) :
  pnormal lo hi f ->
  exists m e, Prim2SF f = S754_finite false m e /\ digits2_pos m = 53%positive
              /\ lo <= e <= hi /\ value f = Zpos m * pw e.
Proof.
  intros (m & e & H & Hd & He). exists m, e. unfold value. rewrite H. auto.
Qed.

Lemma pw_mul (a b : Z) :
  -1200 <= a -> -1200 <= b -> -1200 <= a + b -> pw (a + b) * pw 0 = pw a * pw b.
Proof.
  intros. unfold pw. rewrite <- !Z.pow_add_r by lia. f_equal. lia.
Qed.

Lemma value_pos (lo hi : Z) (f : float) : pnormal lo hi f -> -1200 <= lo -> 0 < value f.
Proof.
  intros H Hlo. destruct (pnormal_value _ _ _ H) as (m & e & _ & _ & He & ->).
  pose proof (pw_pos e ltac:(lia)). nia.
Qed.

Lemma leb_values (lo1 hi1 lo2 hi2 : Z) (a b : float) :
  pnormal lo1 hi1 a -> pnormal lo2 hi2 b -> -1200 <= lo1 -> -1200 <= lo2 ->
  (a <=? b)%float = true -> value a <= value b.
Proof.
  intros Ha Hb Hlo1 Hlo2 Hle.
  destruct (pnormal_value _ _ _ Ha) as (ma & ea & Da & Dma & Hea & ->).
  destruct (pnormal_value _ _ _ Hb) as (mb & eb & Db & Dmb & Heb & ->).
  apply (leb_value a b); auto; lia.
Qed.

Lemma values_leb (lo1 hi1 lo2 hi2 : Z) (a b : float) :
  pnormal lo1 hi1 a -> pnormal lo2 hi2 b ->
  -1200 <= lo1 -> hi1 <= 970 -> -1200 <= lo2 -> hi2 <= 970 ->
  value a <= value b -> (a <=? b)%float = true.
Proof.
  intros Ha Hb Hlo1 Hhi1 Hlo2 Hhi2 Hle.
  destruct (pnormal_value _ _ _ Ha) as (ma & ea & Da & Dma & Hea & Va).
  destruct (pnormal_value _ _ _ Hb) as (mb & eb & Db & Dmb & Heb & Vb).
  rewrite Va, Vb in Hle. rewrite leb_spec, Da, Db.
  apply (rounds_to_le _ _ (Zpos ma) 1 ea (Zpos mb) 1 eb).
  - apply rounds_to_self; auto; lia.
  - apply rounds_to_self; auto; lia.
  - lia.
Qed.

(** Two positive normal numbers of the same value are the same number. *)
Lemma value_inj (lo1 hi1 lo2 hi2 : Z) (a b : float) :
  pnormal lo1 hi1 a -> pnormal lo2 hi2 b -> -1200 <= lo1 -> -1200 <= lo2 ->
  value a = value b -> a = b.
Proof.
  intros Ha Hb Hlo1 Hlo2 Hv.
  destruct (pnormal_value _ _ _ Ha) as (ma & ea & Da & Dma & Hea & Va).
  destruct (pnormal_value _ _ _ Hb) as (mb & eb & Db & Dmb & Heb & Vb).
  rewrite Va, Vb in Hv.
  pose proof (digits2_bounds ma) as B1. rewrite Dma in B1.
  pose proof (digits2_bounds mb) as B2. rewrite Dmb in B2.
  change (2 ^ (53 - 1)) with 4503599627370496 in B1, B2.
  change (2 ^ 53) with 9007199254740992 in *.
  pose proof (pw_pos ea ltac:(lia)). pose proof (pw_pos eb ltac:(lia)).
  assert (ea = eb).
  { destruct (Z.compare_spec ea eb) as [E | E | E]; [ assumption | exfalso | exfalso ].
    - pose proof (pw_lt ea eb ltac:(lia) E). nia.
    - pose proof (pw_lt eb ea ltac:(lia) E). nia. }
  subst eb. assert (ma = mb) by nia. subst mb.
  apply Prim2SF_inj. congruence.
Qed.

(** The relative error of a rounding is at most 2^-52. *)
Lemma rounds_to_value_bounds (m : positive) (e N D s : Z) :
  rounds_to (S754_finite false m e) N D s -> -1200 <= e ->
  Zpos m * pw e * D * 2 ^ 52 <= N * pw s * (2 ^ 52 + 1) /\
  N * pw s * (2 ^ 52 - 1) <= Zpos m * pw e * D * 2 ^ 52.
Proof.
  intros (P & Q & E & HQ & HP & HE & HN & HD & Hs & Hr & Heq) He.
  pose proof (rne_normal_range P Q HQ HP) as Rr.
  pose proof (rne_bounds (halfcode P Q)) as Rb.
  assert (HP0 : 0 <= P) by (change (2 ^ 52) with 4503599627370496 in *; nia).
  rewrite halfcode_bounds in Rb by assumption.
  pose proof (Z.mul_div_le P Q HQ) as Q1.
  pose proof (Z.mul_succ_div_gt P Q HQ) as Q2.
  set (t := rne (halfcode P Q)) in *. set (q := P / Q) in *.
  assert (Hval : Zpos m * pw e = t * pw E).
  { unfold normalized in Hr.
    destruct (Z.ltb_spec t (2 ^ 53)).
    - injection Hr as -> ->. rewrite Z2Pos.id by lia. reflexivity.
    - injection Hr as -> ->. assert (t = 2 ^ 53) by lia.
      rewrite pw_add by lia. change (2 ^ 53) with 9007199254740992 in *.
      change (2 ^ 1) with 2. lia. }
  rewrite Hval.
  pose proof (pw_pos E ltac:(lia)) as A. pose proof (pw_pos s Hs) as B.
  change (2 ^ 52) with 4503599627370496 in *.
  change (2 ^ 53) with 9007199254740992 in *.
  assert (U1 : t * Q * 4503599627370496 <= P * (4503599627370496 + 1)) by nia.
  assert (L1 : P * (4503599627370496 - 1) <= t * Q * 4503599627370496) by nia.
  split.
  - apply Z.mul_le_mono_pos_r with (p := Q); [ assumption | ].
    replace (t * pw E * D * 4503599627370496 * Q)
      with ((t * Q * 4503599627370496) * (pw E * D)) by ring.
    replace (N * pw s * (4503599627370496 + 1) * Q)
      with ((N * Q * pw s) * (4503599627370496 + 1)) by ring.
    rewrite <- Heq.
    replace (P * D * pw E * (4503599627370496 + 1))
      with ((P * (4503599627370496 + 1)) * (pw E * D)) by ring.
    apply Z.mul_le_mono_nonneg_r; [ nia | assumption ].
  - apply Z.mul_le_mono_pos_r with (p := Q); [ assumption | ].
    replace (t * pw E * D * 4503599627370496 * Q)
      with ((t * Q * 4503599627370496) * (pw E * D)) by ring.
    replace (N * pw s * (4503599627370496 - 1) * Q)
      with ((N * Q * pw s) * (4503599627370496 - 1)) by ring.
    rewrite <- Heq.
    replace (P * D * pw E * (4503599627370496 - 1))
      with ((P * (4503599627370496 - 1)) * (pw E * D)) by ring.
    apply Z.mul_le_mono_nonneg_r; [ nia | assumption ].
Qed.

Section Operations.

Variables (lo1 hi1 lo2 hi2 : Z) (a b : float).
Hypothesis Ha : pnormal lo1 hi1 a.
Hypothesis Hb : pnormal lo2 hi2 b.
Hypothesis Hrange : -500 <= lo1 /\ hi1 <= 400 /\ -500 <= lo2 /\ hi2 <= 400.

(** The computed product against the exact one. *)
Lemma mul_value_bounds :
  value (a * b) * pw 0 * 2 ^ 52 <= value a * value b * (2 ^ 52 + 1) /\
  value a * value b * (2 ^ 52 - 1) <= value (a * b) * pw 0 * 2 ^ 52.
Proof.
  destruct (pnormal_value _ _ _ Ha) as (ma & ea & Da & Dma & Hea & Va).
  destruct (pnormal_value _ _ _ Hb) as (mb & eb & Db & Dmb & Heb & Vb).
  pose proof (mul_pnormal _ _ _ _ _ _ Ha Hb ltac:(lia) ltac:(lia)) as Hf.
  destruct (pnormal_value _ _ _ Hf) as (m & e & Df & Dm & He & Vf).
  pose proof (mul_rounds_to a b ma mb ea eb Da Dma Db Dmb ltac:(lia) ltac:(lia)) as Hr.
  rewrite Df in Hr.
  destruct (rounds_to_value_bounds m e _ _ _ Hr ltac:(lia)) as [U L].
  rewrite Va, Vb, Vf.
  pose proof (pw_mul ea eb ltac:(lia) ltac:(lia) ltac:(lia)) as Hpw.
  pose proof (pw_pos 0 ltac:(lia)) as H0.
  replace (Zpos ma * pw ea * (Zpos mb * pw eb))
    with (Zpos ma * Zpos mb * (pw (ea + eb) * pw 0)) by (rewrite Hpw; ring).
  split.
  - replace (Zpos m * pw e * pw 0 * 2 ^ 52)
      with ((Zpos m * pw e * 1 * 2 ^ 52) * pw 0) by ring.
    replace (Zpos ma * Zpos mb * (pw (ea + eb) * pw 0) * (2 ^ 52 + 1))
      with ((Zpos ma * Zpos mb * pw (ea + eb) * (2 ^ 52 + 1)) * pw 0) by ring.
    apply Z.mul_le_mono_nonneg_r; [ lia | assumption ].
  - replace (Zpos m * pw e * pw 0 * 2 ^ 52)
      with ((Zpos m * pw e * 1 * 2 ^ 52) * pw 0) by ring.
    replace (Zpos ma * Zpos mb * (pw (ea + eb) * pw 0) * (2 ^ 52 - 1))
      with ((Zpos ma * Zpos mb * pw (ea + eb) * (2 ^ 52 - 1)) * pw 0) by ring.
    apply Z.mul_le_mono_nonneg_r; [ lia | assumption ].
Qed.

(** The computed quotient against the exact one. *)
Lemma div_value_bounds :
  value (a / b) * value b * 2 ^ 52 <= value a * pw 0 * (2 ^ 52 + 1) /\
  value a * pw 0 * (2 ^ 52 - 1) <= value (a / b) * value b * 2 ^ 52.
Proof.
  destruct (pnormal_value _ _ _ Ha) as (ma & ea & Da & Dma & Hea & Va).
  destruct (pnormal_value _ _ _ Hb) as (mb & eb & Db & Dmb & Heb & Vb).
  pose proof (div_pnormal _ _ _ _ _ _ Ha Hb ltac:(lia) ltac:(lia)) as Hf.
  destruct (pnormal_value _ _ _ Hf) as (m & e & Df & Dm & He & Vf).
  pose proof (div_rounds_to a b ma mb ea eb Da Dma Db Dmb ltac:(lia) ltac:(lia)) as Hr.
  rewrite Df in Hr.
  destruct (rounds_to_value_bounds m e _ _ _ Hr ltac:(lia)) as [U L].
  rewrite Va, Vb, Vf.
  assert (Hpw : 2 ^ 53 * pw (ea - eb - 53) * pw eb = pw ea * pw 0).
  { replace (2 ^ 53 * pw (ea - eb - 53)) with (pw (ea - eb - 53 + 53))
      by (rewrite pw_add by lia; ring).
    replace (ea - eb - 53 + 53) with (ea - eb) by lia.
    rewrite <- pw_mul by lia. f_equal. f_equal. lia. }
  pose proof (pw_pos eb ltac:(lia)) as Hpb.
  split.
  - replace (Zpos m * pw e * (Zpos mb * pw eb) * 2 ^ 52)
      with ((Zpos m * pw e * Zpos mb * 2 ^ 52) * pw eb) by ring.
    replace (Zpos ma * pw ea * pw 0 * (2 ^ 52 + 1))
      with (Zpos ma * (2 ^ 53 * pw (ea - eb - 53) * pw eb) * (2 ^ 52 + 1))
      by (rewrite Hpw; ring).
    replace (Zpos ma * (2 ^ 53 * pw (ea - eb - 53) * pw eb) * (2 ^ 52 + 1))
      with ((Zpos ma * 2 ^ 53 * pw (ea - eb - 53) * (2 ^ 52 + 1)) * pw eb) by ring.
    apply Z.mul_le_mono_nonneg_r; [ lia | assumption ].
  - replace (Zpos m * pw e * (Zpos mb * pw eb) * 2 ^ 52)
      with ((Zpos m * pw e * Zpos mb * 2 ^ 52) * pw eb) by ring.
    replace (Zpos ma * pw ea * pw 0 * (2 ^ 52 - 1))
      with (Zpos ma * (2 ^ 53 * pw (ea - eb - 53) * pw eb) * (2 ^ 52 - 1))
      by (rewrite Hpw; ring).
    replace (Zpos ma * (2 ^ 53 * pw (ea - eb - 53) * pw eb) * (2 ^ 52 - 1))
      with ((Zpos ma * 2 ^ 53 * pw (ea - eb - 53) * (2 ^ 52 - 1)) * pw eb) by ring.
    apply Z.mul_le_mono_nonneg_r; [ lia | assumption ].
Qed.

End Operations.

(** Rounding a number that already has 53 digits changes nothing. *)
Lemma binary_round_aux_exact (m : positive) (e : Z) :
  digits2_pos m = 53%positive -> -1074 <= e <= 970 ->
  binary_round_aux prec emax false (Zpos m) e loc_Exact = S754_finite false m e.
Proof.
  intros Hd He.
  pose proof (digits2_bounds m) as B. rewrite Hd in B.
  change (2 ^ (53 - 1)) with (2 ^ 52) in B.
  rewrite <- (locate_exact (Zpos m)).
  destruct (binary_round_aux_char (Zpos m) 1 m e ltac:(lia) ltac:(lia)
              (Z.div_1_r _)) as [-> _]; rewrite ?Hd; try lia.
  replace (53 - 53) with 0 by lia. replace (53 + e - 53) with e by lia.
  unfold halfcode. rewrite Z.pow_0_r, Z.mul_1_r, Z.div_1_r, Z.mod_1_r.
  change (0 =? 0) with true. unfold rne.
  replace (2 * (2 * Zpos m) + 0) with (Zpos m * 4) by lia.
  rewrite Z.div_mul, Z.mod_mul by lia. change (0 <=? 1) with true. cbv iota.
  unfold normalized. destruct (Z.ltb_spec (Zpos m) (2 ^ 53)); [ reflexivity | lia ].
Qed.

(** An integer below 2^53 is converted without error. *)
Lemma Z2F_exact (n : Z) :
  1 <= n < 2 ^ 53 -> pnormal (-52) 0 (Z2F n) /\ value (Z2F n) = n * pw 0.
Proof.
  intros Hn. unfold Z2F. destruct (Z.ltb_spec n 0); [ lia | ].
  unfold pnormal, value.
  rewrite of_uint63_spec, Uint63.of_Z_spec.
  rewrite Z.mod_small by (change Uint63.wB with (2 ^ 63); change (2 ^ 53) with 9007199254740992 in Hn; change (2 ^ 63) with 9223372036854775808; lia).
  destruct n as [ | p | p ]; [ lia | | lia ].
  unfold binary_normalize, binary_round.
  pose proof (digits2_bounds p) as [Blo Bhi].
  set (d := Zpos (digits2_pos p)) in *.
  assert (Hd : 1 <= d <= 53).
  { split; [ unfold d; lia | ].
    destruct (Z_lt_le_dec 53 d); [ | lia ].
    assert (2 ^ 53 <= 2 ^ (d - 1)) by (apply Z.pow_le_mono_r; lia). lia. }
  rewrite Z.add_0_r, fexp_normal by lia.
  unfold shl_align. rewrite Z.sub_0_r.
  destruct (d - 53) as [ | k | k ] eqn:Ek; [ | lia | ].
  - assert (Hdp : digits2_pos p = 53%positive) by (unfold d in Ek; lia).
    rewrite binary_round_aux_exact by (auto; lia).
    split; [ exists p, 0; repeat split; auto; lia | reflexivity ].
  - assert (Hdk : Zpos (digits2_pos (Pos.iter xO p k)) = 53).
    { apply digits2_unique. rewrite iter_xO_pow2.
      assert (Hk : Zpos k = 53 - d) by lia.
      assert (E1 : 2 ^ (53 - 1) = 2 ^ (d - 1) * 2 ^ Zpos k)
        by (rewrite <- pow2_split by lia; f_equal; lia).
      assert (E2 : 2 ^ 53 = 2 ^ d * 2 ^ Zpos k)
        by (rewrite <- pow2_split by lia; f_equal; lia).
      rewrite E1, E2.
      assert (0 < 2 ^ Zpos k) by (apply Z.pow_pos_nonneg; lia).
      nia. }
    assert (Hdk' : digits2_pos (Pos.iter xO p k) = 53%positive) by lia.
    rewrite binary_round_aux_exact by (auto; lia).
    split.
    + exists (Pos.iter xO p k), (Z.neg k). repeat split; auto; lia.
    + rewrite iter_xO_pow2.
      replace (pw 0) with (pw (Z.neg k + Zpos k)) by (f_equal; lia).
      rewrite pw_add by lia. ring.
Qed.

Lemma ltb_leb (a b : float) : (a <? b)%float = true -> (a <=? b)%float = true.
Proof.
  rewrite ltb_spec, leb_spec. unfold SFltb, SFleb.
  destruct (SFcompare (Prim2SF a) (Prim2SF b)) as [ [ | | ] | ]; congruence.
Qed.

Lemma leb_refl (a : float) : is_nan a = false -> (a <=? a)%float = true.
Proof.
  intros H. apply is_nan_spec in H. rewrite leb_spec. unfold SFleb.
  rewrite SFcompare_refl by assumption. reflexivity.
Qed.

(** [Math.min] of two numbers is one of them and is below both. *)
Lemma Math_min_le (a b : float) :
  is_nan a = false -> is_nan b = false ->
  (Math_min a b = a \/ Math_min a b = b) /\
  (Math_min a b <=? a)%float = true /\ (Math_min a b <=? b)%float = true.
Proof.
  intros Ha Hb. split; [ apply Math_min_cases; assumption | ].
  unfold Math_min. rewrite Ha, Hb. cbn [orb].
  destruct (a <? b)%float eqn:Hab.
  - split; [ apply leb_refl; assumption | apply ltb_leb; assumption ].
  - destruct (b <? a)%float eqn:Hba.
    + split; [ apply ltb_leb; assumption | apply leb_refl; assumption ].
    + pose proof (not_ltb_ge _ _ Ha Hb Hab). pose proof (not_ltb_ge _ _ Hb Ha Hba).
      destruct (get_sign a); split; auto using leb_refl.
Qed.

(** Dividing by more gives less. *)
Lemma div_le_anti (lo1 hi1 lo2 hi2 : Z) (c u v : float) :
  pnormal lo1 hi1 c -> pnormal lo2 hi2 u -> pnormal lo2 hi2 v ->
  -500 <= lo1 -> hi1 <= 400 -> -500 <= lo2 -> hi2 <= 400 ->
  (u <=? v)%float = true -> (c / v <=? c / u)%float = true.
Proof.
  intros Hc Hu Hv ? ? ? ? Hle.
  pose proof (leb_values _ _ _ _ _ _ Hu Hv ltac:(lia) ltac:(lia) Hle) as Hval.
  destruct (pnormal_value _ _ _ Hc) as (mc & ec & Dc & Dmc & Hec & Vc).
  destruct (pnormal_value _ _ _ Hu) as (mu & eu & Du & Dmu & Heu & Vu).
  destruct (pnormal_value _ _ _ Hv) as (mv & ev & Dv & Dmv & Hev & Vv).
  rewrite Vu, Vv in Hval. rewrite leb_spec.
  apply (rounds_to_le _ _ (Zpos mc * 2 ^ 53) (Zpos mv) (ec - ev - 53)
                          (Zpos mc * 2 ^ 53) (Zpos mu) (ec - eu - 53)).
  - apply div_rounds_to; auto; lia.
  - apply div_rounds_to; auto; lia.
  - pose proof (pw_mul (ec - ev - 53) ev ltac:(lia) ltac:(lia) ltac:(lia)) as E1.
    pose proof (pw_mul (ec - eu - 53) eu ltac:(lia) ltac:(lia) ltac:(lia)) as E2.
    replace (ec - ev - 53 + ev) with (ec - 53) in E1 by lia.
    replace (ec - eu - 53 + eu) with (ec - 53) in E2 by lia.
    pose proof (pw_pos eu ltac:(lia)). pose proof (pw_pos ev ltac:(lia)).
    pose proof (pw_pos (ec - 53) ltac:(lia)). pose proof (pw_pos 0 ltac:(lia)).
    pose proof (pw_pos (ec - ev - 53) ltac:(lia)).
    pose proof (pw_pos (ec - eu - 53) ltac:(lia)).
    apply Z.mul_le_mono_pos_r with (p := pw eu * pw ev); [ nia | ].
    replace (Zpos mc * 2 ^ 53 * Zpos mu * pw (ec - ev - 53) * (pw eu * pw ev))
      with (Zpos mc * 2 ^ 53 * (Zpos mu * pw eu) * (pw (ec - ev - 53) * pw ev)) by ring.
    replace (Zpos mc * 2 ^ 53 * Zpos mv * pw (ec - eu - 53) * (pw eu * pw ev))
      with (Zpos mc * 2 ^ 53 * (Zpos mv * pw ev) * (pw (ec - eu - 53) * pw eu)) by ring.
    rewrite <- E1, <- E2.
    apply Z.mul_le_mono_nonneg_r; [ nia | ].
    apply Z.mul_le_mono_nonneg_l; [ lia | assumption ].
Qed.

(** The integer part of a positive number, from bounds on its value. *)
Lemma IntegerPart_bounds (lo hi : Z) (f : float) (k1 k2 : Z) :
  pnormal lo hi f -> -1200 <= lo ->
  k1 * pw 0 <= value f -> value f < (k2 + 1) * pw 0 ->
  k1 <= IntegerPart f <= k2.
Proof.
  intros Hf Hlo H1 H2.
  destruct (pnormal_value _ _ _ Hf) as (m & e & Df & Dm & He & Vf).
  rewrite Vf in H1, H2. unfold IntegerPart. rewrite Df.
  pose proof (pw_pos 0 ltac:(lia)) as H0.
  destruct (Z_le_gt_dec 0 e).
  - rewrite Z.shiftl_mul_pow2 by lia.
    replace (pw e) with (pw (0 + e)) in H1, H2 by (f_equal; lia).
    rewrite pw_add in H1, H2 by lia. nia.
  - rewrite Z.shiftl_div_pow2 by lia.
    assert (Hp : 0 < 2 ^ (- e)) by (apply Z.pow_pos_nonneg; lia).
    assert (E0 : pw 0 = pw e * 2 ^ (- e))
      by (rewrite <- pw_add by lia; f_equal; lia).
    rewrite E0 in H1, H2. pose proof (pw_pos e ltac:(lia)).
    split.
    + apply Z.div_le_lower_bound; [ assumption | ]. nia.
    + assert (Zpos m / 2 ^ (- e) < k2 + 1); [ | lia ].
      apply Z.div_lt_upper_bound; [ assumption | ]. nia.
Qed.

End ErrorBounds.

Import ErrorBounds.

(** ** The working raster *)

Lemma value_maxSize : value maxSize = 300 * pw 0.
Proof.
  change (value maxSize) with (5277655813324800 * pw (-44)).
  replace (pw 0) with (pw (-44 + 44)) by reflexivity.
  rewrite pw_add by lia. change (2 ^ 44) with 17592186044416. lia.
Qed.

Lemma Z2F_dimension (n : Z) :
  1 <= n < 2 ^ 32 -> pnormal (-52) 0 (Z2F n) /\ value (Z2F n) = n * pw 0.
Proof.
  intros H. apply Z2F_exact. change (2 ^ 32) with 4294967296 in H.
  change (2 ^ 53) with 9007199254740992. lia.
Qed.

Lemma Z2F_le (n n' : Z) :
  1 <= n <= n' -> n' < 2 ^ 32 -> (Z2F n <=? Z2F n')%float = true.
Proof.
  intros H H'.
  destruct (Z2F_dimension n ltac:(lia)) as [Hn Vn].
  destruct (Z2F_dimension n' ltac:(lia)) as [Hn' Vn'].
  apply (values_leb _ _ _ _ _ _ Hn Hn'); try lia.
  rewrite Vn, Vn'. pose proof (pw_pos 0 ltac:(lia)). nia.
Qed.

Lemma scale_candidate_pnormal (n : Z) :
  1 <= n < 2 ^ 32 -> pnormal (-97) (-43) (maxSize / Z2F n).
Proof.
  intros H. destruct (Z2F_dimension n H) as [Hn _].
  apply (div_pnormal (-44) (-44) (-52) 0); try lia; [ apply maxSize_pnormal | exact Hn ].
Qed.


(** The smaller of the two quotients is the one by the larger dimension. *)
Lemma scaleOf_eq_max (img : HTMLImageElement) :
  wellFormedImage img ->
  scaleOf img
  = (maxSize / Z2F (Z.max (naturalWidth img) (naturalHeight img)))%float.
Proof.
  intros [Hw Hh].
  set (nw := naturalWidth img) in *. set (nh := naturalHeight img) in *.
  pose proof (scale_candidate_pnormal nw Hw) as Ha.
  pose proof (scale_candidate_pnormal nh Hh) as Hb.
  destruct (Z2F_dimension nw Hw) as [HA VA].
  destruct (Z2F_dimension nh Hh) as [HB VB].
  pose proof (pnormal_not_nan _ _ _ Ha) as Na.
  pose proof (pnormal_not_nan _ _ _ Hb) as Nb.
  unfold scaleOf. fold nw nh.
  destruct (Math_min_le _ _ Na Nb) as (Hcase & Hle1 & Hle2).
  destruct (Z.max_spec nw nh) as [[Hlt ->] | [Hge ->]].
  - (* the height is the larger one *)
    destruct Hcase as [E | E]; [ | exact E ].
    rewrite E in *.
    assert (Hanti : (maxSize / Z2F nh <=? maxSize / Z2F nw)%float = true).
    { apply (div_le_anti (-44) (-44) (-52) 0); auto using maxSize_pnormal; try lia.
      apply Z2F_le; lia. }
    apply (value_inj _ _ _ _ _ _ Ha Hb); try lia.
    pose proof (leb_values _ _ _ _ _ _ Ha Hb ltac:(lia) ltac:(lia) Hle2).
    pose proof (leb_values _ _ _ _ _ _ Hb Ha ltac:(lia) ltac:(lia) Hanti).
    lia.
  - destruct Hcase as [E | E]; [ exact E | ].
    rewrite E in *.
    assert (Hanti : (maxSize / Z2F nw <=? maxSize / Z2F nh)%float = true).
    { apply (div_le_anti (-44) (-44) (-52) 0); auto using maxSize_pnormal; try lia.
      apply Z2F_le; lia. }
    apply (value_inj _ _ _ _ _ _ Hb Ha); try lia.
    pose proof (leb_values _ _ _ _ _ _ Hb Ha ltac:(lia) ltac:(lia) Hle1).
    pose proof (leb_values _ _ _ _ _ _ Ha Hb ltac:(lia) ltac:(lia) Hanti).
    lia.
Qed.

(** X9: the scale is 300 divided by the larger of the two dimensions; it is
    positive and never exceeds 300. *)
Theorem scaleOf_larger_dimension (img : HTMLImageElement) :
  wellFormedImage img ->
  scaleOf img
  = (maxSize / Z2F (Z.max (naturalWidth img) (naturalHeight img)))%float
  /\ (0 <? scaleOf img)%float = true
  /\ (scaleOf img <=? 300)%float = true.
Proof.
  intros Hwf. pose proof Hwf as [Hw Hh].
  pose proof (scaleOf_eq_max img Hwf) as Hscale.
  split; [ exact Hscale | ].
  assert (HL : 1 <= Z.max (naturalWidth img) (naturalHeight img) < 2 ^ 32) by lia.
  pose proof (scale_candidate_pnormal _ HL) as Hs.
  rewrite Hscale. split; [ exact (pnormal_gt_zero _ _ _ Hs) | ].
  change 300%float with (maxSize / Z2F 1)%float.
  apply (div_le_anti (-44) (-44) (-52) 0); auto using maxSize_pnormal; try lia.
  - apply Z2F_dimension. lia.
  - apply Z2F_dimension. exact HL.
  - apply Z2F_le; lia.
Qed.

Lemma scaleOf_larger_dimension_witness :
  scaleOf stripImage
  = (maxSize / Z2F (Z.max (naturalWidth stripImage) (naturalHeight stripImage)))%float
  /\ (0 <? scaleOf stripImage)%float = true
  /\ (scaleOf stripImage <=? 300)%float = true.
Proof.
  apply (scaleOf_larger_dimension stripImage).
  unfold wellFormedImage, stripImage. simpl. lia.
Defined.


Lemma chain_upper (X Y U K : Z) :
  0 < U -> 0 <= K ->
  X * U * 2 ^ 52 <= Y * (2 ^ 52 + 1) ->
  Y * 2 ^ 52 <= K * U * U * (2 ^ 52 + 1) ->
  X * 2 ^ 104 <= K * U * ((2 ^ 52 + 1) * (2 ^ 52 + 1)).
Proof.
  intros HU HK H1 H2.
  apply Z.mul_le_mono_pos_r with (p := U); [ assumption | ].
  change (2 ^ 104) with (2 ^ 52 * 2 ^ 52).
  replace (X * (2 ^ 52 * 2 ^ 52) * U) with ((X * U * 2 ^ 52) * 2 ^ 52) by ring.
  replace (K * U * ((2 ^ 52 + 1) * (2 ^ 52 + 1)) * U)
    with ((K * U * U * (2 ^ 52 + 1)) * (2 ^ 52 + 1)) by ring.
  apply Z.le_trans with (m := (Y * (2 ^ 52 + 1)) * 2 ^ 52).
  - apply Z.mul_le_mono_nonneg_r; [ lia | assumption ].
  - replace (Y * (2 ^ 52 + 1) * 2 ^ 52) with ((Y * 2 ^ 52) * (2 ^ 52 + 1)) by ring.
    apply Z.mul_le_mono_nonneg_r; [ lia | assumption ].
Qed.

Lemma chain_lower (X Y U K : Z) :
  0 < U -> 0 <= K ->
  Y * (2 ^ 52 - 1) <= X * U * 2 ^ 52 ->
  K * U * U * (2 ^ 52 - 1) <= Y * 2 ^ 52 ->
  K * U * ((2 ^ 52 - 1) * (2 ^ 52 - 1)) <= X * 2 ^ 104.
Proof.
  intros HU HK H1 H2.
  apply Z.mul_le_mono_pos_r with (p := U); [ assumption | ].
  change (2 ^ 104) with (2 ^ 52 * 2 ^ 52).
  replace (X * (2 ^ 52 * 2 ^ 52) * U) with ((X * U * 2 ^ 52) * 2 ^ 52) by ring.
  replace (K * U * ((2 ^ 52 - 1) * (2 ^ 52 - 1)) * U)
    with ((K * U * U * (2 ^ 52 - 1)) * (2 ^ 52 - 1)) by ring.
  apply Z.le_trans with (m := (Y * (2 ^ 52 - 1)) * 2 ^ 52).
  - replace (Y * (2 ^ 52 - 1) * 2 ^ 52) with ((Y * 2 ^ 52) * (2 ^ 52 - 1)) by ring.
    apply Z.mul_le_mono_nonneg_r; [ lia | assumption ].
  - apply Z.mul_le_mono_nonneg_r; [ lia | assumption ].
Qed.

(** A dimension [n] of the image times a scale that is at most 300 / m, for
    a dimension [m]: the product is below 300 n / m, up to rounding. *)
Lemma scaled_dimension_upper (n m : Z) (s : float) :
  1 <= n < 2 ^ 32 -> 1 <= m < 2 ^ 32 ->
  pnormal (-97) (-43) s -> (s <=? maxSize / Z2F m)%float = true ->
  pnormal (-97) 11 (Z2F n * s) /\
  value (Z2F n * s) * m * 2 ^ 104
  <= 300 * n * pw 0 * ((2 ^ 52 + 1) * (2 ^ 52 + 1)).
Proof.
  intros Hn Hm Hs Hle.
  destruct (Z2F_dimension n Hn) as [HA VA].
  destruct (Z2F_dimension m Hm) as [HB VB].
  pose proof (scale_candidate_pnormal m Hm) as Hb.
  pose proof (mul_pnormal _ _ _ _ _ _ HA Hs ltac:(lia) ltac:(lia)) as Hf.
  split; [ apply (pnormal_weaken _ _ _ _ _ Hf); lia | ].
  pose proof (leb_values _ _ _ _ _ _ Hs Hb ltac:(lia) ltac:(lia) Hle) as Hsb.
  destruct (mul_value_bounds _ _ _ _ _ _ HA Hs ltac:(lia)) as [Um _].
  destruct (div_value_bounds _ _ _ _ _ _ maxSize_pnormal HB ltac:(lia)) as [Ud _].
  rewrite VA in Um. rewrite VB, value_maxSize in Ud.
  pose proof (pw_pos 0 ltac:(lia)) as HU.
  pose proof (value_pos _ _ _ Hs ltac:(lia)) as Ps.
  pose proof (value_pos _ _ _ Hb ltac:(lia)) as Pb.
  set (X := value (Z2F n * s)) in *. set (Vs := value s) in *.
  set (Vb := value (maxSize / Z2F m)) in *. set (U := pw 0) in *.
  (* X U 2^52 <= n U Vs (2^52+1) <= n U Vb (2^52+1);  Vb m U 2^52 <= 300 U U (2^52+1) *)
  assert (H1 : X * 2 ^ 52 <= n * Vb * (2 ^ 52 + 1)).
  { apply Z.mul_le_mono_pos_r with (p := U); [ assumption | ].
    apply Z.le_trans with (m := n * U * Vs * (2 ^ 52 + 1)); [ lia | ].
    replace (n * Vb * (2 ^ 52 + 1) * U) with (n * U * Vb * (2 ^ 52 + 1)) by ring.
    apply Z.mul_le_mono_nonneg_r; [ lia | ].
    apply Z.mul_le_mono_nonneg_l; [ nia | assumption ]. }
  assert (H2 : Vb * m * 2 ^ 52 <= 300 * U * (2 ^ 52 + 1)).
  { apply Z.mul_le_mono_pos_r with (p := U); [ assumption | ].
    replace (Vb * m * 2 ^ 52 * U) with (Vb * (m * U) * 2 ^ 52) by ring.
    replace (300 * U * (2 ^ 52 + 1) * U) with (300 * U * U * (2 ^ 52 + 1)) by ring.
    exact Ud. }
  change (2 ^ 104) with (2 ^ 52 * 2 ^ 52).
  replace (X * m * (2 ^ 52 * 2 ^ 52)) with ((X * 2 ^ 52) * (m * 2 ^ 52)) by ring.
  apply Z.le_trans with (m := (n * Vb * (2 ^ 52 + 1)) * (m * 2 ^ 52)).
  - apply Z.mul_le_mono_nonneg_r; [ lia | assumption ].
  - replace (n * Vb * (2 ^ 52 + 1) * (m * 2 ^ 52))
      with ((Vb * m * 2 ^ 52) * (n * (2 ^ 52 + 1))) by ring.
    replace (300 * n * U * ((2 ^ 52 + 1) * (2 ^ 52 + 1)))
      with ((300 * U * (2 ^ 52 + 1)) * (n * (2 ^ 52 + 1))) by ring.
    apply Z.mul_le_mono_nonneg_r; [ lia | assumption ].
Qed.

Lemma ToUint32_small (f : float) : 0 <= IntegerPart f < 2 ^ 32 -> ToUint32 f = IntegerPart f.
Proof. intros H. unfold ToUint32. apply Z.mod_small. assumption. Qed.

Lemma scaleOf_le_candidates (img : HTMLImageElement) :
  wellFormedImage img ->
  pnormal (-97) (-43) (scaleOf img) /\
  (scaleOf img <=? maxSize / Z2F (naturalWidth img))%float = true /\
  (scaleOf img <=? maxSize / Z2F (naturalHeight img))%float = true.
Proof.
  intros [Hw Hh].
  pose proof (scale_candidate_pnormal _ Hw) as Ha.
  pose proof (scale_candidate_pnormal _ Hh) as Hb.
  destruct (Math_min_le _ _ (pnormal_not_nan _ _ _ Ha) (pnormal_not_nan _ _ _ Hb))
    as (Hcase & Hle1 & Hle2).
  unfold scaleOf. split; [ | split; assumption ].
  destruct Hcase as [-> | ->]; assumption.
Qed.


Lemma IntegerPart_le_value (lo hi : Z) (f : float) :
  pnormal lo hi f -> -1200 <= lo -> IntegerPart f * pw 0 <= value f.
Proof.
  intros Hf Hlo.
  pose proof (value_pos _ _ _ Hf Hlo) as Pf.
  pose proof (pw_pos 0 ltac:(lia)) as HU.
  destruct (Z_le_gt_dec (IntegerPart f * pw 0) (value f)) as [ | Hgt ];
    [ assumption | exfalso ].
  assert (H : 0 <= IntegerPart f <= IntegerPart f - 1); [ | lia ].
  apply (IntegerPart_bounds _ _ _ 0 (IntegerPart f - 1) Hf Hlo); lia.
Qed.

Lemma pzero_value (f : float) : pzero f -> value f = 0.
Proof. intros H. unfold value. rewrite H. reflexivity. Qed.

(** A side of the working raster, against the exact product. *)
Lemma canvas_side_value (n : Z) (s : float) :
  1 <= n < 2 ^ 32 -> pnormal (-97) (-43) s ->
  (s <=? maxSize / Z2F n)%float = true ->
  0 <= ToUint32 (Z2F n * s) <= 300 /\
  ToUint32 (Z2F n * s) * pw 0 * 2 ^ 52 <= n * value s * (2 ^ 52 + 1).
Proof.
  intros Hn Hs Hle.
  destruct (Z2F_dimension n Hn) as [HA VA].
  destruct (scaled_dimension_upper n n s Hn Hn Hs Hle) as [Hf Hv].
  pose proof (value_pos _ _ _ Hf ltac:(lia)) as Pf.
  pose proof (pw_pos 0 ltac:(lia)) as HU.
  pose proof (IntegerPart_le_value _ _ _ Hf ltac:(lia)) as Hint.
  destruct (mul_value_bounds _ _ _ _ _ _ HA Hs ltac:(lia)) as [Um _].
  rewrite VA in Um.
  assert (Hcap : 0 <= IntegerPart (Z2F n * s) <= 300).
  { apply (IntegerPart_bounds _ _ _ 0 300 Hf); try lia.
    set (X := value (Z2F n * s)) in *.
    change (2 ^ 52) with 4503599627370496 in Hv.
    change (2 ^ 104) with 20282409603651670423947251286016 in Hv. nia. }
  rewrite ToUint32_small by (change (2 ^ 32) with 4294967296; lia).
  split; [ exact Hcap | ].
  set (X := value (Z2F n * s)) in *. set (U := pw 0) in *. set (Vs := value s) in *.
  set (I := IntegerPart (Z2F n * s)) in *.
  assert (I * U * 2 ^ 52 <= X * 2 ^ 52) by nia.
  assert (X * 2 ^ 52 * U <= n * Vs * (2 ^ 52 + 1) * U) by lia.
  assert (X * 2 ^ 52 <= n * Vs * (2 ^ 52 + 1)) by nia.
  lia.
Qed.


(** Neither side of the working raster exceeds 300 pixels. *)
Lemma canvas_sides (img : HTMLImageElement) :
  wellFormedImage img ->
  0 <= canvasWidth img <= 300 /\ 0 <= canvasHeight img <= 300.
Proof.
  intros Hwf. pose proof Hwf as [Hw Hh].
  destruct (scaleOf_le_candidates img Hwf) as (Hs & Hle1 & Hle2).
  split.
  - exact (proj1 (canvas_side_value _ _ Hw Hs Hle1)).
  - exact (proj1 (canvas_side_value _ _ Hh Hs Hle2)).
Qed.

(** X10: neither side of the working raster exceeds 300 pixels, so that the
    scan classifies at most 90000 pixels. *)
Theorem canvas_within_cap (img : HTMLImageElement) (data : list Z) :
  wellFormedImage img ->
  0 <= canvasWidth img <= 300 /\ 0 <= canvasHeight img <= 300 /\
  Z.of_nat (List.length (findSkinPixels data (canvasWidth img) (canvasHeight img)))
  <= 90000.
Proof.
  intros Hwf. destruct (canvas_sides img Hwf) as [Hcw Hch].
  split; [ exact Hcw | split; [ exact Hch | ] ].
  pose proof (length_findSkinPixels data (canvasWidth img) (canvasHeight img)). nia.
Qed.


Lemma canvas_within_cap_witness :
  0 <= canvasWidth stripImage <= 300 /\ 0 <= canvasHeight stripImage <= 300 /\
  Z.of_nat (List.length (findSkinPixels [] (canvasWidth stripImage)
                           (canvasHeight stripImage))) <= 90000.
Proof.
  apply (canvas_within_cap stripImage []).
  unfold wellFormedImage, stripImage. simpl. lia.
Defined.

(** A dimension multiplied by 300 over itself comes back as 299 or 300:
    the quotient and the product are each rounded once. *)
Lemma dimension_round_trip (n : Z) :
  1 <= n < 2 ^ 32 ->
  299 <= ToUint32 (Z2F n * (maxSize / Z2F n)) <= 300.
Proof.
  intros Hn.
  destruct (Z2F_dimension n Hn) as [HA VA].
  pose proof (scale_candidate_pnormal n Hn) as Hb.
  pose proof (mul_pnormal _ _ _ _ _ _ HA Hb ltac:(lia) ltac:(lia)) as Hf.
  destruct (mul_value_bounds _ _ _ _ _ _ HA Hb ltac:(lia)) as [Um Lm].
  destruct (div_value_bounds _ _ _ _ _ _ maxSize_pnormal HA ltac:(lia)) as [Ud Ld].
  rewrite VA in Um, Lm. rewrite VA, value_maxSize in Ud, Ld.
  pose proof (pw_pos 0 ltac:(lia)) as HU.
  pose proof (value_pos _ _ _ Hb ltac:(lia)) as Pb.
  pose proof (value_pos _ _ _ Hf ltac:(lia)) as Pf.
  set (X := value (Z2F n * (maxSize / Z2F n))) in *.
  set (Vb := value (maxSize / Z2F n)) in *. set (U := pw 0) in *.
  assert (Hup : X * 2 ^ 104 <= 300 * U * ((2 ^ 52 + 1) * (2 ^ 52 + 1))).
  { apply (chain_upper X (n * U * Vb) U 300); lia. }
  assert (Hlow : 300 * U * ((2 ^ 52 - 1) * (2 ^ 52 - 1)) <= X * 2 ^ 104).
  { apply (chain_lower X (n * U * Vb) U 300); lia. }
  change (2 ^ 52) with 4503599627370496 in Hup, Hlow.
  change (2 ^ 104) with 20282409603651670423947251286016 in Hup, Hlow.
  assert (Hint : 299 <= IntegerPart (Z2F n * (maxSize / Z2F n)) <= 300).
  { apply (IntegerPart_bounds _ _ _ 299 300 Hf); fold X; fold U; lia. }
  rewrite ToUint32_small; [ exact Hint | ].
  change (2 ^ 32) with 4294967296. lia.
Qed.

(** X11: the larger side of the working raster is 299 or 300 pixels; 299
    does occur, for instance for an image 281 pixels wide. *)
Theorem larger_side_fills_cap :
  (forall img, wellFormedImage img ->
     299 <= Z.max (canvasWidth img) (canvasHeight img) <= 300) /\
  (exists img, wellFormedImage img /\
     Z.max (canvasWidth img) (canvasHeight img) = 299).
Proof.
  split.
  - intros img Hwf.
    destruct (canvas_sides img Hwf) as (Hcw & Hch).
    pose proof (scaleOf_eq_max img Hwf) as Hs.
    pose proof Hwf as [Hw Hh].
    destruct (Z.max_spec (naturalWidth img) (naturalHeight img)) as [[Hlt E] | [Hge E]];
      rewrite E in Hs.
    + pose proof (dimension_round_trip _ Hh) as H.
      rewrite <- Hs in H. fold (canvasHeight img) in H. lia.
    + pose proof (dimension_round_trip _ Hw) as H.
      rewrite <- Hs in H. fold (canvasWidth img) in H. lia.
  - exists {| naturalWidth := 281; naturalHeight := 200 |}.
    split; [ unfold wellFormedImage; simpl; lia | vm_compute; reflexivity ].
Qed.

(** *** Elongated images *)

Lemma scaled_dimension_vanishes (n m : Z) (s : float) :
  1 <= n < 2 ^ 32 -> 1 <= m < 2 ^ 32 -> 300 * n < m ->
  pnormal (-97) (-43) s -> (s <=? maxSize / Z2F m)%float = true ->
  ToUint32 (Z2F n * s) = 0.
Proof.
  intros Hn Hm Hlong Hs Hle.
  destruct (scaled_dimension_upper n m s Hn Hm Hs Hle) as [Hf Hv].
  pose proof (value_pos _ _ _ Hf ltac:(lia)) as Pf.
  pose proof (pw_pos 0 ltac:(lia)) as HU.
  assert (Hint : 0 <= IntegerPart (Z2F n * s) <= 0).
  { apply (IntegerPart_bounds _ _ _ 0 0 Hf); try lia.
    set (X := value (Z2F n * s)) in *. set (U := pw 0) in *.
    change (2 ^ 52) with 4503599627370496 in Hv.
    change (2 ^ 104) with 20282409603651670423947251286016 in Hv.
    change (2 ^ 32) with 4294967296 in Hm.
    assert (H1 : 300 * n * U * (20282409603651679431146506027009)
                 <= (m - 1) * U * 20282409603651679431146506027009) by nia.
    assert (H2 : (m - 1) * 20282409603651679431146506027009
                 < m * 20282409603651670423947251286016) by lia.
    assert (H3 : X * m * 20282409603651670423947251286016
                 < U * m * 20282409603651670423947251286016) by nia.
    nia. }
  rewrite ToUint32_small; [ lia | ].
  change (2 ^ 32) with 4294967296. lia.
Qed.

Lemma findSkinPixels_empty_raster (data : list Z) (cw ch : Z) :
  cw = 0 \/ ch = 0 -> findSkinPixels data cw ch = [].
Proof.
  intros H.
  pose proof (length_findSkinPixels data cw ch) as Hlen.
  destruct (findSkinPixels data cw ch); [ reflexivity | ].
  simpl List.length in Hlen. destruct H; subst; lia.
Qed.

(** X12: an image more than 300 times longer in one direction than in the
    other gets a working raster without pixels; the fallback then never
    produces a box, and the hook without a platform detector returns null
    whatever the image shows. *)
Theorem elongated_image_undetected
    (P : Platform) (img : HTMLImageElement) (st : HookState) :
  wellFormedImage img ->
  300 * naturalWidth img < naturalHeight img \/
  300 * naturalHeight img < naturalWidth img ->
  (canvasWidth img = 0 \/ canvasHeight img = 0) /\
  (forall faceBox, detectFaceWithCanvas P img <> Normal (Some faceBox)) /\
  (isFaceDetectorSupported P = false -> snd (detectFace P img st) = Normal None).
Proof.
  intros Hwf Hlong. pose proof Hwf as [Hw Hh].
  destruct (scaleOf_le_candidates img Hwf) as (Hs & Hle1 & Hle2).
  assert (Hzero : canvasWidth img = 0 \/ canvasHeight img = 0).
  { destruct Hlong as [Hl | Hl]; [ left | right ].
    - apply (scaled_dimension_vanishes _ (naturalHeight img)); assumption.
    - apply (scaled_dimension_vanishes _ (naturalWidth img)); assumption. }
  assert (Hbox : forall faceBox, detectFaceWithCanvas P img <> Normal (Some faceBox)).
  { intros faceBox. unfold detectFaceWithCanvas.
    destruct (hasContext2d P); simpl; [ | discriminate ].
    destruct (readRaster P img (canvasWidth img) (canvasHeight img)) as [ data | e ];
      simpl; [ | discriminate ].
    rewrite (findSkinPixels_empty_raster data _ _ Hzero).
    unfold boxFromSkinPixels. simpl. discriminate. }
  split; [ exact Hzero | split; [ exact Hbox | ] ].
  intros Hnative. unfold detectFace, obtainFaceBox. rewrite Hnative.
  destruct (detectFaceWithCanvas P img) as [ [ faceBox | ] | error ] eqn:Hdet;
    try reflexivity.
  exfalso. exact (Hbox faceBox eq_refl).
Qed.


Lemma elongated_image_undetected_witness :
  (canvasWidth ribbonImage = 0 \/ canvasHeight ribbonImage = 0) /\
  (forall faceBox,
     detectFaceWithCanvas (canvasPlatform allSkin) ribbonImage <> Normal (Some faceBox)) /\
  (isFaceDetectorSupported (canvasPlatform allSkin) = false ->
   snd (detectFace (canvasPlatform allSkin) ribbonImage idleState) = Normal None).
Proof.
  apply (elongated_image_undetected (canvasPlatform allSkin) ribbonImage idleState).
  - unfold wellFormedImage, ribbonImage. simpl. lia.
  - left. unfold ribbonImage. simpl. lia.
Defined.

(** ** The proportions of the working raster *)

(** A dimension [n] times 300 / m is above 300 n / m, up to rounding. *)
Lemma scaled_dimension_lower (n m : Z) :
  1 <= n < 2 ^ 32 -> 1 <= m < 2 ^ 32 ->
  300 * n * pw 0 * ((2 ^ 52 - 1) * (2 ^ 52 - 1))
  <= value (Z2F n * (maxSize / Z2F m)) * m * 2 ^ 104.
Proof.
  intros Hn Hm.
  destruct (Z2F_dimension n Hn) as [HA VA].
  destruct (Z2F_dimension m Hm) as [HB VB].
  pose proof (scale_candidate_pnormal m Hm) as Hb.
  destruct (mul_value_bounds _ _ _ _ _ _ HA Hb ltac:(lia)) as [_ Lm].
  destruct (div_value_bounds _ _ _ _ _ _ maxSize_pnormal HB ltac:(lia)) as [_ Ld].
  rewrite VA in Lm. rewrite VB, value_maxSize in Ld.
  pose proof (pw_pos 0 ltac:(lia)) as HU.
  pose proof (value_pos _ _ _ Hb ltac:(lia)) as Pb.
  set (X := value (Z2F n * (maxSize / Z2F m))) in *.
  set (Vb := value (maxSize / Z2F m)) in *. set (U := pw 0) in *.
  change (2 ^ 104) with (2 ^ 52 * 2 ^ 52).
  set (K := 2 ^ 52) in *. assert (HK : 1 < K) by reflexivity.
  assert (H1 : n * Vb * (K - 1) <= X * K).
  { apply Z.mul_le_mono_pos_r with (p := U); [ assumption | ]. lia. }
  assert (H2 : 300 * U * (K - 1) <= Vb * m * K).
  { apply Z.mul_le_mono_pos_r with (p := U); [ assumption | ]. lia. }
  assert (H3 : n * (K - 1) * (300 * U * (K - 1)) <= n * (K - 1) * (Vb * m * K)).
  { apply Z.mul_le_mono_nonneg_l; [ nia | assumption ]. }
  assert (H4 : m * K * (n * Vb * (K - 1)) <= m * K * (X * K)).
  { apply Z.mul_le_mono_nonneg_l; [ nia | assumption ]. }
  lia.
Qed.

(** One side of the raster: the integer part of 300 n / m, or one less when
    the quotient is an integer that the roundings miss from below. *)
Lemma scaled_side (n m : Z) :
  1 <= n <= m -> m < 2 ^ 32 ->
  let side := ToUint32 (Z2F n * (maxSize / Z2F m)) in
  side * m <= 300 * n /\ 300 * n <= (side + 1) * m.
Proof.
  intros Hn Hm side.
  assert (Hn' : 1 <= n < 2 ^ 32) by lia. assert (Hm' : 1 <= m < 2 ^ 32) by lia.
  pose proof (scale_candidate_pnormal m Hm') as Hs.
  pose proof (leb_refl _ (pnormal_not_nan _ _ _ Hs)) as Hle.
  destruct (scaled_dimension_upper n m _ Hn' Hm' Hs Hle) as [Hf Hup].
  pose proof (scaled_dimension_lower n m Hn' Hm') as Hlow.
  pose proof (IntegerPart_le_value _ _ _ Hf ltac:(lia)) as Hint.
  pose proof (pw_pos 0 ltac:(lia)) as HU.
  pose proof (value_pos _ _ _ Hf ltac:(lia)) as Pf.
  change (2 ^ 32) with 4294967296 in *.
  change ((2 ^ 52 + 1) * (2 ^ 52 + 1)) with 20282409603651679431146506027009 in Hup.
  change ((2 ^ 52 - 1) * (2 ^ 52 - 1)) with 20282409603651661416747996545025 in Hlow.
  change (2 ^ 104) with 20282409603651670423947251286016 in Hup, Hlow.
  set (X := value (Z2F n * (maxSize / Z2F m))) in *. set (U := pw 0) in *.
  set (k := (300 * n - 1) / m).
  assert (Hk1 : m * k <= 300 * n - 1) by (apply Z.mul_div_le; lia).
  assert (Hk2 : 300 * n - 1 < m * Z.succ k) by (apply Z.mul_succ_div_gt; lia).
  assert (Hk0 : 0 <= k) by (apply Z.div_pos; lia).
  assert (Hcap : k <= IntegerPart (Z2F n * (maxSize / Z2F m)) <= 300).
  { apply (IntegerPart_bounds _ _ _ k 300 Hf); [ lia | | ]; fold X; fold U.
    - assert (A : k * U * (m * 20282409603651670423947251286016)
                  <= X * (m * 20282409603651670423947251286016)).
      { apply Z.le_trans with (m := 300 * n * U * 20282409603651661416747996545025);
          [ | lia ].
        replace (k * U * (m * 20282409603651670423947251286016))
          with ((m * k * 20282409603651670423947251286016) * U) by ring.
        replace (300 * n * U * 20282409603651661416747996545025)
          with ((300 * n * 20282409603651661416747996545025) * U) by ring.
        apply Z.mul_le_mono_nonneg_r; lia. }
      apply Z.mul_le_mono_pos_r with (p := m * 20282409603651670423947251286016);
        [ lia | exact A ].
    - assert (A : X * (m * 20282409603651670423947251286016)
                  < 301 * U * (m * 20282409603651670423947251286016)).
      { apply Z.le_lt_trans with (m := 300 * n * U * 20282409603651679431146506027009);
          [ lia | ].
        replace (300 * n * U * 20282409603651679431146506027009)
          with ((300 * n * 20282409603651679431146506027009) * U) by ring.
        replace (301 * U * (m * 20282409603651670423947251286016))
          with ((301 * m * 20282409603651670423947251286016) * U) by ring.
        apply Z.mul_lt_mono_pos_r; lia. }
      apply Z.mul_lt_mono_pos_r with (p := m * 20282409603651670423947251286016);
        [ lia | ].
      replace ((300 + 1) * U) with (301 * U) by ring. exact A. }
  unfold side. rewrite ToUint32_small by lia.
  set (I := IntegerPart (Z2F n * (maxSize / Z2F m))) in *.
  split.
  - assert (A : I * m * 20282409603651670423947251286016 * U
                <= 300 * n * 20282409603651679431146506027009 * U).
    { apply Z.le_trans with (m := X * m * 20282409603651670423947251286016); [ | lia ].
      replace (I * m * 20282409603651670423947251286016 * U)
        with (I * U * (m * 20282409603651670423947251286016)) by ring.
      replace (X * m * 20282409603651670423947251286016)
        with (X * (m * 20282409603651670423947251286016)) by ring.
      apply Z.mul_le_mono_nonneg_r; lia. }
    assert (B : I * m * 20282409603651670423947251286016
                <= 300 * n * 20282409603651679431146506027009).
    { apply Z.mul_le_mono_pos_r with (p := U); assumption. }
    set (Q := I * m) in *. lia.
  - assert (B : m * Z.succ k <= (I + 1) * m).
    { replace ((I + 1) * m) with (m * (I + 1)) by ring.
      apply Z.mul_le_mono_nonneg_l; lia. }
    lia.
Qed.

(** X13: the working raster keeps the proportions of the image up to one
    pixel: with L the larger natural dimension, each side of the canvas is
    the integer part of 300 * dimension / L, or one less when that quotient
    is an integer. *)
Theorem canvas_keeps_proportions (img : HTMLImageElement) :
  wellFormedImage img ->
  let L := Z.max (naturalWidth img) (naturalHeight img) in
  (canvasWidth img * L <= 300 * naturalWidth img /\
   300 * naturalWidth img <= (canvasWidth img + 1) * L) /\
  (canvasHeight img * L <= 300 * naturalHeight img /\
   300 * naturalHeight img <= (canvasHeight img + 1) * L).
Proof.
  intros Hwf L. pose proof Hwf as [Hw Hh].
  pose proof (scaleOf_eq_max img Hwf) as Hs. fold L in Hs.
  unfold canvasWidth, canvasHeight. rewrite Hs.
  split; apply scaled_side; unfold L; lia.
Qed.

Lemma canvas_keeps_proportions_witness :
  let L := Z.max (naturalWidth stripImage) (naturalHeight stripImage) in
  (canvasWidth stripImage * L <= 300 * naturalWidth stripImage /\
   300 * naturalWidth stripImage <= (canvasWidth stripImage + 1) * L) /\
  (canvasHeight stripImage * L <= 300 * naturalHeight stripImage /\
   300 * naturalHeight stripImage <= (canvasHeight stripImage + 1) * L).
Proof.
  apply (canvas_keeps_proportions stripImage).
  unfold wellFormedImage, stripImage. simpl. lia.
Defined.

(** ** The box lies inside the image *)

(** The number of pixels of a region is at most the area of its bounding
    rectangle. *)
Lemma region_area (l : list Pixel) (minX maxX minY maxY : Z) :
  NoDup l ->
  IsMin minX (map px l) -> IsMax maxX (map px l) ->
  IsMin minY (map py l) -> IsMax maxY (map py l) ->
  Z.of_nat (List.length l) <= (maxX - minX + 1) * (maxY - minY + 1).
Proof.
  intros Hnd [Ix Hx1] [_ Hx2] [Iy Hy1] [_ Hy2].
  rewrite Forall_forall in Hx1, Hx2, Hy1, Hy2.
  pose proof (Hx2 _ Ix) as Wx. pose proof (Hy2 _ Iy) as Wy.
  set (shift := fun p : Pixel => (px p - minX, py p - minY)).
  assert (Hnd' : NoDup (map shift l)).
  { apply NoDup_map_injective; [ | exact Hnd ].
    intros [a b] [a' b'] E. unfold shift in E. simpl in E.
    injection E as E1 E2. f_equal; lia. }
  assert (Hincl : incl (map shift l)
                    (list_prod (upto (maxX - minX + 1)) (upto (maxY - minY + 1)))).
  { intros q Hq. apply in_map_iff in Hq. destruct Hq as (p & <- & Hp).
    unfold shift. apply in_prod_iff.
    pose proof (Hx1 _ (in_map px _ _ Hp)). pose proof (Hx2 _ (in_map px _ _ Hp)).
    pose proof (Hy1 _ (in_map py _ _ Hp)). pose proof (Hy2 _ (in_map py _ _ Hp)).
    split; apply In_upto; lia. }
  pose proof (NoDup_incl_length Hnd' Hincl) as Hlen.
  rewrite length_map, length_prod in Hlen.
  apply Nat2Z.inj_le in Hlen. rewrite Nat2Z.inj_mul, !length_upto in Hlen. lia.
Qed.

(** Where a box of the fallback comes from: the bounding rectangle of at
    least 100 skin pixels of the raster. *)
Lemma fallback_box_region
    (P : Platform) (img : HTMLImageElement) (faceBox : FaceBox) :
  detectFaceWithCanvas P img = Normal (Some faceBox) ->
  exists data minX maxX minY maxY,
    readRaster P img (canvasWidth img) (canvasHeight img) = Normal data
    /\ findBounds (canvasWidth img) (canvasHeight img)
         (findSkinPixels data (canvasWidth img) (canvasHeight img))
       = (minX, maxX, minY, maxY)
    /\ faceBox = candidateBox (scaleOf img) (minX, maxX, minY, maxY)
    /\ 0 <= minX <= maxX /\ maxX < canvasWidth img
    /\ 0 <= minY <= maxY /\ maxY < canvasHeight img
    /\ 100 <= (maxX - minX + 1) * (maxY - minY + 1).
Proof.
  intros Hdet. unfold detectFaceWithCanvas in Hdet.
  destruct (hasContext2d P); simpl in Hdet; [ | discriminate ].
  destruct (readRaster P img (canvasWidth img) (canvasHeight img)) as [ data | e ];
    simpl in Hdet; [ | discriminate ].
  injection Hdet as Hbox. unfold boxFromSkinPixels in Hbox.
  destruct (Z.ltb_spec (Z.of_nat (List.length
              (findSkinPixels data (canvasWidth img) (canvasHeight img)))) 100)
    as [ | Hcount ]; [ discriminate | ].
  set (cw := canvasWidth img) in *. set (ch := canvasHeight img) in *.
  assert (Hne : findSkinPixels data cw ch <> []).
  { intros E. rewrite E in Hcount. simpl in Hcount. lia. }
  destruct (findBounds_extrema data cw ch Hne)
    as (minX & maxX & minY & maxY & Hb & Hx1 & Hx2 & Hy1 & Hy2).
  rewrite Hb in Hbox.
  exists data, minX, maxX, minY, maxY.
  assert (Hin : forall v, In v (map px (findSkinPixels data cw ch)) -> 0 <= v < cw).
  { intros v Hv. apply in_map_iff in Hv. destruct Hv as (p & <- & Hp).
    apply In_findSkinPixels in Hp. tauto. }
  assert (Hin' : forall v, In v (map py (findSkinPixels data cw ch)) -> 0 <= v < ch).
  { intros v Hv. apply in_map_iff in Hv. destruct Hv as (p & <- & Hp).
    apply In_findSkinPixels in Hp. tauto. }
  pose proof (IsMin_le_IsMax _ _ _ Hx1 Hx2).
  pose proof (IsMin_le_IsMax _ _ _ Hy1 Hy2).
  pose proof (Hin _ (proj1 Hx1)). pose proof (Hin _ (proj1 Hx2)).
  pose proof (Hin' _ (proj1 Hy1)). pose proof (Hin' _ (proj1 Hy2)).
  pose proof (region_area _ _ _ _ _ (NoDup_findSkinPixels data cw ch) Hx1 Hx2 Hy1 Hy2).
  split; [ reflexivity | split; [ exact Hb | split ] ].
  - unfold validateBox in Hbox. destruct (_ || _) in Hbox; congruence.
  - repeat (split; [ lia | ]). lia.
Qed.


(** A canvas coordinate divided by the scale. *)
Lemma coordinate_value (n : Z) (s : float) :
  0 <= n < 2 ^ 32 -> pnormal (-97) (-43) s ->
  value (Z2F n / s) * value s * 2 ^ 52 <= n * pw 0 * pw 0 * (2 ^ 52 + 1).
Proof.
  intros Hn Hs. destruct (Z.eq_dec n 0) as [-> | Hn0].
  - rewrite (pzero_value _ (pzero_div_pnormal _ _ _ _ Z2F_zero Hs)). lia.
  - destruct (Z2F_dimension n ltac:(lia)) as [HA VA].
    destruct (div_value_bounds _ _ _ _ _ _ HA Hs ltac:(lia)) as [Ud _].
    rewrite VA in Ud. lia.
Qed.

Lemma value_head_ratio : value 0.6%float * 2 ^ 53 = 5404319552844595 * pw 0.
Proof.
  change (value 0.6%float) with (5404319552844595 * pw (-53)).
  replace (pw 0) with (pw (-53 + 53)) by reflexivity.
  rewrite pw_add by lia. ring.
Qed.

(** The head height, 60% of an extent of the canvas, divided by the scale. *)
Lemma head_height_value (n : Z) (s : float) :
  0 <= n < 2 ^ 32 -> pnormal (-97) (-43) s ->
  value (Z2F n * 0.6 / s) * value s * 2 ^ 52 <= n * pw 0 * pw 0 * (2 ^ 52 + 1).
Proof.
  intros Hn Hs. destruct (Z.eq_dec n 0) as [-> | Hn0].
  - rewrite (pzero_value _ (pzero_div_pnormal _ _ _ _
               (pzero_mul_pnormal _ _ _ _ Z2F_zero head_ratio_pnormal) Hs)). lia.
  - destruct (Z2F_dimension n ltac:(lia)) as [HA VA].
    pose proof (mul_pnormal _ _ _ _ _ _ HA head_ratio_pnormal ltac:(lia) ltac:(lia)) as Hh.
    destruct (mul_value_bounds _ _ _ _ _ _ HA head_ratio_pnormal ltac:(lia)) as [Um _].
    destruct (div_value_bounds _ _ _ _ _ _ Hh Hs ltac:(lia)) as [Ud _].
    rewrite VA in Um. pose proof value_head_ratio as V6.
    pose proof (pw_pos 0 ltac:(lia)) as HU.
    pose proof (value_pos _ _ _ Hh ltac:(lia)) as Ph.
    pose proof (value_pos _ _ _ Hs ltac:(lia)) as Ps.
    set (Vh := value (Z2F n * 0.6)) in *. set (V6' := value 0.6%float) in *.
    set (U := pw 0) in *. set (X := value (Z2F n * 0.6 / s)) in *.
    set (Vs := value s) in *.
    change (2 ^ 52) with 4503599627370496 in *.
    change (2 ^ 53) with 9007199254740992 in *.
    assert (H6 : V6' * 4503599627370497 <= U * 4503599627370496) by lia.
    assert (H1 : Vh * 4503599627370496 <= n * V6' * 4503599627370497) by nia.
    assert (H2 : Vh <= n * U) by nia.
    assert (H3 : Vh * U * 4503599627370497 <= n * U * U * 4503599627370497) by nia.
    lia.
Qed.

(** The arithmetic behind the containment: coordinates that end before the
    last column of the raster, scaled back, end before the last column of
    the image. *)
Lemma inside_arith (A B a b cw nw U Vs : Z) :
  0 < U -> 0 < Vs -> 0 <= a -> 0 <= b -> a + b <= cw - 1 -> cw <= 300 ->
  A * Vs * 2 ^ 52 <= a * U * U * (2 ^ 52 + 1) ->
  B * Vs * 2 ^ 52 <= b * U * U * (2 ^ 52 + 1) ->
  cw * U * 2 ^ 52 <= nw * Vs * (2 ^ 52 + 1) ->
  A + B <= nw * U.
Proof.
  intros HU HVs Ha Hb Hab Hcw HA HB Hside.
  change (2 ^ 52) with 4503599627370496 in *.
  set (K := 4503599627370496) in *. set (K1 := 4503599627370497) in *.
  assert (H1 : (A + B) * Vs * K <= (cw - 1) * (U * U) * K1) by nia.
  assert (H2 : (A + B) * Vs * K * K1 <= (cw - 1) * (U * U) * (K1 * K1)).
  { replace ((cw - 1) * (U * U) * (K1 * K1)) with ((cw - 1) * (U * U) * K1 * K1) by ring.
    apply Z.mul_le_mono_nonneg_r; [ unfold K1; lia | exact H1 ]. }
  assert (H3 : (cw - 1) * (K1 * K1) <= cw * (K * K)) by (unfold K, K1; lia).
  assert (H4 : (cw - 1) * (U * U) * (K1 * K1) <= cw * (U * U) * (K * K)).
  { replace ((cw - 1) * (U * U) * (K1 * K1)) with ((cw - 1) * (K1 * K1) * (U * U)) by ring.
    replace (cw * (U * U) * (K * K)) with (cw * (K * K) * (U * U)) by ring.
    apply Z.mul_le_mono_nonneg_r; [ nia | exact H3 ]. }
  assert (H5 : cw * (U * U) * (K * K) <= nw * U * Vs * K * K1).
  { replace (cw * (U * U) * (K * K)) with (cw * U * K * (U * K)) by ring.
    replace (nw * U * Vs * K * K1) with (nw * Vs * K1 * (U * K)) by ring.
    apply Z.mul_le_mono_nonneg_r; [ unfold K; nia | exact Hside ]. }
  assert (H6 : (A + B) * (Vs * K * K1) <= nw * U * (Vs * K * K1)) by lia.
  apply Z.mul_le_mono_pos_r with (p := Vs * K * K1); [ unfold K, K1; nia | exact H6 ].
Qed.

(** The sum of two floats, against a third, from their values. *)
Lemma add_leb_of_values (a b c : float) :
  pzero a \/ pnormal (-62) 68 a -> pnormal (-63) 69 b -> pnormal (-52) 0 c ->
  value a + value b <= value c ->
  pnormal (-65) 71 (a + b) /\ (a + b <=? c)%float = true.
Proof.
  intros Ha Hb Hc Hv. destruct Ha as [Hz | Hn].
  - rewrite (pzero_add_pnormal _ _ _ _ Hz Hb). rewrite (pzero_value _ Hz) in Hv.
    split; [ apply (pnormal_weaken _ _ _ _ _ Hb); lia | ].
    apply (values_leb _ _ _ _ _ _ Hb Hc); lia.
  - split.
    + pose proof (add_pnormal _ _ _ _ _ _ Hn Hb ltac:(lia) ltac:(lia)) as H.
      apply (pnormal_weaken _ _ _ _ _ H); lia.
    + destruct (pnormal_value _ _ _ Hn) as (ma & ea & Da & Dma & Ea & Va).
      destruct (pnormal_value _ _ _ Hb) as (mb & eb & Db & Dmb & Eb & Vb).
      destruct (pnormal_value _ _ _ Hc) as (mc & ec & Dc & Dmc & Ec & Vc).
      rewrite Va, Vb, Vc in Hv.
      rewrite leb_spec. rewrite Dc.
      eapply rounds_to_le.
      * apply (add_rounds_to a b ma mb ea eb); auto; lia.
      * apply (rounds_to_self mc ec); auto; lia.
      * rewrite !Z.mul_1_r, !Z.mul_add_distr_r.
        rewrite !aligned_value by lia. lia.
Qed.

(** The edges of a box of the fallback, as exact values. *)
Lemma box_edges_values
    (P : Platform) (img : HTMLImageElement) (faceBox : FaceBox) :
  wellFormedImage img ->
  detectFaceWithCanvas P img = Normal (Some faceBox) ->
  value (x faceBox) + value (width faceBox) <= naturalWidth img * pw 0 /\
  value (y faceBox) + value (height faceBox) <= naturalHeight img * pw 0.
Proof.
  intros Hwf Hdet. pose proof Hwf as [Hw Hh].
  destruct (fallback_box_region P img faceBox Hdet)
    as (data & minX & maxX & minY & maxY & _ & _ & -> & Rx & Rx' & Ry & Ry' & _).
  cbn [candidateBox x y width height] in *.
  destruct (scaleOf_le_candidates img Hwf) as (Hs & Hle1 & Hle2).
  destruct (canvas_side_value _ _ Hw Hs Hle1) as [Bw Sw].
  destruct (canvas_side_value _ _ Hh Hs Hle2) as [Bh Sh].
  fold (canvasWidth img) in Bw, Sw. fold (canvasHeight img) in Bh, Sh.
  pose proof (pw_pos 0 ltac:(lia)) as HU.
  pose proof (value_pos _ _ _ Hs ltac:(lia)) as Ps.
  assert (R32 : 300 < 2 ^ 32) by reflexivity.
  split.
  - apply (inside_arith _ _ minX (maxX - minX) (canvasWidth img) _ (pw 0)
             (value (scaleOf img))); try lia.
    + apply coordinate_value; [ lia | exact Hs ].
    + apply coordinate_value; [ lia | exact Hs ].
  - apply (inside_arith _ _ minY (maxY - minY) (canvasHeight img) _ (pw 0)
             (value (scaleOf img))); try lia.
    + apply coordinate_value; [ lia | exact Hs ].
    + apply head_height_value; [ lia | exact Hs ].
Qed.

(** X14: a box returned by the fallback lies inside the image: its right
    edge x + width does not pass the natural width, and its lower edge
    y + height does not pass the natural height. *)
Theorem fallback_box_inside_image
    (P : Platform) (img : HTMLImageElement) (faceBox : FaceBox) :
  wellFormedImage img ->
  detectFaceWithCanvas P img = Normal (Some faceBox) ->
  (x faceBox + width faceBox <=? Z2F (naturalWidth img))%float = true /\
  (y faceBox + height faceBox <=? Z2F (naturalHeight img))%float = true.
Proof.
  intros Hwf Hdet. pose proof Hwf as [Hw Hh].
  destruct (fallback_box_classes P img faceBox Hwf Hdet) as (Cw & Ch & Cx & Cy).
  destruct (box_edges_values P img faceBox Hwf Hdet) as [Vx Vy].
  destruct (Z2F_dimension _ Hw) as [HW VW].
  destruct (Z2F_dimension _ Hh) as [HH VH].
  assert (Cw' : pnormal (-63) 69 (width faceBox))
    by (apply (pnormal_weaken _ _ _ _ _ Cw); lia).
  rewrite <- VW in Vx. rewrite <- VH in Vy.
  split.
  - exact (proj2 (add_leb_of_values _ _ _ Cx Cw' HW Vx)).
  - exact (proj2 (add_leb_of_values _ _ _ Cy Ch HH Vy)).
Qed.

Lemma fallback_box_inside_image_witness :
  (x stripBox + width stripBox <=? Z2F (naturalWidth stripImage))%float = true /\
  (y stripBox + height stripBox <=? Z2F (naturalHeight stripImage))%float = true.
Proof.
  apply (fallback_box_inside_image (canvasPlatform headOnBlue) stripImage stripBox).
  - unfold wellFormedImage, stripImage. simpl. lia.
  - exact strip_detection.
Defined.

(** ** The chin line *)

Lemma one_pnormal : pnormal (-52) (-52) 1%float.
Proof. pnormal_constant. Qed.

(** A number divided by itself is exactly one. *)
Lemma div_self (lo hi : Z) (a : float) :
  pnormal lo hi a -> -500 <= lo -> hi <= 400 -> (a / a)%float = 1%float.
Proof.
  intros Ha Hlo Hhi.
  pose proof (div_pnormal _ _ _ _ _ _ Ha Ha ltac:(lia) ltac:(lia)) as Hq.
  apply (value_inj _ _ _ _ _ _ Hq one_pnormal); try lia.
  destruct (pnormal_value _ _ _ Ha) as (m & e & Da & Dm & He & Va).
  pose proof (div_rounds_to a a m m e e Da Dm Da Dm ltac:(lia) ltac:(lia)) as Hr.
  assert (H1 : rounds_to (Prim2SF 1%float) (Zpos 4503599627370496) 1 (-52))
    by (apply (rounds_to_self 4503599627370496 (-52)); [ reflexivity | lia ]).
  replace (e - e - 53) with (-53) in Hr by lia.
  assert (Hp : pw (-52) = 2 * pw (-53)).
  { replace (-52) with (-53 + 1) by lia. rewrite pw_add by lia. lia. }
  pose proof (pw_pos (-53) ltac:(lia)).
  assert (L1 : (a / a <=? 1)%float = true).
  { rewrite leb_spec. apply (rounds_to_le _ _ _ _ _ _ _ _ Hr H1).
    rewrite Hp. change (2 ^ 53) with 9007199254740992. nia. }
  assert (L2 : (1 <=? a / a)%float = true).
  { rewrite leb_spec. apply (rounds_to_le _ _ _ _ _ _ _ _ H1 Hr).
    rewrite Hp. change (2 ^ 53) with 9007199254740992. nia. }
  pose proof (leb_values _ _ _ _ _ _ Hq one_pnormal ltac:(lia) ltac:(lia) L1).
  pose proof (leb_values _ _ _ _ _ _ one_pnormal Hq ltac:(lia) ltac:(lia) L2).
  lia.
Qed.

(** The chin line of a box that ends inside the image. *)
Lemma chin_within (faceBox : FaceBox) (n : Z) :
  1 <= n < 2 ^ 32 ->
  pnormal (-65) 71 (y faceBox + height faceBox) ->
  (y faceBox + height faceBox <=? Z2F n)%float = true ->
  (snd (landmarks faceBox (Z2F n)) <=? 100)%float = true.
Proof.
  intros Hn Hu Hle. unfold landmarks. cbn [snd].
  destruct (Z2F_dimension n Hn) as [HH _].
  set (u := (y faceBox + height faceBox)%float) in *. set (H := Z2F n) in *.
  assert (HH' : pnormal (-65) 71 H) by (apply (pnormal_weaken _ _ _ _ _ HH); lia).
  assert (Hdiv : (u / H <=? H / H)%float = true).
  { apply (div_le_mono_r (-65) 71 (-52) 0 u H H); auto; lia. }
  pose proof (div_pnormal _ _ _ _ _ _ Hu HH ltac:(lia) ltac:(lia)) as Hq.
  rewrite (div_self _ _ _ HH) in Hdiv by lia.
  change 100%float with (1 * 100)%float at 2.
  assert (Hq' : pnormal (-118) 72 (u / H)) by (apply (pnormal_weaken _ _ _ _ _ Hq); lia).
  assert (H1 : pnormal (-118) 72 1%float)
    by (apply (pnormal_weaken _ _ _ _ _ one_pnormal); lia).
  apply (mul_le_mono_r (-118) 72 (-46) (-46) (u / H)%float 1%float 100%float
           Hq' H1 percent_pnormal); [ lia | lia | lia | exact Hdiv ].
Qed.

(** X15: a result produced through the canvas fallback has its chin line
    at no more than 100 percent of the image height. *)
Theorem fallback_chin_within_image
    (P : Platform) (img : HTMLImageElement) (st : HookState)
    (result : FaceDetectionResult) :
  wellFormedImage img ->
  isFaceDetectorSupported P = false ->
  snd (detectFace P img st) = Normal (Some result) ->
  exists chin, chinY result = Some chin /\ (chin <=? 100)%float = true.
Proof.
  intros Hwf Hnative Hres.
  unfold detectFace, obtainFaceBox in Hres. rewrite Hnative in Hres.
  destruct (detectFaceWithCanvas P img) as [ [ faceBox | ] | error ] eqn:Hdet;
    cbn in Hres; try discriminate.
  destruct (fallback_box_classes P img faceBox Hwf Hdet) as (_ & Hh & _ & Hy).
  destruct (box_edges_values P img faceBox Hwf Hdet) as [_ Vy].
  pose proof Hwf as [_ Hn].
  destruct (Z2F_dimension _ Hn) as [HH VH]. rewrite <- VH in Vy.
  destruct (add_leb_of_values _ _ _ Hy Hh HH Vy) as [Hu Hin].
  pose proof (chin_within faceBox _ Hn Hu Hin) as Hchin.
  unfold landmarks in Hchin, Hres. cbn [snd] in Hchin.
  injection Hres as <-. cbn [chinY]. eauto.
Qed.

Lemma fallback_chin_within_image_witness :
  exists chin, chinY stripResult = Some chin /\ (chin <=? 100)%float = true.
Proof.
  apply (fallback_chin_within_image (canvasPlatform headOnBlue) stripImage idleState
           stripResult).
  - unfold wellFormedImage, stripImage. simpl. lia.
  - reflexivity.
  - unfold detectFace, obtainFaceBox. cbn [isFaceDetectorSupported canvasPlatform].
    rewrite strip_detection. reflexivity.
Defined.

(** ** The proportions of a detected region *)

Lemma half_pnormal : pnormal (-53) (-53) 0.5%float.
Proof. pnormal_constant. Qed.

Lemma three_halves_pnormal : pnormal (-52) (-52) 1.5%float.
Proof. pnormal_constant. Qed.

Lemma value_half : 2 * value 0.5%float = pw 0.
Proof.
  change (value 0.5%float) with (4503599627370496 * pw (-53)).
  replace (pw 0) with (pw (-53 + 53)) by reflexivity.
  rewrite pw_add by lia. change (2 ^ 53) with 9007199254740992. lia.
Qed.

Lemma value_three_halves : 2 * value 1.5%float = 3 * pw 0.
Proof.
  change (value 1.5%float) with (6755399441055744 * pw (-52)).
  replace (pw 0) with (pw (-52 + 52)) by reflexivity.
  rewrite pw_add by lia. change (2 ^ 52) with 4503599627370496. lia.
Qed.

(** A ratio of at most b / a bounds the width by the height, up to four
    roundings.  [Vw], [Vhd], [Vh] and [Vr] are the values of the width, of
    60% of the height on the raster, of the height and of the ratio. *)
Lemma ratio_upper_arith (a b W H U Vs Vw Vhd Vh Vr V6 K : Z) :
  0 <= a -> 0 <= b ->
  0 < U -> 0 < Vs -> 0 < Vh -> 1 < K -> 0 <= W -> 0 <= H ->
  W * U * U * (K - 1) <= Vw * Vs * K ->
  Vhd * U * K <= H * U * V6 * (K + 1) ->
  Vh * Vs * K <= Vhd * U * (K + 1) ->
  Vw * U * (K - 1) <= Vr * Vh * K ->
  a * Vr <= b * U ->
  a * W * U * ((K - 1) * (K - 1)) <= b * H * V6 * ((K + 1) * (K + 1)).
Proof.
  intros Ha Hb HU HVs HVh HK HW HH Lw Uhd Uh Lr R.
  assert (S0 : a * (Vw * U * (K - 1)) <= a * (Vr * Vh * K))
    by (apply Z.mul_le_mono_nonneg_l; assumption).
  assert (S1 : a * Vw * (K - 1) <= b * Vh * K).
  { apply Z.mul_le_mono_pos_r with (p := U); [ assumption | ].
    apply Z.le_trans with (m := a * (Vr * Vh * K)); [ lia | ].
    replace (b * Vh * K * U) with (b * U * (Vh * K)) by ring.
    replace (a * (Vr * Vh * K)) with (a * Vr * (Vh * K)) by ring.
    apply Z.mul_le_mono_nonneg_r; [ nia | assumption ]. }
  assert (S2 : Vhd * K <= H * V6 * (K + 1)).
  { apply Z.mul_le_mono_pos_r with (p := U); [ assumption | ]. lia. }
  assert (S3 : a * (K - 1) * (W * U * U * (K - 1)) <= a * (K - 1) * (Vw * Vs * K)).
  { apply Z.mul_le_mono_nonneg_l; [ nia | assumption ]. }
  assert (S4 : a * Vw * (K - 1) * (Vs * K) <= b * Vh * K * (Vs * K)).
  { apply Z.mul_le_mono_nonneg_r; [ nia | assumption ]. }
  assert (S5 : b * K * (Vh * Vs * K) <= b * K * (Vhd * U * (K + 1))).
  { apply Z.mul_le_mono_nonneg_l; [ nia | assumption ]. }
  assert (S6 : b * U * (K + 1) * (Vhd * K) <= b * U * (K + 1) * (H * V6 * (K + 1))).
  { apply Z.mul_le_mono_nonneg_l; [ nia | assumption ]. }
  assert (S7 : a * W * U * ((K - 1) * (K - 1)) * U
               <= b * H * V6 * ((K + 1) * (K + 1)) * U) by lia.
  apply Z.mul_le_mono_pos_r with (p := U); assumption.
Qed.

(** A ratio of at least b / a bounds the height by the width. *)
Lemma ratio_lower_arith (a b W H U Vs Vw Vhd Vh Vr V6 K : Z) :
  0 <= a -> 0 <= b ->
  0 < U -> 0 < Vs -> 0 < Vh -> 0 < Vw -> 1 < K -> 0 <= W -> 0 <= H ->
  Vw * Vs * K <= W * U * U * (K + 1) ->
  H * U * V6 * (K - 1) <= Vhd * U * K ->
  Vhd * U * (K - 1) <= Vh * Vs * K ->
  Vr * Vh * K <= Vw * U * (K + 1) ->
  b * U <= a * Vr ->
  b * H * V6 * ((K - 1) * (K - 1)) <= a * W * U * ((K + 1) * (K + 1)).
Proof.
  intros Ha Hb HU HVs HVh HVw HK HW HH Uw Lhd Lh Ur R.
  assert (S0 : a * (Vr * Vh * K) <= a * (Vw * U * (K + 1)))
    by (apply Z.mul_le_mono_nonneg_l; assumption).
  assert (S1 : b * Vh * K <= a * Vw * (K + 1)).
  { apply Z.mul_le_mono_pos_r with (p := U); [ assumption | ].
    apply Z.le_trans with (m := a * (Vr * Vh * K)); [ | lia ].
    replace (b * Vh * K * U) with (b * U * (Vh * K)) by ring.
    replace (a * (Vr * Vh * K)) with (a * Vr * (Vh * K)) by ring.
    apply Z.mul_le_mono_nonneg_r; [ nia | assumption ]. }
  assert (S2 : H * V6 * (K - 1) <= Vhd * K).
  { apply Z.mul_le_mono_pos_r with (p := U); [ assumption | ]. lia. }
  assert (S3 : a * (K + 1) * (Vw * Vs * K) <= a * (K + 1) * (W * U * U * (K + 1))).
  { apply Z.mul_le_mono_nonneg_l; [ nia | assumption ]. }
  assert (S4 : b * Vh * K * (Vs * K) <= a * Vw * (K + 1) * (Vs * K)).
  { apply Z.mul_le_mono_nonneg_r; [ nia | assumption ]. }
  assert (S5 : b * K * (Vhd * U * (K - 1)) <= b * K * (Vh * Vs * K)).
  { apply Z.mul_le_mono_nonneg_l; [ nia | assumption ]. }
  assert (S6 : b * U * (K - 1) * (H * V6 * (K - 1)) <= b * U * (K - 1) * (Vhd * K)).
  { apply Z.mul_le_mono_nonneg_l; [ nia | assumption ]. }
  assert (S7 : b * H * V6 * ((K - 1) * (K - 1)) * U
               <= a * W * U * ((K + 1) * (K + 1)) * U) by lia.
  apply Z.mul_le_mono_pos_r with (p := U); assumption.
Qed.

(** The aspect ratio of the box of a region [W] wide and [H] high on the
    raster, against a threshold b / a and the exact proportion W / (0.6 H). *)
Lemma ratio_against_threshold (a b W H : Z) (s t : float) :
  0 <= a -> 0 <= b -> 1 <= W <= 300 -> 1 <= H <= 300 ->
  pnormal (-97) (-43) s -> pnormal (-53) (-52) t -> a * value t = b * pw 0 ->
  let ratio := ((Z2F W / s) / (Z2F H * 0.6 / s))%float in
  pnormal (-201) 96 ratio /\
  ((ratio <=? t)%float = true ->
   a * W * 20282409603651661416747996545025 * 9007199254740992
   <= b * H * 5404319552844595 * 20282409603651679431146506027009) /\
  ((t <=? ratio)%float = true ->
   b * H * 5404319552844595 * 20282409603651661416747996545025
   <= a * W * 20282409603651679431146506027009 * 9007199254740992).
Proof.
  intros Ha Hb HW HH Hs Ht Et ratio.
  assert (R32 : 300 < 2 ^ 32) by reflexivity.
  destruct (Z2F_dimension W ltac:(lia)) as [PW VW].
  destruct (Z2F_dimension H ltac:(lia)) as [PH VH].
  pose proof (div_pnormal _ _ _ _ _ _ PW Hs ltac:(lia) ltac:(lia)) as Pw.
  pose proof (mul_pnormal _ _ _ _ _ _ PH head_ratio_pnormal ltac:(lia) ltac:(lia)) as Phd.
  pose proof (div_pnormal _ _ _ _ _ _ Phd Hs ltac:(lia) ltac:(lia)) as Ph.
  pose proof (div_pnormal _ _ _ _ _ _ Pw Ph ltac:(lia) ltac:(lia)) as Pr.
  fold ratio in Pr.
  destruct (div_value_bounds _ _ _ _ _ _ PW Hs ltac:(lia)) as [Uw Lw].
  destruct (mul_value_bounds _ _ _ _ _ _ PH head_ratio_pnormal ltac:(lia)) as [Uhd Lhd].
  destruct (div_value_bounds _ _ _ _ _ _ Phd Hs ltac:(lia)) as [Uh Lh].
  destruct (div_value_bounds _ _ _ _ _ _ Pw Ph ltac:(lia)) as [Ur Lr].
  fold ratio in Ur, Lr.
  pose proof value_head_ratio as E6.
  rewrite VW in Uw, Lw. rewrite VH in Uhd, Lhd.
  pose proof (pw_pos 0 ltac:(lia)) as HU.
  pose proof (value_pos _ _ _ Hs ltac:(lia)) as Ps.
  pose proof (value_pos _ _ _ Pw ltac:(lia)) as Pvw.
  pose proof (value_pos _ _ _ Ph ltac:(lia)) as Pvh.
  split; [ apply (pnormal_weaken _ _ _ _ _ Pr); lia | ].
  set (U := pw 0) in *. set (Vs := value s) in *.
  set (Vw := value (Z2F W / s)) in *. set (Vhd := value (Z2F H * 0.6)) in *.
  set (Vh := value (Z2F H * 0.6 / s)) in *.
  set (Vr := value ratio) in *. set (V6 := value 0.6%float) in *.
  change (2 ^ 53) with 9007199254740992 in E6.
  split.
  - intros Hle.
    pose proof (leb_values _ _ _ _ _ _ Pr Ht ltac:(lia) ltac:(lia) Hle) as R.
    fold Vr in R.
    assert (A : a * W * U * ((2 ^ 52 - 1) * (2 ^ 52 - 1))
                <= b * H * V6 * ((2 ^ 52 + 1) * (2 ^ 52 + 1))).
    { apply (ratio_upper_arith a b W H U Vs Vw Vhd Vh Vr V6 (2 ^ 52));
        [ exact Ha | exact Hb | exact HU | exact Ps | exact Pvh | reflexivity
        | lia | lia | exact Lw | exact Uhd | exact Uh | exact Lr | ].
      rewrite <- Et. apply Z.mul_le_mono_nonneg_l; assumption. }
    change ((2 ^ 52 - 1) * (2 ^ 52 - 1)) with 20282409603651661416747996545025 in A.
    change ((2 ^ 52 + 1) * (2 ^ 52 + 1)) with 20282409603651679431146506027009 in A.
    apply Z.mul_le_mono_pos_r with (p := U); [ assumption | ].
    replace (b * H * 5404319552844595 * 20282409603651679431146506027009 * U)
      with (b * H * (5404319552844595 * U) * 20282409603651679431146506027009) by ring.
    rewrite <- E6. lia.
  - intros Hle.
    pose proof (leb_values _ _ _ _ _ _ Ht Pr ltac:(lia) ltac:(lia) Hle) as R.
    fold Vr in R.
    assert (A : b * H * V6 * ((2 ^ 52 - 1) * (2 ^ 52 - 1))
                <= a * W * U * ((2 ^ 52 + 1) * (2 ^ 52 + 1))).
    { apply (ratio_lower_arith a b W H U Vs Vw Vhd Vh Vr V6 (2 ^ 52));
        [ exact Ha | exact Hb | exact HU | exact Ps | exact Pvh | exact Pvw
        | reflexivity | lia | lia | exact Uw | exact Lhd | exact Lh | exact Ur | ].
      rewrite <- Et. apply Z.mul_le_mono_nonneg_l; assumption. }
    change ((2 ^ 52 - 1) * (2 ^ 52 - 1)) with 20282409603651661416747996545025 in A.
    change ((2 ^ 52 + 1) * (2 ^ 52 + 1)) with 20282409603651679431146506027009 in A.
    apply Z.mul_le_mono_pos_r with (p := U); [ assumption | ].
    replace (b * H * 5404319552844595 * 20282409603651661416747996545025 * U)
      with (b * H * (5404319552844595 * U) * 20282409603651661416747996545025) by ring.
    rewrite <- E6. lia.
Qed.

(** The validation, read on the raster: a region [W] wide and [H] high
    passes only if 0.3 H <= W <= 0.9 H. *)
Lemma validated_extents (W H : Z) (s : float) :
  1 <= W <= 300 -> 1 <= H <= 300 -> pnormal (-97) (-43) s ->
  (0.5 <=? (Z2F W / s) / (Z2F H * 0.6 / s))%float = true ->
  ((Z2F W / s) / (Z2F H * 0.6 / s) <=? 1.5)%float = true ->
  3 * H <= 10 * W /\ 10 * W <= 9 * H.
Proof.
  intros HW HH Hs Hlo Hhi.
  destruct (ratio_against_threshold 2 1 W H s 0.5%float) as (_ & _ & Lo);
    try lia; try assumption.
  { apply (pnormal_weaken _ _ _ _ _ half_pnormal); lia. }
  { pose proof value_half. lia. }
  destruct (ratio_against_threshold 2 3 W H s 1.5%float) as (_ & Up & _);
    try lia; try assumption.
  { apply (pnormal_weaken _ _ _ _ _ three_halves_pnormal); lia. }
  { pose proof value_three_halves. lia. }
  specialize (Lo Hlo). specialize (Up Hhi). lia.
Qed.

(** Conversely, it passes if 0.3 H < W < 0.9 H. *)
Lemma extents_validated (W H : Z) (s : float) :
  1 <= W <= 300 -> 1 <= H <= 300 -> pnormal (-97) (-43) s ->
  3 * H < 10 * W -> 10 * W < 9 * H ->
  ((Z2F W / s) / (Z2F H * 0.6 / s) <? 0.5)%float = false /\
  (1.5 <? (Z2F W / s) / (Z2F H * 0.6 / s))%float = false.
Proof.
  intros HW HH Hs Hlo Hhi.
  assert (P5 : pnormal (-53) (-52) 0.5%float)
    by (apply (pnormal_weaken _ _ _ _ _ half_pnormal); lia).
  assert (P15 : pnormal (-53) (-52) 1.5%float)
    by (apply (pnormal_weaken _ _ _ _ _ three_halves_pnormal); lia).
  destruct (ratio_against_threshold 2 1 W H s 0.5%float) as (Pr & Up & _);
    try lia; try assumption.
  { pose proof value_half. lia. }
  destruct (ratio_against_threshold 2 3 W H s 1.5%float) as (_ & _ & Lo);
    try lia; try assumption.
  { pose proof value_three_halves. lia. }
  set (ratio := ((Z2F W / s) / (Z2F H * 0.6 / s))%float) in *.
  pose proof (pnormal_not_nan _ _ _ Pr) as Nr.
  split.
  - destruct (ratio <? 0.5)%float eqn:E; [ exfalso | reflexivity ].
    apply ltb_leb in E. specialize (Up E). lia.
  - destruct (1.5 <? ratio)%float eqn:E; [ exfalso | reflexivity ].
    apply ltb_leb in E. specialize (Lo E). lia.
Qed.

(** The bounds of a scan with their ranges and the pixel count. *)
Lemma scan_bounds (data : list Z) (cw ch minX maxX minY maxY : Z) :
  findSkinPixels data cw ch <> [] ->
  findBounds cw ch (findSkinPixels data cw ch) = (minX, maxX, minY, maxY) ->
  0 <= minX <= maxX /\ maxX < cw /\ 0 <= minY <= maxY /\ maxY < ch /\
  Z.of_nat (List.length (findSkinPixels data cw ch))
  <= (maxX - minX + 1) * (maxY - minY + 1).
Proof.
  intros Hne Hb.
  destruct (findBounds_extrema data cw ch Hne)
    as (minX' & maxX' & minY' & maxY' & Hb' & Hx1 & Hx2 & Hy1 & Hy2).
  rewrite Hb in Hb'. injection Hb' as <- <- <- <-.
  assert (Hin : forall v, In v (map px (findSkinPixels data cw ch)) -> 0 <= v < cw).
  { intros v Hv. apply in_map_iff in Hv. destruct Hv as (p & <- & Hp).
    apply In_findSkinPixels in Hp. tauto. }
  assert (Hin' : forall v, In v (map py (findSkinPixels data cw ch)) -> 0 <= v < ch).
  { intros v Hv. apply in_map_iff in Hv. destruct Hv as (p & <- & Hp).
    apply In_findSkinPixels in Hp. tauto. }
  pose proof (IsMin_le_IsMax _ _ _ Hx1 Hx2).
  pose proof (IsMin_le_IsMax _ _ _ Hy1 Hy2).
  pose proof (Hin _ (proj1 Hx1)). pose proof (Hin _ (proj1 Hx2)).
  pose proof (Hin' _ (proj1 Hy1)). pose proof (Hin' _ (proj1 Hy2)).
  pose proof (region_area _ _ _ _ _ (NoDup_findSkinPixels data cw ch) Hx1 Hx2 Hy1 Hy2).
  repeat (split; [ lia | ]). lia.
Qed.

Lemma pzero_not_pnormal (lo hi : Z) (f : float) : pzero f -> pnormal lo hi f -> False.
Proof. intros Hz (m & e & E & _). rewrite Hz in E. discriminate. Qed.

(** X16: a box is returned only for a skin region that is between 0.3 and
    0.9 times as wide as it is high on the raster, whose bounding rectangle
    holds the 100 pixels, and which therefore spans at least 10 rows and 3
    columns. *)
Theorem detected_region_proportions
    (P : Platform) (img : HTMLImageElement) (faceBox : FaceBox) :
  wellFormedImage img ->
  detectFaceWithCanvas P img = Normal (Some faceBox) ->
  exists data minX maxX minY maxY,
    readRaster P img (canvasWidth img) (canvasHeight img) = Normal data
    /\ findBounds (canvasWidth img) (canvasHeight img)
         (findSkinPixels data (canvasWidth img) (canvasHeight img))
       = (minX, maxX, minY, maxY)
    /\ 3 * (maxY - minY) <= 10 * (maxX - minX)
    /\ 10 * (maxX - minX) <= 9 * (maxY - minY)
    /\ 100 <= (maxX - minX + 1) * (maxY - minY + 1)
    /\ 10 <= maxY - minY /\ 3 <= maxX - minX.
Proof.
  intros Hwf Hdet.
  destruct (fallback_box_classes P img faceBox Hwf Hdet) as (Cw & Ch & _).
  assert (Hnum : is_nan (width faceBox / height faceBox) = false).
  { apply (pnormal_not_nan (-184) 80). apply (div_pnormal _ _ _ _ _ _ Cw Ch); lia. }
  destruct (validateBox_bounds faceBox Hnum
              (detectFaceWithCanvas_validated P img faceBox Hdet)) as [Rlo Rhi].
  destruct (fallback_box_region P img faceBox Hdet)
    as (data & minX & maxX & minY & maxY & Hdata & Hb & -> & Rx & Rx' & Ry & Ry' & Harea).
  cbn [candidateBox x y width height] in *.
  destruct (canvas_sides img Hwf) as [Bw Bh].
  destruct (scaleOf_le_candidates img Hwf) as (Hs & _).
  assert (HW : 1 <= maxX - minX).
  { destruct (Z.eq_dec (maxX - minX) 0) as [E | ]; [ exfalso | lia ].
    rewrite E in Cw.
    exact (pzero_not_pnormal _ _ _
             (pzero_div_pnormal _ _ _ _ Z2F_zero Hs) Cw). }
  assert (HH : 1 <= maxY - minY).
  { destruct (Z.eq_dec (maxY - minY) 0) as [E | ]; [ exfalso | lia ].
    rewrite E in Ch.
    exact (pzero_not_pnormal _ _ _
             (pzero_div_pnormal _ _ _ _
                (pzero_mul_pnormal _ _ _ _ Z2F_zero head_ratio_pnormal) Hs) Ch). }
  destruct (validated_extents (maxX - minX) (maxY - minY) (scaleOf img))
    as [Lo Up]; try lia; try assumption.
  exists data, minX, maxX, minY, maxY.
  split; [ exact Hdata | split; [ exact Hb | ] ].
  split; [ exact Lo | split; [ exact Up | split; [ exact Harea | ] ] ].
  assert (10 <= maxY - minY) by nia. lia.
Qed.

Lemma detected_region_proportions_witness :
  exists data minX maxX minY maxY,
    readRaster (canvasPlatform headOnBlue) stripImage
      (canvasWidth stripImage) (canvasHeight stripImage) = Normal data
    /\ findBounds (canvasWidth stripImage) (canvasHeight stripImage)
         (findSkinPixels data (canvasWidth stripImage) (canvasHeight stripImage))
       = (minX, maxX, minY, maxY)
    /\ 3 * (maxY - minY) <= 10 * (maxX - minX)
    /\ 10 * (maxX - minX) <= 9 * (maxY - minY)
    /\ 100 <= (maxX - minX + 1) * (maxY - minY + 1)
    /\ 10 <= maxY - minY /\ 3 <= maxX - minX.
Proof.
  apply (detected_region_proportions (canvasPlatform headOnBlue) stripImage stripBox).
  - unfold wellFormedImage, stripImage. simpl. lia.
  - exact strip_detection.
Defined.

(** X17: conversely, when the canvas can be read, at least 100 skin pixels
    whose region is strictly between 0.3 and 0.9 times as wide as it is
    high always give a box, the one scaled back from the bounds. *)
Theorem proportionate_region_detected
    (P : Platform) (img : HTMLImageElement) (data : list Z)
    (minX maxX minY maxY : Z) :
  wellFormedImage img ->
  hasContext2d P = true ->
  readRaster P img (canvasWidth img) (canvasHeight img) = Normal data ->
  100 <= Z.of_nat (List.length
                     (findSkinPixels data (canvasWidth img) (canvasHeight img))) ->
  findBounds (canvasWidth img) (canvasHeight img)
    (findSkinPixels data (canvasWidth img) (canvasHeight img))
  = (minX, maxX, minY, maxY) ->
  3 * (maxY - minY) < 10 * (maxX - minX) ->
  10 * (maxX - minX) < 9 * (maxY - minY) ->
  detectFaceWithCanvas P img
  = Normal (Some (candidateBox (scaleOf img) (minX, maxX, minY, maxY))).
Proof.
  intros Hwf Hctx Hdata Hcount Hb Hlo Hhi.
  destruct (canvas_sides img Hwf) as [Bw Bh].
  destruct (scaleOf_le_candidates img Hwf) as (Hs & _).
  assert (Hne : findSkinPixels data (canvasWidth img) (canvasHeight img) <> []).
  { intros E. rewrite E in Hcount. simpl in Hcount. lia. }
  destruct (scan_bounds _ _ _ _ _ _ _ Hne Hb) as (Rx & Rx' & Ry & Ry' & _).
  destruct (extents_validated (maxX - minX) (maxY - minY) (scaleOf img))
    as [V1 V2]; try lia; try assumption.
  unfold detectFaceWithCanvas. rewrite Hctx, Hdata. simpl.
  unfold boxFromSkinPixels.
  destruct (Z.ltb_spec (Z.of_nat (List.length
              (findSkinPixels data (canvasWidth img) (canvasHeight img)))) 100);
    [ lia | ].
  rewrite Hb. unfold validateBox. cbn [candidateBox x y width height].
  rewrite V1, V2. reflexivity.
Qed.

Lemma strip_region :
  Z.of_nat (List.length
    (findSkinPixels (rasterOf headOnBlue (canvasWidth stripImage) (canvasHeight stripImage))
       (canvasWidth stripImage) (canvasHeight stripImage))) = 104
  /\ findBounds (canvasWidth stripImage) (canvasHeight stripImage)
       (findSkinPixels (rasterOf headOnBlue (canvasWidth stripImage) (canvasHeight stripImage))
          (canvasWidth stripImage) (canvasHeight stripImage))
     = (0, 7, 0, 12).
Proof. vm_compute. split; reflexivity. Qed.

Lemma proportionate_region_detected_witness :
  detectFaceWithCanvas (canvasPlatform headOnBlue) stripImage
  = Normal (Some (candidateBox (scaleOf stripImage) (0, 7, 0, 12))).
Proof.
  apply (proportionate_region_detected (canvasPlatform headOnBlue) stripImage
           (rasterOf headOnBlue (canvasWidth stripImage) (canvasHeight stripImage))
           0 7 0 12).
  - unfold wellFormedImage, stripImage. simpl. lia.
  - reflexivity.
  - reflexivity.
  - rewrite (proj1 strip_region). lia.
  - exact (proj2 strip_region).
  - lia.
  - lia.
Defined.

(** ** The fourth channel *)

(** X18: the scan never looks at the alpha channel: two buffers that agree
    on the red, green and blue bytes give the same skin pixels, however
    transparent the pixels are. *)
Theorem scan_ignores_alpha (data data' : list Z) (cw ch : Z) :
  (forall i, i mod 4 <> 3 -> dataAt data i = dataAt data' i) ->
  findSkinPixels data cw ch = findSkinPixels data' cw ch.
Proof.
  intros Hsame. unfold findSkinPixels.
  apply flat_map_ext. intros row. unfold scanRow.
  apply flat_map_ext. intros col.
  set (i := (row * cw + col) * 4).
  assert (H0 : i mod 4 = 0) by (unfold i; apply Z.mod_mul; lia).
  assert (H1 : (i + 1) mod 4 = 1).
  { unfold i. rewrite Z.add_comm, Z.mod_add by lia. reflexivity. }
  assert (H2 : (i + 2) mod 4 = 2).
  { unfold i. rewrite Z.add_comm, Z.mod_add by lia. reflexivity. }
  rewrite (Hsame i), (Hsame (i + 1)), (Hsame (i + 2)) by lia. reflexivity.
Qed.

Lemma scan_ignores_alpha_witness :
  findSkinPixels [200; 150; 120; 255] 1 1 = findSkinPixels [200; 150; 120; 0] 1 1.
Proof.
  apply (scan_ignores_alpha [200; 150; 120; 255] [200; 150; 120; 0] 1 1).
  intros i Hi. unfold dataAt.
  destruct (Z.ltb_spec i 0) as [ | Hpos ]; [ reflexivity | ].
  destruct (Z.to_nat i) as [ | [ | [ | [ | n ] ] ] ] eqn:E; try reflexivity.
  exfalso. apply Hi. replace i with 3 by lia. reflexivity.
Defined.
